(** * Verification of the duck tracker: [PathTracker] and [calculate_speed]

    Source: [src/patitos/visionPatitos.py].

    The tracker keeps two insertion-ordered Python dictionaries ([paths] and
    [disappeared]) keyed by integer track identifiers.  Observations are
    Python tuples of numbers; numpy computes on them in IEEE binary64, which
    is modelled here with Rocq's primitive floats.  Python exceptions are
    modelled by an explicit error result. *)

From Stdlib Require Import ZArith List Bool Lia PeanoNat.
From Stdlib Require Import Floats.
Import ListNotations.

(** ** Python exceptions and the error monad *)

Inductive exn : Type :=
| ValueError   (* numpy: operands could not be broadcast together; argmin of an empty sequence; [int] of a NaN *)
| KeyError     (* dict lookup or [del] of a missing key *)
| IndexError   (* list index out of range *)
| OverflowError. (* [int] of an infinity *)

Inductive result (A : Type) : Type :=
| Ok (a : A)
| Raise (e : exn).

Arguments Ok {A} a.
Arguments Raise {A} e.

Definition bind {A B : Type} (r : result A) (k : A -> result B) : result B :=
  match r with
  | Ok a => k a
  | Raise e => Raise e
  end.

Notation "x <- r ;; k" := (bind r (fun x => k))
  (at level 61, r at next level, right associativity).
Notation "' p <- r ;; k" := (bind r (fun x => match x with p => k end))
  (at level 61, p pattern, r at next level, right associativity).

Fixpoint mapM {A B : Type} (f : A -> result B) (l : list A) : result (list B) :=
  match l with
  | [] => Ok []
  | a :: l' => b <- f a ;; bs <- mapM f l' ;; Ok (b :: bs)
  end.

Fixpoint foldM {A S : Type} (f : S -> A -> result S) (l : list A) (s : S) : result S :=
  match l with
  | [] => Ok s
  | a :: l' => s' <- f s a ;; foldM f l' s'
  end.

(** [l[i]] for a non-negative index. *)
Definition py_index {A : Type} (l : list A) (i : nat) : result A :=
  match nth_error l i with
  | Some a => Ok a
  | None => Raise IndexError
  end.

(** [l[-1]]. *)
Definition py_last {A : Type} (l : list A) : result A :=
  match rev l with
  | a :: _ => Ok a
  | [] => Raise IndexError
  end.

(** [l.pop(i)], keeping only the list that remains. *)
Fixpoint pop {A : Type} (i : nat) (l : list A) : list A :=
  match l, i with
  | [], _ => []
  | _ :: l', O => l'
  | a :: l', S i' => a :: pop i' l'
  end.

(** ** Python dictionaries

    A [dict] keeps its keys in insertion order, and [PathTracker.update]
    reads that order ([list(self.paths.keys())]), so a dictionary is an
    association list.  Assigning to a present key keeps its position;
    assigning to an absent key appends. *)

Definition dict (V : Type) : Type := list (Z * V).

Definition keys {V : Type} (d : dict V) : list Z := map fst d.

Fixpoint dict_find {V : Type} (k : Z) (d : dict V) : option V :=
  match d with
  | [] => None
  | (k', v) :: d' => if Z.eqb k' k then Some v else dict_find k d'
  end.

(** [d[k]] *)
Definition dict_get {V : Type} (k : Z) (d : dict V) : result V :=
  match dict_find k d with
  | Some v => Ok v
  | None => Raise KeyError
  end.

(** [d[k] = v] *)
Fixpoint dict_set {V : Type} (k : Z) (v : V) (d : dict V) : dict V :=
  match d with
  | [] => [(k, v)]
  | (k', v') :: d' =>
      if Z.eqb k' k then (k, v) :: d' else (k', v') :: dict_set k v d'
  end.

Definition drop_key {V : Type} (k : Z) (d : dict V) : dict V :=
  filter (fun e => negb (Z.eqb (fst e) k)) d.

(** [del d[k]] *)
Definition dict_del {V : Type} (k : Z) (d : dict V) : result (dict V) :=
  match dict_find k d with
  | Some _ => Ok (drop_key k d)
  | None => Raise KeyError
  end.

(** ** numpy on one-dimensional binary64 arrays *)

Open Scope float_scope.

(** An observation is the tuple [(cx, cy, conf, cls)] the caller builds; the
    tracker never checks its length, so it is a list of numbers. *)
Definition Obs : Type := list float.

Fixpoint zip_sub (a b : list float) : list float :=
  match a, b with
  | x :: a', y :: b' => (x - y) :: zip_sub a' b'
  | _, _ => []
  end.

(** [np.array(a) - np.array(b)]: equal shapes subtract pointwise, a
    one-element array is stretched to the other shape, any other pair of
    shapes cannot be broadcast. *)
Definition np_sub (a b : list float) : result (list float) :=
  if Nat.eqb (length a) (length b) then Ok (zip_sub a b)
  else match a, b with
       | [x], _ => Ok (map (fun y => x - y) b)
       | _, [y] => Ok (map (fun x => x - y) a)
       | _, _ => Raise ValueError
       end.

(** [np.linalg.norm(v)] of a real vector: [sqrt(v.dot(v))], every product
    and every sum rounded.  The dot product is the BLAS's: where it fuses
    a product with the sum, the last bit of the result can differ. *)
Definition np_norm (v : list float) : float :=
  sqrt (fold_left (fun acc x => acc + x * x) v 0).

(** [np.linalg.norm(np.array(p[:2]) - np.array(q[:2]))] *)
Definition np_dist (p q : Obs) : result float :=
  v <- np_sub (firstn 2 p) (firstn 2 q) ;; Ok (np_norm v).

(** [np.argmin] of a flattened array: the first index of the minimum, and
    the index of the first NaN when there is one (numpy's scan tests
    [!(x >= mp)] and stops at a NaN). *)
Fixpoint argmin_scan (mp : float) (best i : nat) (l : list float) : nat :=
  match l with
  | [] => best
  | x :: l' =>
      if negb (mp <=? x)
      then if is_nan x then i else argmin_scan x i (S i) l'
      else argmin_scan mp best (S i) l'
  end.

Definition np_argmin (l : list float) : result nat :=
  match l with
  | [] => Raise ValueError
  | x :: l' => Ok (if is_nan x then O else argmin_scan x O 1%nat l')
  end.

(** [distances[rows_idx, :][:, cols_idx]] *)
Definition submatrix (distances : list (list float)) (rows_idx cols_idx : list nat)
  : result (list (list float)) :=
  mapM (fun r => line <- py_index distances r ;; mapM (py_index line) cols_idx) rows_idx.

(** [distances[row, col]] *)
Definition matrix_get (distances : list (list float)) (row col : nat) : result float :=
  line <- py_index distances row ;; py_index line col.

(** [np.hypot(a, b)], taken as the rounded square root of the rounded sum
    of squares.  The C library's [hypot] keeps the squares from
    overflowing or underflowing and can differ in the last bit. *)
Definition np_hypot (a b : float) : float := sqrt (a * a + b * b).

Close Scope float_scope.

(** ** The tracker *)

Record PathTracker : Type := mkTracker {
  paths : dict (list Obs);
  disappeared : dict Z;
  next_id : Z;
  max_disappeared : Z
}.

(** [PathTracker.__init__] *)
Definition init : PathTracker :=
  {| paths := []; disappeared := []; next_id := 0; max_disappeared := 10 |}.

Definition set_paths (p : dict (list Obs)) (t : PathTracker) : PathTracker :=
  {| paths := p; disappeared := disappeared t;
     next_id := next_id t; max_disappeared := max_disappeared t |}.

Definition set_disappeared (d : dict Z) (t : PathTracker) : PathTracker :=
  {| paths := paths t; disappeared := d;
     next_id := next_id t; max_disappeared := max_disappeared t |}.

(** Lines 37-39 and 80-82: a detection seeds a new track. *)
Definition seed (t : PathTracker) (detection : Obs) : PathTracker :=
  {| paths := dict_set (next_id t) [detection] (paths t);
     disappeared := dict_set (next_id t) 0%Z (disappeared t);
     next_id := (next_id t + 1)%Z;
     max_disappeared := max_disappeared t |}.

(** Lines 28-31 and 87-90: a track without a detection ages, and is deleted
    once its counter exceeds [max_disappeared]. *)
Definition age (t : PathTracker) (obj_id : Z) : result PathTracker :=
  c <- dict_get obj_id (disappeared t) ;;
  let t1 := set_disappeared (dict_set obj_id (c + 1)%Z (disappeared t)) t in
  if (max_disappeared t1 <? c + 1)%Z then
    p <- dict_del obj_id (paths t1) ;;
    d <- dict_del obj_id (disappeared t1) ;;
    Ok (set_disappeared d (set_paths p t1))
  else Ok t1.

(** Lines 68-69: commit a match. *)
Definition commit (t : PathTracker) (obj_id : Z) (detection : Obs) : result PathTracker :=
  h <- dict_get obj_id (paths t) ;;
  Ok (set_disappeared (dict_set obj_id 0%Z (disappeared t))
        (set_paths (dict_set obj_id (h ++ [detection]) (paths t)) t)).

(** Lines 59-76: the matching loop.  Every iteration that continues pops one
    row, so [length rows_idx] iterations are enough; [fuel] counts them. *)
Fixpoint match_loop (fuel : nat) (distances : list (list float))
    (object_ids : list Z) (detections : list Obs)
    (t : PathTracker) (rows_idx cols_idx : list nat)
  : result (PathTracker * list nat * list nat) :=
  match fuel with
  | O => Ok (t, rows_idx, cols_idx)
  | S fuel' =>
      if (0 <? length rows_idx)%nat && (0 <? length cols_idx)%nat then
        sub <- submatrix distances rows_idx cols_idx ;;
        min_idx <- np_argmin (concat sub) ;;
        let i := (min_idx / length cols_idx)%nat in
        let j := (min_idx mod length cols_idx)%nat in
        row <- py_index rows_idx i ;;
        col <- py_index cols_idx j ;;
        d <- matrix_get distances row col ;;
        if (d <? 100)%float then
          obj_id <- py_index object_ids row ;;
          detection <- py_index detections col ;;
          t' <- commit t obj_id detection ;;
          match_loop fuel' distances object_ids detections t' (pop i rows_idx) (pop j cols_idx)
        else Ok (t, rows_idx, cols_idx)
      else Ok (t, rows_idx, cols_idx)
  end.

(** Line 43: the most recent observation of every live track. *)
Definition previous_centroids (t : PathTracker) : result (list Obs) :=
  mapM (fun obj_id => h <- dict_get obj_id (paths t) ;; py_last h) (keys (paths t)).

(** Lines 46-51: the matrix of distances, one line per live track. *)
Definition distance_matrix (previous_centroids detections : list Obs)
  : result (list (list float)) :=
  mapM (fun prev_centroid => mapM (np_dist prev_centroid) detections)
       previous_centroids.

(** [PathTracker.update]: the returned mapping and the tracker afterwards. *)
Definition update (t : PathTracker) (detections : list Obs)
  : result (dict (list Obs) * PathTracker) :=
  if Nat.eqb (length detections) 0 then
    t' <- foldM age (keys (disappeared t)) t ;;
    Ok (paths t', t')
  else if Nat.eqb (length (paths t)) 0 then
    let t' := fold_left seed detections t in
    Ok (paths t', t')
  else
    let object_ids := keys (paths t) in
    centroids <- previous_centroids t ;;
    distances <- distance_matrix centroids detections ;;
    let rows_idx := seq 0 (length centroids) in
    let cols_idx := seq 0 (length detections) in
    '(t1, rows_idx, cols_idx) <-
      (if (0 <? length centroids * length detections)%nat
       then match_loop (length rows_idx) distances object_ids detections t rows_idx cols_idx
       else Ok (t, rows_idx, cols_idx)) ;;
    t2 <- foldM (fun t col => detection <- py_index detections col ;; Ok (seed t detection))
                cols_idx t1 ;;
    t3 <- foldM (fun t row => obj_id <- py_index object_ids row ;; age t obj_id)
                rows_idx t2 ;;
    Ok (paths t3, t3).

(** [calculate_speed]; the integer 0 of [return 0] is the float 0 here. *)
Definition calculate_speed (points : list (float * float)) (time_diff : float) : float :=
  if (length points <? 2)%nat then 0%float
  else match rev points with
       | p2 :: p1 :: _ =>
           (np_hypot (fst p2 - fst p1) (snd p2 - snd p1) / time_diff)%float
       | _ => 0%float
       end.

(** ** Sequences of calls *)

(** The tracker after the frames [frames], one [update] per frame. *)
Fixpoint run (t : PathTracker) (frames : list (list Obs)) : result PathTracker :=
  match frames with
  | [] => Ok t
  | detections :: frames' => r <- update t detections ;; run (snd r) frames'
  end.

(** The identifiers a call issued: the keys of [paths] afterwards that were
    not keys before. *)
Definition issued (t t' : PathTracker) : list Z :=
  filter (fun k => negb (existsb (Z.eqb k) (keys (paths t)))) (keys (paths t')).

(** [run], with the log of all identifiers issued on the way. *)
Fixpoint run_log (t : PathTracker) (frames : list (list Obs))
  : result (PathTracker * list Z) :=
  match frames with
  | [] => Ok (t, [])
  | detections :: frames' =>
      r <- update t detections ;;
      r' <- run_log (snd r) frames' ;;
      Ok (fst r', issued t (snd r) ++ snd r')
  end.

(** ** Well-formed trackers *)

(** The invariant of the tracker: the two dictionaries have the same keys in
    the same order, without repetition and all below the next-ID counter;
    every missed counter is between 0 and [max_disappeared]; no history is
    empty. *)
Record wf (t : PathTracker) : Prop := {
  wf_keys : keys (paths t) = keys (disappeared t);
  wf_nodup : NoDup (keys (paths t));
  wf_fresh : Forall (fun k => (k < next_id t)%Z) (keys (paths t));
  wf_count : forall k c,
      dict_find k (disappeared t) = Some c -> (0 <= c <= max_disappeared t)%Z;
  wf_hist : forall k h, dict_find k (paths t) = Some h -> h <> [];
  wf_max : (0 <= max_disappeared t)%Z
}.

Arguments wf_keys {t} _.
Arguments wf_nodup {t} _.
Arguments wf_fresh {t} _.
Arguments wf_count {t} _ k c _.
Arguments wf_hist {t} _ k h _.
Arguments wf_max {t} _.

(** A tracker without tracks, whatever its configuration. *)
Definition empty_tracker (t : PathTracker) : Prop :=
  paths t = [] /\ disappeared t = [] /\ (0 <= max_disappeared t)%Z.

(** An observation with its two position fields. *)
Definition positioned (o : Obs) : Prop := (2 <= length o)%nat.

(** The call that took [t] to [t'] appended no detection to track [k]. *)
Definition unmatched (k : Z) (t t' : PathTracker) : Prop :=
  dict_find k (paths t') = None \/ dict_find k (paths t') = dict_find k (paths t).

(** [n] consecutive calls, none of which matched track [k]. *)
Inductive missed_run (k : Z) : PathTracker -> nat -> PathTracker -> Prop :=
| missed_zero t : missed_run k t O t
| missed_step t detections m t1 n t' :
    update t detections = Ok (m, t1) -> unmatched k t t1 ->
    missed_run k t1 n t' -> missed_run k t (S n) t'.

(** ** Greedy matching, as a relation

    [greedy distances rows cols ms rows' cols']: starting with the live
    rows and columns [rows] and [cols], committing the pairs [ms] one after
    the other leaves [rows'] and [cols'].  Each committed pair carries a
    smallest remaining distance, strictly below 100; matching stops when a
    side is exhausted or the smallest remaining distance is not below 100. *)

(** Nothing in [l] is strictly below [m]. *)
Definition lower_bound (m : float) (l : list float) : Prop :=
  forall y, In y l -> (y <? m)%float = false.

(** [distances] has [R] lines of [C] entries. *)
Definition shape (distances : list (list float)) (R C : nat) : Prop :=
  length distances = R /\ Forall (fun line => length line = C) distances.

(** No remaining pair is strictly closer than [d]. *)
Definition smallest (distances : list (list float)) (rows cols : list nat) (d : float) : Prop :=
  forall r c d', In r rows -> In c cols ->
    matrix_get distances r c = Ok d' -> (d' <? d)%float = false.

Inductive greedy (distances : list (list float))
  : list nat -> list nat -> list (nat * nat) -> list nat -> list nat -> Prop :=
| greedy_exhausted rows cols :
    rows = [] \/ cols = [] -> greedy distances rows cols [] rows cols
| greedy_far rows cols i j row col d :
    nth_error rows i = Some row -> nth_error cols j = Some col ->
    matrix_get distances row col = Ok d ->
    smallest distances rows cols d ->
    (d <? 100)%float = false ->
    greedy distances rows cols [] rows cols
| greedy_commit rows cols i j row col d ms rows' cols' :
    nth_error rows i = Some row -> nth_error cols j = Some col ->
    matrix_get distances row col = Ok d ->
    smallest distances rows cols d ->
    (d <? 100)%float = true ->
    greedy distances (pop i rows) (pop j cols) ms rows' cols' ->
    greedy distances rows cols ((row, col) :: ms) rows' cols'.

(** ** What the phases of a call do to the tracker *)

(** What holds of the index lists and of the tracker at every iteration of
    the matching loop. *)
Record loop_pre (distances : list (list float)) (object_ids : list Z)
    (detections : list Obs) (t : PathTracker) (rows cols : list nat) : Prop := {
  lp_shape : shape distances (length object_ids) (length detections);
  lp_ids : keys (paths t) = object_ids;
  lp_same : keys (disappeared t) = object_ids;
  lp_nodup : NoDup object_ids;
  lp_rows : Forall (fun r => (r < length object_ids)%nat) rows;
  lp_cols : Forall (fun c => (c < length detections)%nat) cols;
  lp_rows_nd : NoDup rows
}.

(** What the committed pairs [ms] did to the tracker. *)
Record matched_state (object_ids : list Z) (detections : list Obs)
    (ms : list (nat * nat)) (t t' : PathTracker) : Prop := {
  ms_keys_p : keys (paths t') = keys (paths t);
  ms_keys_d : keys (disappeared t') = keys (disappeared t);
  ms_next : next_id t' = next_id t;
  ms_max : max_disappeared t' = max_disappeared t;
  ms_hit : forall row col k,
      In (row, col) ms -> nth_error object_ids row = Some k ->
      exists h det,
        dict_find k (paths t) = Some h /\ nth_error detections col = Some det /\
        dict_find k (paths t') = Some (h ++ [det]) /\
        dict_find k (disappeared t') = Some 0%Z;
  ms_miss : forall k,
      (forall row, nth_error object_ids row = Some k -> ~ In row (map fst ms)) ->
      dict_find k (paths t') = dict_find k (paths t) /\
      dict_find k (disappeared t') = dict_find k (disappeared t)
}.

Arguments ms_keys_p {object_ids detections ms t t'} _.
Arguments ms_keys_d {object_ids detections ms t t'} _.
Arguments ms_next {object_ids detections ms t t'} _.
Arguments ms_max {object_ids detections ms t t'} _.
Arguments ms_hit {object_ids detections ms t t'} _ row col k _ _.
Arguments ms_miss {object_ids detections ms t t'} _ k _.

(** What ageing the tracks [ids] did to the tracker. *)
Record aged_state (ids : list Z) (t t' : PathTracker) : Prop := {
  ag_next : next_id t' = next_id t;
  ag_max : max_disappeared t' = max_disappeared t;
  ag_keys : exists f,
      keys (paths t') = filter f (keys (paths t)) /\
      keys (disappeared t') = filter f (keys (disappeared t));
  ag_out : forall k, ~ In k ids ->
      dict_find k (paths t') = dict_find k (paths t) /\
      dict_find k (disappeared t') = dict_find k (disappeared t);
  ag_in : forall k c, In k ids -> dict_find k (disappeared t) = Some c ->
      if (max_disappeared t <? c + 1)%Z
      then dict_find k (paths t') = None /\ dict_find k (disappeared t') = None
      else dict_find k (paths t') = dict_find k (paths t) /\
           dict_find k (disappeared t') = Some (c + 1)%Z
}.

Arguments ag_next {ids t t'} _.
Arguments ag_max {ids t t'} _.
Arguments ag_keys {ids t t'} _.
Arguments ag_out {ids t t'} _ k _.
Arguments ag_in {ids t t'} _ k c _ _.

(** The entries that seeding the detections one after the other adds to
    [paths] and to [disappeared], from the identifier [n] on. *)
Fixpoint new_tracks (n : Z) (detections : list Obs) : dict (list Obs) :=
  match detections with
  | [] => []
  | d :: ds => (n, [d]) :: new_tracks (n + 1) ds
  end.

Fixpoint new_counters (n : Z) (detections : list Obs) : dict Z :=
  match detections with
  | [] => []
  | _ :: ds => (n, 0%Z) :: new_counters (n + 1) ds
  end.

(** What one call of [update] does when live tracks and detections are both
    present: [ms] are the committed (row, column) pairs, [rows'] the rows and
    [cols'] the columns left unmatched. *)
Record general_step (t : PathTracker) (detections : list Obs)
    (distances : list (list float)) (ms : list (nat * nat))
    (rows' cols' : list nat) (t' : PathTracker) : Prop := {
  gs_dist : forall row col k h det,
      nth_error (keys (paths t)) row = Some k -> dict_find k (paths t) = Some h ->
      nth_error detections col = Some det ->
      exists p d, py_last h = Ok p /\ np_dist p det = Ok d /\
                  matrix_get distances row col = Ok d;
  gs_greedy :
      greedy distances (seq 0 (length (paths t))) (seq 0 (length detections))
             ms rows' cols';
  gs_wf : wf t';
  gs_next : next_id t' = (next_id t + Z.of_nat (length cols'))%Z;
  gs_max : max_disappeared t' = max_disappeared t;
  gs_hit : forall row col k,
      In (row, col) ms -> nth_error (keys (paths t)) row = Some k ->
      exists h det,
        dict_find k (paths t) = Some h /\ nth_error detections col = Some det /\
        dict_find k (paths t') = Some (h ++ [det]) /\
        dict_find k (disappeared t') = Some 0%Z;
  gs_miss : forall row k c,
      In row rows' -> nth_error (keys (paths t)) row = Some k ->
      dict_find k (disappeared t) = Some c ->
      if (max_disappeared t <? c + 1)%Z
      then dict_find k (paths t') = None /\ dict_find k (disappeared t') = None
      else dict_find k (paths t') = dict_find k (paths t) /\
           dict_find k (disappeared t') = Some (c + 1)%Z;
  gs_new : forall j col det,
      nth_error cols' j = Some col -> nth_error detections col = Some det ->
      dict_find (next_id t + Z.of_nat j)%Z (paths t') = Some [det] /\
      dict_find (next_id t + Z.of_nat j)%Z (disappeared t') = Some 0%Z;
  gs_only : forall k,
      In k (keys (paths t')) ->
      In k (keys (paths t)) \/ (next_id t <= k < next_id t')%Z
}.

Arguments gs_dist {t detections distances ms rows' cols' t'} _ row col k h det _ _ _.
Arguments gs_greedy {t detections distances ms rows' cols' t'} _.
Arguments gs_wf {t detections distances ms rows' cols' t'} _.
Arguments gs_next {t detections distances ms rows' cols' t'} _.
Arguments gs_max {t detections distances ms rows' cols' t'} _.
Arguments gs_hit {t detections distances ms rows' cols' t'} _ row col k _ _.
Arguments gs_miss {t detections distances ms rows' cols' t'} _ row k c _ _ _.
Arguments gs_new {t detections distances ms rows' cols' t'} _ j col det _ _.
Arguments gs_only {t detections distances ms rows' cols' t'} _ k _.

(** The three things that can happen to a live track in one call. *)
Inductive track_step (t t' : PathTracker) (detections : list Obs)
    (k : Z) (h : list Obs) (c : Z) : Prop :=
| track_matched det :
    In det detections ->
    dict_find k (paths t') = Some (h ++ [det]) ->
    dict_find k (disappeared t') = Some 0%Z ->
    track_step t t' detections k h c
| track_missed :
    (c + 1 <= max_disappeared t)%Z ->
    dict_find k (paths t') = Some h ->
    dict_find k (disappeared t') = Some (c + 1)%Z ->
    track_step t t' detections k h c
| track_removed :
    (max_disappeared t < c + 1)%Z ->
    dict_find k (paths t') = None ->
    dict_find k (disappeared t') = None ->
    track_step t t' detections k h c.

(** What one call does, whatever its branch. *)
Record step_summary (t : PathTracker) (detections : list Obs) (t' : PathTracker)
  : Prop := {
  ss_wf : wf t';
  ss_next : (next_id t <= next_id t')%Z;
  ss_max : max_disappeared t' = max_disappeared t;
  ss_only : forall k, In k (keys (paths t')) ->
      In k (keys (paths t)) \/ (next_id t <= k < next_id t')%Z;
  ss_new : forall k, (next_id t <= k < next_id t')%Z ->
      exists det, In det detections /\
                  dict_find k (paths t') = Some [det] /\
                  dict_find k (disappeared t') = Some 0%Z;
  ss_old : forall k h c,
      dict_find k (paths t) = Some h -> dict_find k (disappeared t) = Some c ->
      track_step t t' detections k h c
}.

Arguments ss_wf {t detections t'} _.
Arguments ss_next {t detections t'} _.
Arguments ss_max {t detections t'} _.
Arguments ss_only {t detections t'} _ k _.
Arguments ss_new {t detections t'} _ k _.
Arguments ss_old {t detections t'} _ k h c _ _.

(** ** Concrete trackers *)

(** A duck seen once at the origin. *)
Definition one_duck : PathTracker :=
  {| paths := [(0%Z, [[0; 0; 0.5; 0]%float])];
     disappeared := [(0%Z, 0%Z)];
     next_id := 1;
     max_disappeared := 10 |}.

(** [one_duck] after a frame with two detections 5 pixels away from it,
    on either side. *)
Definition one_duck_tied : PathTracker :=
  {| paths := [(0%Z, [[0; 0; 0.5; 0]; [5; 0; 0.5; 0]]%float);
               (1%Z, [[-5; 0; 0.5; 0]%float])];
     disappeared := [(0%Z, 0%Z); (1%Z, 0%Z)];
     next_id := 2;
     max_disappeared := 10 |}.

(** A duck seen once at the origin and then missed for ten frames. *)
Definition aged_duck : PathTracker :=
  {| paths := [(0%Z, [[0; 0; 0.5; 0]%float])];
     disappeared := [(0%Z, 10%Z)];
     next_id := 1;
     max_disappeared := 10 |}.

(** [one_duck] after a detection exactly 100 pixels away: a second track. *)
Definition one_duck_far : PathTracker :=
  {| paths := [(0%Z, [[0; 0; 0.5; 0]%float]); (1%Z, [[100; 0; 0.5; 0]%float])];
     disappeared := [(0%Z, 1%Z); (1%Z, 0%Z)];
     next_id := 2;
     max_disappeared := 10 |}.

(** Two ducks, at the origin and 200 pixels to its right. *)
Definition two_ducks : PathTracker :=
  {| paths := [(0%Z, [[0; 0; 0.5; 0]%float]); (1%Z, [[200; 0; 0.5; 0]%float])];
     disappeared := [(0%Z, 0%Z); (1%Z, 0%Z)];
     next_id := 2;
     max_disappeared := 10 |}.

(** [two_ducks] after the detections (3, 4) and (500, 500): the first is 5
    away from duck 0 and joins it, the second is far from both ducks and
    seeds track 2, and duck 1 has missed a frame. *)
Definition two_ducks_next : PathTracker :=
  {| paths := [(0%Z, [[0; 0; 0.5; 0]; [3; 4; 0.5; 0]]%float);
               (1%Z, [[200; 0; 0.5; 0]%float]);
               (2%Z, [[500; 500; 0.5; 0]%float])];
     disappeared := [(0%Z, 0%Z); (1%Z, 1%Z); (2%Z, 0%Z)];
     next_id := 3;
     max_disappeared := 10 |}.

(** ** The frame loop of the script

    The detector and the grid calibration are outside this file: a frame
    brings the boxes read from the detector (lines 178-180) and the scale
    the calibration would compute.  Of the drawing calls of the loop, the
    conversions [int(...)] of their coordinates are kept, since they raise
    on a NaN or an infinity; what [cv2] does with the integers is left
    out. *)

(** A detected box: [box.xyxy[0].tolist()], [box.conf[0].item()] and
    [int(box.cls[0].item())]. *)
Record Box : Type := mkBox {
  bx1 : float; by1 : float; bx2 : float; by2 : float;
  bconf : float;
  bcls : Z
}.

Definition AREA_THRESHOLD : float := 500.

(** The integer part of a finite float, toward zero. *)
Definition trunc (x : float) : Z :=
  match Prim2SF x with
  | S754_finite s m e =>
      let n := Z.shiftl (Z.pos m) e in if s then (- n)%Z else n
  | _ => 0%Z
  end.

(** [int(x)] for a Python float: a NaN raises [ValueError], an infinity
    [OverflowError]. *)
Definition py_int (x : float) : result Z :=
  if is_nan x then Raise ValueError
  else if is_infinity x then Raise OverflowError
  else Ok (trunc x).

(** Lines 177-190: what the body of the loop over the boxes does to the
    list of detections.  Only class 0 is appended, so the class field of
    the tuple is the number 0. *)
Definition append_box (detections : list Obs) (box : Box) : list Obs :=
  if (bcls box =? 0)%Z then
    let cx := ((bx1 box + bx2 box) / 2)%float in
    let cy := ((by1 box + by2 box) / 2)%float in
    let w := (bx2 box - bx1 box)%float in
    let h := (by2 box - by1 box)%float in
    let area := (w * h)%float in
    if (AREA_THRESHOLD <? area)%float
    then detections ++ [[cx; cy; bconf box; 0%float]]
    else detections
  else detections.

(** Lines 174-190: the detections of a frame, from the detector's results. *)
Definition collect_detections (results : list (list Box)) : list Obs :=
  fold_left (fun detections boxes => fold_left append_box boxes detections)
            results [].

(** Lines 177-196: the body of the loop over the boxes, with the
    conversions of lines 194-195: the corners of the rectangle, then the
    anchor of the label. *)
Definition process_box (detections : list Obs) (box : Box) : result (list Obs) :=
  if (bcls box =? 0)%Z then
    let cx := ((bx1 box + bx2 box) / 2)%float in
    let cy := ((by1 box + by2 box) / 2)%float in
    let w := (bx2 box - bx1 box)%float in
    let h := (by2 box - by1 box)%float in
    let area := (w * h)%float in
    if (AREA_THRESHOLD <? area)%float then
      let detections := detections ++ [[cx; cy; bconf box; 0%float]] in
      _ <- py_int (bx1 box) ;; _ <- py_int (by1 box) ;;
      _ <- py_int (bx2 box) ;; _ <- py_int (by2 box) ;;
      _ <- py_int (bx1 box) ;; _ <- py_int (by1 box - 10)%float ;;
      Ok detections
    else Ok detections
  else Ok detections.

(** Lines 174-196: the loop over the results and their boxes. *)
Definition detect (results : list (list Box)) : result (list Obs) :=
  foldM (fun detections boxes => foldM process_box boxes detections) results [].

(** A sample of a trajectory: [(x_cm, y_cm, frame_num)]. *)
Definition Sample : Type := (float * float * Z)%type.

Definition sample_frame (s : Sample) : Z := snd s.

(** [cx, cy = o[:2]]: unpacking needs exactly two values. *)
Definition unpack2 (o : Obs) : result (float * float) :=
  match firstn 2 o with
  | [a; b] => Ok (a, b)
  | _ => Raise ValueError
  end.

(** [l[-2]] *)
Definition py_second_last {A : Type} (l : list A) : result A :=
  match rev l with
  | _ :: a :: _ => Ok a
  | _ => Raise IndexError
  end.

(** Lines 203-228: the body of the loop over [paths.items()], with the
    conversions of lines 223 and 227: the ends of the segment, then the
    anchor of the label.  The speed of line 220 only feeds the label; it
    is [calculate_speed] on two points, which raises nothing. *)
Definition record_track (pixel_per_cm : float) (frame_count : Z)
    (trajectories_cm : dict (list Sample)) (item : Z * list Obs)
  : result (dict (list Sample)) :=
  let '(obj_id, points) := item in
  if (2 <=? length points)%nat then
    o1 <- py_second_last points ;;
    c1 <- unpack2 o1 ;;
    o2 <- py_last points ;;
    c2 <- unpack2 o2 ;;
    let x2_cm := (fst c2 / pixel_per_cm)%float in
    let y2_cm := (snd c2 / pixel_per_cm)%float in
    let trajectories_cm :=
      match dict_find obj_id trajectories_cm with
      | Some _ => trajectories_cm
      | None => dict_set obj_id [] trajectories_cm
      end in
    samples <- dict_get obj_id trajectories_cm ;;
    let trajectories_cm :=
      dict_set obj_id (samples ++ [(x2_cm, y2_cm, frame_count)]) trajectories_cm in
    _ <- py_int (fst c1) ;; _ <- py_int (snd c1) ;;
    _ <- py_int (fst c2) ;; _ <- py_int (snd c2) ;;
    _ <- py_int (fst c2) ;; _ <- py_int (snd c2 - 20)%float ;;
    Ok trajectories_cm
  else Ok trajectories_cm.

(** The state the frame loop carries from frame to frame. *)
Record Session : Type := mkSession {
  tracker : PathTracker;
  trajectories_cm : dict (list Sample);
  frame_count : Z;
  pixel_per_cm : option float
}.

(** Lines 131-142: the state before the first frame. *)
Definition start : Session :=
  {| tracker := init; trajectories_cm := []; frame_count := 0; pixel_per_cm := None |}.

(** What a frame brings, once lines 149-171 have returned: the scale lines
    154-163 would compute from it ([None] when they compute none), and the
    detector's results.  The grid lines and their drawing belong to that
    step. *)
Record Frame : Type := mkFrame {
  calibration : option float;
  results : list (list Box)
}.

(** [if pixel_per_cm:] on [None] or a binary64 number. *)
Definition truthy (pixel_per_cm : option float) : bool :=
  match pixel_per_cm with
  | Some x => negb (x =? 0)%float
  | None => false
  end.

(** Lines 143-228: one turn of the frame loop. *)
Definition frame_step (s : Session) (frame : Frame) : result Session :=
  let frame_count := (frame_count s + 1)%Z in
  let pixel_per_cm :=
    match pixel_per_cm s with
    | None => calibration frame
    | Some x => Some x
    end in
  detections <- detect (results frame) ;;
  r <- update (tracker s) detections ;;
  trajectories_cm <-
    (if truthy pixel_per_cm then
       match pixel_per_cm with
       | Some scale => foldM (record_track scale frame_count) (fst r) (trajectories_cm s)
       | None => Ok (trajectories_cm s)
       end
     else Ok (trajectories_cm s)) ;;
  Ok {| tracker := snd r; trajectories_cm := trajectories_cm;
        frame_count := frame_count; pixel_per_cm := pixel_per_cm |}.

(** The frame loop over the frames it processes, until the video ends or
    the key [q] stops it. *)
Definition run_session (frames : list Frame) : result Session :=
  foldM frame_step frames start.

(** A Python integer as a binary64 number, rounded to nearest even. *)
Definition Z2F (z : Z) : float := SF2Prim (binary_normalize prec emax z 0%Z false).

(** The integers Python converts to a float; the others, whose rounding
    leaves the binary64 range, raise [OverflowError]. *)
Definition convertible (n : Z) : bool := is_finite (Z2F n).

(** [n / x] for an integer [n] and a Python float [x]; [None] stands for
    the [OverflowError] of an [n] too large for a float and for the
    [ZeroDivisionError] of a zero [x]. *)
Definition py_int_div_float (n : Z) (x : float) : option float :=
  if convertible n then
    if (x =? 0)%float then None else Some (Z2F n / x)%float
  else None.

(** Lines 273-283: the body of the loop over [range(1, len(traj))];
    [None] stands for an exception. *)
Definition speed_step (fps : float) (traj : list Sample)
    (acc : option (list float * list float)) (i : nat)
  : option (list float * list float) :=
  match acc with
  | None => None
  | Some (speeds, times) =>
      match nth_error traj i, nth_error traj (i - 1) with
      | Some (xi, yi, fi), Some (xp, yp, fp) =>
          let dx := (xi - xp)%float in
          let dy := (yi - yp)%float in
          let df := (fi - fp)%Z in
          if (0 <? df)%Z then
            let dist := np_hypot dx dy in
            match py_int_div_float df fps with
            | Some time =>
                match py_int_div_float fi fps with
                | Some seconds => Some (speeds ++ [(dist / time)%float], times ++ [seconds])
                | None => None
                end
            | None => None
            end
          else Some (speeds, times)
      | _, _ => None
      end
  end.

(** Lines 265-283: the speeds and times plotted for one trajectory; both
    are empty for a trajectory of fewer than three samples, which the loop
    skips. *)
Definition speed_series (fps : float) (traj : list Sample)
  : option (list float * list float) :=
  if (length traj <? 3)%nat then Some ([], [])
  else fold_left (speed_step fps traj) (seq 1 (length traj - 1)) (Some ([], [])).

(** The frame numbers of a trajectory grow strictly. *)
Definition increasing_frames (traj : list Sample) : Prop :=
  forall i j a b, (i < j)%nat ->
    nth_error traj i = Some a -> nth_error traj j = Some b ->
    (sample_frame a < sample_frame b)%Z.

(** The observation line 184 builds from a box. *)
Definition detection_of (box : Box) : Obs :=
  [((bx1 box + bx2 box) / 2)%float; ((by1 box + by2 box) / 2)%float;
   bconf box; 0%float].

(** The two tests of lines 183 and 189. *)
Definition accepted (box : Box) : bool :=
  (bcls box =? 0)%Z &&
  (AREA_THRESHOLD <? (bx2 box - bx1 box) * (by2 box - by1 box))%float.

(** The sample line 217 appends for a track with the history [h]. *)
Definition last_sample (scale : float) (frame_count : Z) (h : list Obs) : Sample :=
  match rev h with
  | o :: _ => ((nth 0 o 0 / scale)%float, (nth 1 o 0 / scale)%float, frame_count)
  | [] => (0%float, 0%float, frame_count)
  end.

(** The speed and the time lines 279-283 compute for the sample [i] of a
    trajectory and the one before it. *)
Definition speed_at (fps : float) (traj : list Sample) (i : nat) : float :=
  match nth_error traj i, nth_error traj (i - 1) with
  | Some (xi, yi, fi), Some (xp, yp, fp) =>
      (np_hypot (xi - xp) (yi - yp) / (Z2F (fi - fp) / fps))%float
  | _, _ => 0%float
  end.

Definition time_at (fps : float) (traj : list Sample) (i : nat) : float :=
  match nth_error traj i with
  | Some (_, _, fi) => (Z2F fi / fps)%float
  | None => 0%float
  end.

(** A box of class 0, 100 pixels wide and high, and the same box moved by
    4 pixels. *)
Definition duck_box : Box :=
  {| bx1 := 0; by1 := 0; bx2 := 100; by2 := 100; bconf := 0.5; bcls := 0 |}.

Definition duck_box_moved : Box :=
  {| bx1 := 4; by1 := 4; bx2 := 104; by2 := 104; bconf := 0.5; bcls := 0 |}.

(** Three frames: the duck with a scale of 2 pixels per cm, the duck moved,
    and a frame without detection. *)
Definition frame_a : Frame := {| calibration := Some 2%float; results := [[duck_box]] |}.
Definition frame_b : Frame := {| calibration := None; results := [[duck_box_moved]] |}.
Definition frame_c : Frame := {| calibration := None; results := [] |}.

(** The state of the loop after [frame_a], after [frame_b], after [frame_c]. *)
Definition session_a : Session :=
  {| tracker := {| paths := [(0%Z, [[50; 50; 0.5; 0]%float])];
                   disappeared := [(0%Z, 0%Z)];
                   next_id := 1; max_disappeared := 10 |};
     trajectories_cm := [];
     frame_count := 1;
     pixel_per_cm := Some 2%float |}.

Definition session_b : Session :=
  {| tracker := {| paths := [(0%Z, [[50; 50; 0.5; 0]; [54; 54; 0.5; 0]]%float)];
                   disappeared := [(0%Z, 0%Z)];
                   next_id := 1; max_disappeared := 10 |};
     trajectories_cm := [(0%Z, [(27%float, 27%float, 2%Z)])];
     frame_count := 2;
     pixel_per_cm := Some 2%float |}.

Definition session_c : Session :=
  {| tracker := {| paths := [(0%Z, [[50; 50; 0.5; 0]; [54; 54; 0.5; 0]]%float)];
                   disappeared := [(0%Z, 1%Z)];
                   next_id := 1; max_disappeared := 10 |};
     trajectories_cm := [(0%Z, [(27%float, 27%float, 2%Z); (27%float, 27%float, 3%Z)])];
     frame_count := 3;
     pixel_per_cm := Some 2%float |}.

(** The state of the loop after a second frame without detection. *)
Definition session_d : Session :=
  {| tracker := {| paths := [(0%Z, [[50; 50; 0.5; 0]; [54; 54; 0.5; 0]]%float)];
                   disappeared := [(0%Z, 2%Z)];
                   next_id := 1; max_disappeared := 10 |};
     trajectories_cm := [(0%Z, [(27%float, 27%float, 2%Z); (27%float, 27%float, 3%Z);
                                (27%float, 27%float, 4%Z)])];
     frame_count := 4;
     pixel_per_cm := Some 2%float |}.

(** Either of the two exceptions a conversion raises. *)
Definition conversion_error (e : exn) : Prop := e = ValueError \/ e = OverflowError.

(** The corners of a box can be converted. *)
Definition corners_finite (box : Box) : bool :=
  is_finite (bx1 box) && is_finite (by1 box) &&
  is_finite (bx2 box) && is_finite (by2 box).

(** The position of an observation and the anchor of its label can be
    converted. *)
Definition anchored (o : Obs) : bool :=
  is_finite (nth 0 o 0%float) && is_finite (nth 1 o 0%float) &&
  is_finite (nth 1 o 0 - 20)%float.

(** Every number the loop converts for a box, and later for its
    detection, is finite. *)
Definition drawable (box : Box) : bool :=
  corners_finite box && is_finite (by1 box - 10)%float &&
  anchored (detection_of box).

(** Every box of the frame that passes the two tests is drawable. *)
Definition frame_drawable (frame : Frame) : Prop :=
  Forall (Forall (fun box => accepted box = true -> drawable box = true))
         (results frame).

(** A box that spreads to infinity on the left. *)
Definition stray_box : Box :=
  {| bx1 := neg_infinity; by1 := 0; bx2 := 0; by2 := 1; bconf := 0.5; bcls := 0 |}.

Definition stray_frame : Frame := {| calibration := None; results := [[stray_box]] |}.

(** ** Further predicates on trackers *)

(** The observations a list of choices holds, one choice per call: [None]
    where the call appended nothing. *)
Definition picked (picks : list (option Obs)) : list Obs :=
  flat_map (fun pick => match pick with Some o => [o] | None => [] end) picks.

(** A choice for a call on [detections] is one of its detections, or none. *)
Definition pick_of (pick : option Obs) (detections : list Obs) : Prop :=
  match pick with
  | Some o => In o detections
  | None => True
  end.


(** Every stored observation has its two position fields. *)
Definition tracks_positioned (t : PathTracker) : Prop :=
  forall k h o, dict_find k (paths t) = Some h -> In o h -> positioned o.

(** Every stored observation can be drawn. *)
Definition tracks_anchored (t : PathTracker) : Prop :=
  forall k h o, dict_find k (paths t) = Some h -> In o h -> anchored o = true.

(** What holds of the state of the frame loop between two frames. *)
Record session_ok (s : Session) : Prop := {
  so_wf : wf (tracker s);
  so_pos : tracks_positioned (tracker s);
  so_count : (0 <= frame_count s)%Z;
  so_traj : forall k traj,
      dict_find k (trajectories_cm s) = Some traj ->
      increasing_frames traj /\
      Forall (fun a => (1 <= sample_frame a <= frame_count s)%Z) traj
}.

Arguments so_wf {s} _.
Arguments so_pos {s} _.
Arguments so_count {s} _.
Arguments so_traj {s} _ k traj _.

(** The position of the first [x] in [l]. *)
Fixpoint index_of (x : nat) (l : list nat) : nat :=
  match l with
  | [] => O
  | y :: l' => if Nat.eqb y x then O else S (index_of x l')
  end.

(** The track a detection column ends in: the track of its committed pair,
    or the track it seeds. *)
Definition owner_of (object_ids : list Z) (first_new : Z)
    (ms : list (nat * nat)) (cols' : list nat) (col : nat) : Z :=
  match find (fun rc => Nat.eqb (snd rc) col) ms with
  | Some rc => nth (fst rc) object_ids 0%Z
  | None => (first_new + Z.of_nat (index_of col cols'))%Z
  end.

(** ** Order facts on binary64 *)

Module F64.

Open Scope float_scope.

Lemma is_nan_spec (x : float) : is_nan x = true <-> Prim2SF x = S754_nan.
Proof.
  unfold is_nan. rewrite eqb_spec. unfold SFeqb.
  destruct (Prim2SF x) as [s| s | |s m e]; simpl.
  - split; discriminate.
  - destruct s; split; discriminate.
  - split; reflexivity.
  - rewrite Z.compare_refl.
    assert (Hm : Pos.compare_cont Eq m m = Eq) by apply Pos.compare_refl.
    rewrite Hm. destruct s; split; discriminate.
Qed.

Lemma ltb_nan_r (x m : float) : is_nan m = true -> (x <? m) = false.
Proof.
  rewrite is_nan_spec, ltb_spec. intros ->. unfold SFltb.
  destruct (Prim2SF x); reflexivity.
Qed.

Lemma ltb_nan_l (x m : float) : is_nan x = true -> (x <? m) = false.
Proof.
  rewrite is_nan_spec, ltb_spec. intros ->. reflexivity.
Qed.

Lemma leb_nan_r (x m : float) : is_nan m = true -> (x <=? m) = false.
Proof.
  rewrite is_nan_spec, leb_spec. intros ->. unfold SFleb.
  destruct (Prim2SF x); reflexivity.
Qed.

Ltac order_cases :=
  repeat match goal with
         | s : bool |- _ => destruct s
         end;
  simpl; try congruence;
  repeat match goal with
         | |- context [Z.compare ?a ?b] => destruct (Z.compare_spec a b); subst; simpl
         | H : context [Z.compare ?a ?b] |- _ =>
             destruct (Z.compare_spec a b); subst; simpl in H
         end;
  repeat match goal with
         | |- context [Pos.compare_cont Eq ?a ?b] =>
             change (Pos.compare_cont Eq a b) with (Pos.compare a b);
             destruct (Pos.compare_spec a b); subst; simpl
         | H : context [Pos.compare_cont Eq ?a ?b] |- _ =>
             change (Pos.compare_cont Eq a b) with (Pos.compare a b) in H;
             destruct (Pos.compare_spec a b); subst; simpl in H
         end;
  try congruence; try lia.

Lemma SFltb_trans (a b c : spec_float) :
  SFltb a b = true -> SFltb b c = true -> SFltb a c = true.
Proof.
  unfold SFltb, SFcompare.
  destruct a as [sa|sa| |sa ma ea], b as [sb|sb| |sb mb eb],
           c as [sc|sc| |sc mc ec]; order_cases.
Qed.

Lemma SFleb_ltb_false (a b : spec_float) :
  SFleb a b = true -> SFltb b a = false.
Proof.
  unfold SFltb, SFleb, SFcompare.
  destruct a as [sa|sa| |sa ma ea], b as [sb|sb| |sb mb eb]; order_cases.
Qed.

Lemma SFleb_total (a b : spec_float) :
  a <> S754_nan -> b <> S754_nan -> SFleb a b = false -> SFltb b a = true.
Proof.
  unfold SFltb, SFleb, SFcompare.
  destruct a as [sa|sa| |sa ma ea], b as [sb|sb| |sb mb eb]; order_cases.
Qed.

Lemma SFltb_irrefl (a : spec_float) : SFltb a a = false.
Proof.
  unfold SFltb, SFcompare. destruct a as [sa|sa| |sa ma ea]; order_cases.
Qed.

Lemma ltb_irrefl (a : float) : (a <? a) = false.
Proof. rewrite ltb_spec. apply SFltb_irrefl. Qed.

Lemma ltb_trans (a b c : float) :
  (a <? b) = true -> (b <? c) = true -> (a <? c) = true.
Proof. rewrite !ltb_spec. apply SFltb_trans. Qed.

Lemma leb_ltb_false (a b : float) : (a <=? b) = true -> (b <? a) = false.
Proof. rewrite leb_spec, ltb_spec. apply SFleb_ltb_false. Qed.

Lemma not_leb_ltb (a b : float) :
  is_nan a = false -> is_nan b = false -> (a <=? b) = false -> (b <? a) = true.
Proof.
  intros Ha Hb. rewrite leb_spec, ltb_spec. apply SFleb_total.
  - intro E. apply is_nan_spec in E. congruence.
  - intro E. apply is_nan_spec in E. congruence.
Qed.

Lemma ltb_not_nan_l (a b : float) : (a <? b) = true -> is_nan a = false.
Proof.
  intro H. destruct (is_nan a) eqn:E; [|reflexivity].
  rewrite (ltb_nan_l a b E) in H. discriminate.
Qed.

End F64.

(** ** Facts on the error monad and on lists *)

Lemma bind_Ok {A B : Type} (r : result A) (k : A -> result B) (b : B) :
  bind r k = Ok b -> exists a, r = Ok a /\ k a = Ok b.
Proof. destruct r as [a|e]; simpl; [eauto | discriminate]. Qed.

Ltac inv_bind H :=
  let x := fresh "x" in
  let E := fresh "E" in
  apply bind_Ok in H; destruct H as [x [E H]].

Lemma py_index_Ok {A : Type} (l : list A) (i : nat) (a : A) :
  py_index l i = Ok a <-> nth_error l i = Some a.
Proof.
  unfold py_index. destruct (nth_error l i); split; congruence.
Qed.

Lemma py_index_lt {A : Type} (l : list A) (i : nat) :
  (i < length l)%nat -> exists a, py_index l i = Ok a /\ nth_error l i = Some a.
Proof.
  intro H. unfold py_index. destruct (nth_error l i) eqn:E; [eauto|].
  apply nth_error_None in E. lia.
Qed.

Lemma mapM_Ok_length {A B : Type} (f : A -> result B) (l : list A) (bs : list B) :
  mapM f l = Ok bs -> length bs = length l.
Proof.
  revert bs. induction l as [|a l IH]; simpl; intros bs H.
  - injection H as <-. reflexivity.
  - inv_bind H. inv_bind H. injection H as <-. simpl. f_equal. auto.
Qed.

Lemma mapM_Ok_nth {A B : Type} (f : A -> result B) (l : list A) (bs : list B) :
  mapM f l = Ok bs ->
  forall i a, nth_error l i = Some a ->
  exists b, nth_error bs i = Some b /\ f a = Ok b.
Proof.
  revert bs. induction l as [|a0 l IH]; simpl; intros bs H i a Hi.
  - destruct i; discriminate.
  - inv_bind H. inv_bind H. injection H as <-.
    destruct i as [|i]; simpl in *.
    + injection Hi as <-. eauto.
    + eapply IH; eauto.
Qed.

Arguments mapM_Ok_length {A B f l bs} _.
Arguments mapM_Ok_nth {A B f l bs} _ i {a} _.

Lemma mapM_total {A B : Type} (f : A -> result B) (l : list A) :
  (forall a, In a l -> exists b, f a = Ok b) -> exists bs, mapM f l = Ok bs.
Proof.
  induction l as [|a l IH]; simpl; intro H; [eauto|].
  destruct (H a) as [b Hb]; [auto|]. rewrite Hb. simpl.
  destruct IH as [bs Hbs]; [intros; apply H; auto|]. rewrite Hbs. simpl. eauto.
Qed.

Lemma pop_length {A : Type} (i : nat) (l : list A) :
  (i < length l)%nat -> length l = S (length (pop i l)).
Proof.
  revert i. induction l as [|a l IH]; simpl; intros i H; [lia|].
  destruct i; simpl; [reflexivity|]. rewrite <- IH by lia. reflexivity.
Qed.

Lemma pop_In {A : Type} (i : nat) (l : list A) (x : A) :
  In x (pop i l) -> In x l.
Proof.
  revert i. induction l as [|a l IH]; simpl; intros i H; [destruct i; auto|].
  destruct i; simpl in H; [auto|]. destruct H; eauto.
Qed.

Lemma pop_split {A : Type} (i : nat) (l : list A) (x : A) :
  nth_error l i = Some x -> forall y, In y l <-> y = x \/ In y (pop i l).
Proof.
  revert i. induction l as [|a l IH]; intros i H y.
  - destruct i; discriminate.
  - destruct i; simpl in *.
    + injection H as ->. intuition congruence.
    + rewrite (IH _ H y). intuition.
Qed.

Lemma pop_NoDup {A : Type} (i : nat) (l : list A) (x : A) :
  NoDup l -> nth_error l i = Some x -> NoDup (pop i l) /\ ~ In x (pop i l).
Proof.
  revert i. induction l as [|a l IH]; intros i Hnd H.
  - destruct i; discriminate.
  - inversion Hnd as [|? ? Ha Hl]; subst. destruct i; simpl in *.
    + injection H as ->. auto.
    + destruct (IH _ Hl H) as [IH1 IH2]. split.
      * constructor; [|assumption]. intro Hin. apply Ha. eapply pop_In; eauto.
      * intros [->|Hin]; [|auto]. apply Ha. eapply nth_error_In; eauto.
Qed.

(** ** Facts on dictionaries *)

Section DictFacts.

Context {V : Type}.
Implicit Types (d : dict V) (k : Z) (v : V).

Lemma dict_find_keys k d : dict_find k d <> None <-> In k (keys d).
Proof.
  induction d as [|[k' v'] d IH]; simpl.
  - intuition.
  - destruct (Z.eqb_spec k' k); [intuition congruence|].
    rewrite IH. intuition.
Qed.

Lemma dict_find_None k d : dict_find k d = None <-> ~ In k (keys d).
Proof.
  rewrite <- dict_find_keys. destruct (dict_find k d); intuition congruence.
Qed.

Lemma dict_find_Some_keys k v d : dict_find k d = Some v -> In k (keys d).
Proof. intro H. apply dict_find_keys. congruence. Qed.

Lemma dict_find_set_same k v d : dict_find k (dict_set k v d) = Some v.
Proof.
  induction d as [|[k' v'] d IH]; simpl.
  - rewrite Z.eqb_refl. reflexivity.
  - destruct (Z.eqb_spec k' k) as [->|Hne]; simpl.
    + rewrite Z.eqb_refl. reflexivity.
    + destruct (Z.eqb_spec k' k); [contradiction|]. assumption.
Qed.

Lemma dict_find_set_other k k' v d :
  k <> k' -> dict_find k' (dict_set k v d) = dict_find k' d.
Proof.
  intro Hne. induction d as [|[k0 v0] d IH]; simpl.
  - destruct (Z.eqb_spec k k'); [contradiction|reflexivity].
  - destruct (Z.eqb_spec k0 k) as [->|Hk]; simpl.
    + destruct (Z.eqb_spec k k'); [contradiction|reflexivity].
    + rewrite IH. reflexivity.
Qed.

Lemma dict_set_in k v d : In k (keys d) -> keys (dict_set k v d) = keys d.
Proof.
  induction d as [|[k0 v0] d IH]; simpl; intro H; [contradiction|].
  destruct (Z.eqb_spec k0 k) as [->|Hk]; simpl; [reflexivity|].
  f_equal. apply IH. destruct H; [contradiction|assumption].
Qed.

Lemma dict_set_notin k v d : ~ In k (keys d) -> dict_set k v d = d ++ [(k, v)].
Proof.
  induction d as [|[k0 v0] d IH]; simpl; intro H; [reflexivity|].
  destruct (Z.eqb_spec k0 k) as [->|Hk]; [tauto|].
  f_equal. apply IH. tauto.
Qed.

Lemma dict_find_app k d d' :
  dict_find k (d ++ d') =
  match dict_find k d with Some v => Some v | None => dict_find k d' end.
Proof.
  induction d as [|[k0 v0] d IH]; simpl; [reflexivity|].
  destruct (Z.eqb k0 k); auto.
Qed.

Lemma dict_find_drop_same k d : dict_find k (drop_key k d) = None.
Proof.
  induction d as [|[k0 v0] d IH]; simpl; [reflexivity|].
  destruct (Z.eqb_spec k0 k) as [->|Hk]; simpl; [assumption|].
  destruct (Z.eqb_spec k0 k); [contradiction|assumption].
Qed.

Lemma dict_find_drop_other k k' d :
  k <> k' -> dict_find k' (drop_key k d) = dict_find k' d.
Proof.
  intro Hne. induction d as [|[k0 v0] d IH]; simpl; [reflexivity|].
  destruct (Z.eqb_spec k0 k) as [->|Hk]; simpl.
  - destruct (Z.eqb_spec k k'); [contradiction|assumption].
  - rewrite IH. reflexivity.
Qed.

Lemma keys_drop k d :
  keys (drop_key k d) = filter (fun x => negb (Z.eqb x k)) (keys d).
Proof.
  induction d as [|[k0 v0] d IH]; simpl; [reflexivity|].
  destruct (Z.eqb k0 k); simpl; [assumption|]. f_equal. assumption.
Qed.

Lemma dict_del_Ok k d :
  In k (keys d) -> dict_del k d = Ok (drop_key k d).
Proof.
  intro H. apply dict_find_keys in H. unfold dict_del.
  destruct (dict_find k d); [reflexivity|congruence].
Qed.

Lemma dict_get_Ok k d v : dict_get k d = Ok v <-> dict_find k d = Some v.
Proof. unfold dict_get. destruct (dict_find k d); split; congruence. Qed.

Lemma dict_find_nth k d i :
  NoDup (keys d) -> nth_error (keys d) i = Some k ->
  exists v, dict_find k d = Some v /\ nth_error d i = Some (k, v).
Proof.
  revert i. induction d as [|[k0 v0] d IH]; intros i Hnd Hi.
  - destruct i; discriminate.
  - simpl in Hnd. inversion Hnd as [|? ? Hk0 Hd]; subst.
    destruct i; simpl in *.
    + injection Hi as ->. rewrite Z.eqb_refl. eauto.
    + destruct (Z.eqb_spec k0 k) as [->|Hne].
      * exfalso. apply Hk0. eapply nth_error_In; eauto.
      * eauto.
Qed.

End DictFacts.

(** ** [np.argmin] returns a smallest element *)

Section Argmin.

Open Scope float_scope.

Lemma argmin_scan_min (l : list float) :
  forall pre mp best,
    is_nan mp = false ->
    nth_error (pre ++ l) best = Some mp ->
    lower_bound mp pre ->
    exists m, nth_error (pre ++ l) (argmin_scan mp best (length pre) l) = Some m
              /\ lower_bound m (pre ++ l).
Proof.
  induction l as [|x l IH]; intros pre mp best Hnan Hbest Hlow; simpl.
  - exists mp. split; [assumption|]. rewrite app_nil_r. assumption.
  - assert (Hx : nth_error (pre ++ x :: l) (length pre) = Some x).
    { rewrite nth_error_app2 by lia. rewrite Nat.sub_diag. reflexivity. }
    assert (Hshift : pre ++ x :: l = (pre ++ [x]) ++ l).
    { rewrite <- app_assoc. reflexivity. }
    assert (Hlen : S (length pre) = length (pre ++ [x])).
    { rewrite length_app. simpl. lia. }
    destruct (mp <=? x) eqn:Hle; simpl.
    + rewrite Hshift, Hlen. apply IH; [assumption| rewrite <- Hshift; assumption |].
      intros y Hy. apply in_app_or in Hy. destruct Hy as [Hy|[<-|[]]]; [auto|].
      apply F64.leb_ltb_false. assumption.
    + destruct (is_nan x) eqn:Hxn.
      * exists x. split; [assumption|]. intros y _. apply F64.ltb_nan_r. assumption.
      * rewrite Hshift, Hlen. apply IH; [assumption| rewrite <- Hshift; assumption |].
        intros y Hy. apply in_app_or in Hy. destruct Hy as [Hy|[<-|[]]].
        -- destruct (y <? x) eqn:Hyx; [|reflexivity].
           assert (Hxm : (x <? mp) = true) by (apply F64.not_leb_ltb; assumption).
           rewrite <- (Hlow y Hy). symmetry. eapply F64.ltb_trans; eassumption.
        -- apply F64.ltb_irrefl.
Qed.

Lemma np_argmin_min (l : list float) (idx : nat) :
  np_argmin l = Ok idx ->
  exists m, nth_error l idx = Some m /\ lower_bound m l.
Proof.
  destruct l as [|x l]; simpl; [discriminate|]. intro H. injection H as <-.
  destruct (is_nan x) eqn:Hxn.
  - exists x. split; [reflexivity|]. intros y _. apply F64.ltb_nan_r. assumption.
  - apply (argmin_scan_min l [x] x O Hxn); [reflexivity|].
    intros y [<-|[]]. apply F64.ltb_irrefl.
Qed.

Lemma np_argmin_total (l : list float) :
  l <> [] -> exists idx, np_argmin l = Ok idx.
Proof. destruct l; [congruence|]. simpl. eauto. Qed.

End Argmin.

(** ** The distance matrix and its sub-matrices *)

Lemma concat_nth {A : Type} (n : nat) (ls : list (list A)) :
  Forall (fun line => length line = n) ls ->
  forall q r, (r < n)%nat ->
  nth_error (concat ls) (q * n + r) =
  match nth_error ls q with Some line => nth_error line r | None => None end.
Proof.
  induction 1 as [|line ls Hline Hls IH]; intros q r Hr; simpl.
  - rewrite !nth_error_nil. reflexivity.
  - destruct q as [|q]; simpl.
    + apply nth_error_app1. lia.
    + rewrite nth_error_app2 by lia.
      replace (n + q * n + r - length line)%nat with (q * n + r)%nat by lia.
      apply IH. assumption.
Qed.

Lemma concat_length {A : Type} (n : nat) (ls : list (list A)) :
  Forall (fun line => length line = n) ls ->
  length (concat ls) = (length ls * n)%nat.
Proof.
  induction 1 as [|line ls Hline Hls IH]; simpl; [reflexivity|].
  rewrite length_app, IH, Hline. reflexivity.
Qed.

Lemma matrix_get_lt (distances : list (list float)) (R C row col : nat) :
  shape distances R C -> (row < R)%nat -> (col < C)%nat ->
  exists d, matrix_get distances row col = Ok d.
Proof.
  intros [HR HC] Hrow Hcol. unfold matrix_get.
  destruct (py_index_lt distances row) as [line [E1 E2]]; [lia|].
  rewrite E1. simpl.
  assert (Hl : length line = C).
  { rewrite Forall_forall in HC. apply HC. eapply nth_error_In; eauto. }
  destruct (py_index_lt line col) as [d [E3 _]]; [lia|]. eauto.
Qed.

Lemma submatrix_total (distances : list (list float)) (R C : nat) (rows cols : list nat) :
  shape distances R C ->
  Forall (fun r => (r < R)%nat) rows -> Forall (fun c => (c < C)%nat) cols ->
  exists sub, submatrix distances rows cols = Ok sub.
Proof.
  intros [HR HC] Hrows Hcols. apply mapM_total. intros r Hr.
  rewrite Forall_forall in Hrows, Hcols, HC.
  destruct (py_index_lt distances r) as [line [E1 E2]]; [rewrite HR; auto|].
  rewrite E1. simpl. apply mapM_total. intros c Hc.
  destruct (py_index_lt line c) as [d [E3 _]]; [|eauto].
  rewrite (HC line); [auto|]. eapply nth_error_In; eauto.
Qed.

Lemma submatrix_entry (distances sub : list (list float)) (rows cols : list nat) :
  submatrix distances rows cols = Ok sub ->
  length sub = length rows /\
  Forall (fun line => length line = length cols) sub /\
  forall i j row col,
    nth_error rows i = Some row -> nth_error cols j = Some col ->
    exists line d, nth_error sub i = Some line /\ nth_error line j = Some d
                   /\ matrix_get distances row col = Ok d.
Proof.
  intro H. split; [eapply mapM_Ok_length; eauto|]. split.
  - apply Forall_forall. intros line Hin.
    apply In_nth_error in Hin. destruct Hin as [i Hi].
    assert (Hlt : (i < length rows)%nat).
    { rewrite <- (mapM_Ok_length H). apply nth_error_Some. congruence. }
    destruct (nth_error rows i) as [row|] eqn:Hrow;
      [|apply nth_error_None in Hrow; lia].
    destruct (mapM_Ok_nth H i Hrow) as [line' [E1 E2]].
    assert (line' = line) by congruence. subst line'.
    inv_bind E2. eapply mapM_Ok_length; eauto.
  - intros i j row col Hrow Hcol.
    destruct (mapM_Ok_nth H i Hrow) as [line [E1 E2]].
    inv_bind E2.
    destruct (mapM_Ok_nth E2 j Hcol) as [d [E3 E4]].
    exists line, d. repeat split; try assumption.
    unfold matrix_get. rewrite E. simpl. assumption.
Qed.

(** ** The matching loop *)

Lemma loop_select (distances : list (list float)) (R C : nat) (rows cols : list nat) :
  shape distances R C ->
  Forall (fun r => (r < R)%nat) rows -> Forall (fun c => (c < C)%nat) cols ->
  rows <> [] -> cols <> [] ->
  exists sub min_idx row col d,
    submatrix distances rows cols = Ok sub /\
    np_argmin (concat sub) = Ok min_idx /\
    nth_error rows (min_idx / length cols) = Some row /\
    nth_error cols (min_idx mod length cols) = Some col /\
    matrix_get distances row col = Ok d /\
    smallest distances rows cols d.
Proof.
  intros Hshape Hrows Hcols Hr Hc.
  destruct (submatrix_total distances R C rows cols Hshape Hrows Hcols) as [sub Hsub].
  destruct (submatrix_entry distances sub rows cols Hsub) as [Hlen [Hlines Hentry]].
  set (n := length cols) in *.
  assert (Hn : (0 < n)%nat) by (subst n; destruct cols; [congruence|simpl; lia]).
  assert (Hm : (0 < length rows)%nat) by (destruct rows; [congruence|simpl; lia]).
  assert (Hcl : length (concat sub) = (length rows * n)%nat).
  { rewrite (concat_length n sub Hlines). congruence. }
  destruct (np_argmin_total (concat sub)) as [idx Hidx].
  { intro E. rewrite E in Hcl. simpl in Hcl. nia. }
  destruct (np_argmin_min _ _ Hidx) as [m [Hnth Hlow]].
  assert (Hlt : (idx < length rows * n)%nat).
  { rewrite <- Hcl. apply nth_error_Some. congruence. }
  assert (Hdm : idx = (idx / n * n + idx mod n)%nat).
  { rewrite (Nat.div_mod_eq idx n) at 1. lia. }
  assert (Hrem : (idx mod n < n)%nat) by (apply Nat.mod_upper_bound; lia).
  assert (Hquo : (idx / n < length rows)%nat).
  { apply Nat.Div0.div_lt_upper_bound. lia. }
  destruct (nth_error rows (idx / n)) as [row|] eqn:Erow;
    [|apply nth_error_None in Erow; lia].
  destruct (nth_error cols (idx mod n)) as [col|] eqn:Ecol;
    [|apply nth_error_None in Ecol; subst n; lia].
  destruct (Hentry _ _ _ _ Erow Ecol) as [line [d [E1 [E2 E3]]]].
  rewrite Hdm, (concat_nth n sub Hlines _ _ Hrem), E1, E2 in Hnth.
  injection Hnth as <-.
  exists sub, idx, row, col, d. repeat split; try assumption.
  intros r c d' Hr' Hc' Hget.
  apply In_nth_error in Hr', Hc'. destruct Hr' as [i Hi], Hc' as [j Hj].
  destruct (Hentry _ _ _ _ Hi Hj) as [line' [d'' [F1 [F2 F3]]]].
  assert (d'' = d') by congruence. subst d''.
  apply Hlow. apply in_concat. exists line'.
  split; eapply nth_error_In; eauto.
Qed.

Lemma greedy_incl (distances : list (list float)) rows cols ms rows' cols' :
  greedy distances rows cols ms rows' cols' ->
  (forall r, In r (map fst ms) -> In r rows) /\
  (forall c, In c (map snd ms) -> In c cols) /\
  (forall r, In r rows' -> In r rows) /\
  (forall c, In c cols' -> In c cols).
Proof.
  induction 1 as [rows cols _|rows cols i j row col d _ _ _ _ _
                 |rows cols i j row col d ms rows' cols' Hi Hj _ _ _ _ IH];
    simpl; try tauto.
  destruct IH as [I1 [I2 [I3 I4]]]. repeat split.
  - intros r [<-|Hr]; [eapply nth_error_In; eauto|]. eapply pop_In; eauto.
  - intros c [<-|Hc]; [eapply nth_error_In; eauto|]. eapply pop_In; eauto.
  - intros r Hr. eapply pop_In; eauto.
  - intros c Hc. eapply pop_In; eauto.
Qed.

Lemma Forall_pop {A : Type} (P : A -> Prop) (i : nat) (l : list A) :
  Forall P l -> Forall P (pop i l).
Proof.
  rewrite !Forall_forall. intros H x Hx. apply H. eapply pop_In; eauto.
Qed.

Lemma nth_error_inj {A : Type} (l : list A) (i j : nat) (a : A) :
  NoDup l -> nth_error l i = Some a -> nth_error l j = Some a -> i = j.
Proof.
  intros Hnd Hi Hj. rewrite NoDup_nth_error in Hnd. apply Hnd; [|congruence].
  apply nth_error_Some. congruence.
Qed.

Lemma commit_Ok (t : PathTracker) (k : Z) (det : Obs) (h : list Obs) :
  dict_find k (paths t) = Some h ->
  commit t k det =
  Ok (set_disappeared (dict_set k 0%Z (disappeared t))
        (set_paths (dict_set k (h ++ [det]) (paths t)) t)).
Proof. intro H. unfold commit, dict_get. rewrite H. reflexivity. Qed.

Lemma matched_state_nil object_ids detections t :
  matched_state object_ids detections [] t t.
Proof.
  constructor; auto. intros row col k [].
Qed.

Lemma match_loop_spec distances object_ids detections :
  forall fuel t rows cols,
    loop_pre distances object_ids detections t rows cols ->
    (length rows <= fuel)%nat ->
    exists ms rows' cols' t',
      match_loop fuel distances object_ids detections t rows cols
        = Ok (t', rows', cols') /\
      greedy distances rows cols ms rows' cols' /\
      matched_state object_ids detections ms t t'.
Proof.
  induction fuel as [|fuel IH]; intros t rows cols Hpre Hfuel.
  - exists [], rows, cols, t. simpl. split; [reflexivity|]. split.
    + apply greedy_exhausted. left. destruct rows; [reflexivity|simpl in Hfuel; lia].
    + apply matched_state_nil.
  - simpl. destruct rows as [|r0 rows0] eqn:Erows.
    { exists [], [], cols, t. simpl. split; [reflexivity|]. split.
      - apply greedy_exhausted. auto.
      - apply matched_state_nil. }
    destruct cols as [|c0 cols0] eqn:Ecols.
    { exists [], (r0 :: rows0), [], t. simpl. split; [reflexivity|]. split.
      - apply greedy_exhausted. auto.
      - apply matched_state_nil. }
    rewrite <- Erows, <- Ecols in *.
    assert (Hgo : (0 <? length rows)%nat && (0 <? length cols)%nat = true).
    { subst rows cols. reflexivity. }
    rewrite Hgo. destruct Hpre as [Hshape Hids Hsame Hnd Hrows Hcols Hrnd].
    destruct (loop_select distances _ _ rows cols Hshape Hrows Hcols) as
      [sub [idx [row [col [d [Hsub [Hidx [Hrow [Hcol [Hget Hsm]]]]]]]]]].
    { subst rows. discriminate. } { subst cols. discriminate. }
    rewrite Hsub. simpl. rewrite Hidx. simpl.
    apply py_index_Ok in Hrow as Hrow', Hcol as Hcol'.
    rewrite Hrow'. simpl. rewrite Hcol'. simpl. rewrite Hget. simpl.
    destruct (d <? 100)%float eqn:Hd.
    + assert (Hrlt : (row < length object_ids)%nat).
      { rewrite Forall_forall in Hrows. apply Hrows. eapply nth_error_In; eauto. }
      assert (Hclt : (col < length detections)%nat).
      { rewrite Forall_forall in Hcols. apply Hcols. eapply nth_error_In; eauto. }
      destruct (py_index_lt object_ids row Hrlt) as [k [Ek Ek']].
      destruct (py_index_lt detections col Hclt) as [det [Edet Edet']].
      rewrite Ek. simpl. rewrite Edet. simpl.
      assert (Hkin : In k (keys (paths t))).
      { rewrite Hids. eapply nth_error_In; eauto. }
      destruct (dict_find k (paths t)) as [h|] eqn:Eh;
        [|apply dict_find_None in Eh; contradiction].
      rewrite (commit_Ok t k det h Eh). simpl.
      set (ta := set_disappeared _ _).
      destruct (pop_NoDup _ rows row Hrnd Hrow) as [Hpnd Hpnot].
      destruct (IH ta (pop (idx / length cols) rows) (pop (idx mod length cols) cols))
        as [ms [rows' [cols' [t' [Hloop [Hgr Hst]]]]]].
      { constructor; try assumption.
        - subst ta. simpl. rewrite dict_set_in; assumption.
        - subst ta. simpl. rewrite dict_set_in; [assumption|]. rewrite Hsame, <- Hids. assumption.
        - apply Forall_pop. assumption.
        - apply Forall_pop. assumption. }
      { assert (Hl := pop_length (idx / length cols) rows).
        assert ((idx / length cols < length rows)%nat).
        { apply nth_error_Some. congruence. }
        lia. }
      exists ((row, col) :: ms), rows', cols', t'.
      split; [assumption|]. split; [eapply greedy_commit; eauto|].
      destruct (greedy_incl _ _ _ _ _ _ Hgr) as [Hin _].
      destruct Hst as [K1 K2 K3 K4 Khit Kmiss].
      assert (Hfresh : forall row', nth_error object_ids row' = Some k ->
                                    ~ In row' (map fst ms)).
      { intros row' Hrow'' Hin'.
        assert (row' = row) by exact (nth_error_inj object_ids row' row k Hnd Hrow'' Ek'). subst row'.
        apply Hpnot. apply Hin. assumption. }
      constructor.
      * rewrite K1. subst ta. simpl. apply dict_set_in. assumption.
      * rewrite K2. subst ta. simpl. apply dict_set_in. rewrite Hsame, <- Hids. assumption.
      * rewrite K3. reflexivity.
      * rewrite K4. reflexivity.
      * intros row1 col1 k1 [Heq|Hin1] Hk1.
        -- injection Heq as <- <-. assert (k1 = k) by congruence. subst k1.
           exists h, det. destruct (Kmiss k Hfresh) as [M1 M2].
           rewrite M1, M2. subst ta. simpl. rewrite !dict_find_set_same. auto.
        -- destruct (Khit _ _ _ Hin1 Hk1) as [h1 [det1 [A1 [A2 [A3 A4]]]]].
           exists h1, det1. repeat split; try assumption.
           assert (Hne : k <> k1).
           { intros <-. apply (Hfresh row1 Hk1).
             apply in_map_iff. exists (row1, col1). auto. }
           subst ta. simpl in A1. rewrite dict_find_set_other in A1; assumption.
      * intros k1 Hk1.
        assert (Hne : k <> k1).
        { intros <-. apply (Hk1 row Ek'). simpl. auto. }
        destruct (Kmiss k1) as [M1 M2].
        { intros row1 Hrow1 Hin1. apply (Hk1 row1 Hrow1). simpl. auto. }
        rewrite M1, M2. subst ta. simpl.
        rewrite !dict_find_set_other by assumption. auto.
    + exists [], rows, cols, t. split; [reflexivity|]. split.
      * eapply greedy_far; eauto.
      * apply matched_state_nil.
Qed.

(** ** Ageing unmatched tracks *)

Lemma filter_filter {A : Type} (f g : A -> bool) (l : list A) :
  filter g (filter f l) = filter (fun x => f x && g x) l.
Proof.
  induction l as [|a l IH]; simpl; [reflexivity|].
  destruct (f a); simpl; [|assumption]. destruct (g a); [f_equal|]; assumption.
Qed.

Lemma filter_true {A : Type} (l : list A) : filter (fun _ => true) l = l.
Proof. induction l; simpl; [|f_equal]; auto. Qed.

Lemma age_spec (t : PathTracker) (k : Z) :
  In k (keys (paths t)) -> In k (keys (disappeared t)) ->
  exists t', age t k = Ok t' /\ aged_state [k] t t'.
Proof.
  intros Hp Hd. unfold age, dict_get.
  destruct (dict_find k (disappeared t)) as [c|] eqn:Ec;
    [|apply dict_find_None in Ec; contradiction].
  simpl. destruct (max_disappeared t <? c + 1)%Z eqn:Hexp.
  - rewrite (dict_del_Ok k (paths t) Hp). simpl.
    rewrite dict_del_Ok by (rewrite dict_set_in; assumption). simpl.
    eexists. split; [reflexivity|]. constructor; simpl; try reflexivity.
    + exists (fun x => negb (Z.eqb x k)).
      rewrite !keys_drop, dict_set_in by assumption. auto.
    + intros k' Hk'. assert (Hne : k <> k') by (simpl in Hk'; tauto).
      rewrite !dict_find_drop_other, dict_find_set_other by assumption. auto.
    + intros k' c' [<-|[]] Hc'. assert (c' = c) by congruence. subst c'.
      rewrite Hexp, !dict_find_drop_same. auto.
  - eexists. split; [reflexivity|]. constructor; simpl; try reflexivity.
    + exists (fun _ => true). rewrite !filter_true, dict_set_in by assumption. auto.
    + intros k' Hk'. assert (Hne : k <> k') by (simpl in Hk'; tauto).
      rewrite dict_find_set_other by assumption. auto.
    + intros k' c' [<-|[]] Hc'. assert (c' = c) by congruence. subst c'.
      rewrite Hexp, dict_find_set_same. auto.
Qed.

Lemma aged_state_nil (t : PathTracker) : aged_state [] t t.
Proof.
  constructor; auto.
  - exists (fun _ => true). rewrite !filter_true. auto.
  - intros k c [].
Qed.

Lemma aged_state_cons (k0 : Z) (rest : list Z) (t t1 t' : PathTracker) :
  ~ In k0 rest ->
  aged_state [k0] t t1 -> aged_state rest t1 t' -> aged_state (k0 :: rest) t t'.
Proof.
  intros Hnot [A1 A2 [f [A3 A3']] A4 A5] [B1 B2 [g [B3 B3']] B4 B5].
  constructor.
  - congruence.
  - congruence.
  - exists (fun x => f x && g x). rewrite B3, B3', A3, A3', !filter_filter. auto.
  - intros k Hk. simpl in Hk.
    destruct (B4 k) as [P1 P2]; [tauto|].
    destruct (A4 k) as [Q1 Q2]; [simpl; tauto|].
    rewrite P1, P2. auto.
  - intros k c [<-|Hin] Hc.
    + destruct (B4 k0 Hnot) as [P1 P2]. rewrite P1, P2.
      apply A5; simpl; auto.
    + assert (Hne : ~ In k [k0]) by (simpl; intros [->|[]]; contradiction).
      destruct (A4 k Hne) as [Q1 Q2].
      rewrite <- Q1, <- A2. apply B5; [assumption|]. rewrite Q2. assumption.
Qed.

Lemma filter_keeps_found {V : Type} (d d' : dict V) (f : Z -> bool) (k : Z) :
  keys d' = filter f (keys d) -> dict_find k d' <> None -> In k (keys d).
Proof.
  intros Hk Hf. apply dict_find_keys in Hf. rewrite Hk in Hf.
  apply filter_In in Hf. tauto.
Qed.

Lemma foldM_age (ids : list Z) :
  forall t,
    NoDup ids ->
    (forall k, In k ids -> In k (keys (paths t)) /\ In k (keys (disappeared t))) ->
    exists t', foldM age ids t = Ok t' /\ aged_state ids t t'.
Proof.
  induction ids as [|k0 rest IH]; intros t Hnd Hin; simpl.
  - exists t. split; [reflexivity|apply aged_state_nil].
  - inversion Hnd as [|? ? Hnot Hrest]; subst.
    destruct (Hin k0) as [Hp Hd]; [simpl; auto|].
    destruct (age_spec t k0 Hp Hd) as [t1 [E1 S1]]. rewrite E1. simpl.
    destruct (IH t1 Hrest) as [t' [E2 S2]].
    { intros k Hk. destruct (Hin k) as [Hkp Hkd]; [simpl; auto|].
      assert (Hne : ~ In k [k0]) by (simpl; intros [->|[]]; contradiction).
      destruct (ag_out S1 k Hne) as [Q1 Q2].
      split; apply dict_find_keys; [rewrite Q1|rewrite Q2];
        apply dict_find_keys; assumption. }
    exists t'. split; [assumption|]. eapply aged_state_cons; eauto.
Qed.

(** ** Seeding new tracks *)

Lemma keys_new_tracks (n : Z) (ds : list Obs) :
  keys (new_tracks n ds) = map (fun i => (n + Z.of_nat i)%Z) (seq 0 (length ds)).
Proof.
  revert n. induction ds as [|d ds IH]; intro n; simpl; [reflexivity|].
  f_equal; [lia|]. rewrite IH, <- seq_shift, map_map.
  apply map_ext. intro i. lia.
Qed.

Lemma keys_new_counters (n : Z) (ds : list Obs) :
  keys (new_counters n ds) = keys (new_tracks n ds).
Proof.
  revert n. induction ds as [|d ds IH]; intro n; simpl; [reflexivity|].
  f_equal. apply IH.
Qed.

Lemma nth_new_tracks (ds : list Obs) :
  forall n i d, nth_error ds i = Some d ->
    nth_error (new_tracks n ds) i = Some ((n + Z.of_nat i)%Z, [d]) /\
    nth_error (new_counters n ds) i = Some ((n + Z.of_nat i)%Z, 0%Z).
Proof.
  induction ds as [|d0 ds IH]; intros n i d Hi; [destruct i; discriminate|].
  destruct i as [|i]; simpl in *.
  - injection Hi as ->. rewrite Z.add_0_r. auto.
  - destruct (IH (n + 1)%Z i d Hi) as [E1 E2]. rewrite E1, E2.
    replace (n + 1 + Z.of_nat i)%Z with (n + Z.pos (Pos.of_succ_nat i))%Z by lia. auto.
Qed.

Lemma seed_fold (ds : list Obs) :
  forall t,
    Forall (fun k => (k < next_id t)%Z) (keys (paths t)) ->
    Forall (fun k => (k < next_id t)%Z) (keys (disappeared t)) ->
    fold_left seed ds t =
    {| paths := paths t ++ new_tracks (next_id t) ds;
       disappeared := disappeared t ++ new_counters (next_id t) ds;
       next_id := (next_id t + Z.of_nat (length ds))%Z;
       max_disappeared := max_disappeared t |}.
Proof.
  induction ds as [|d ds IH]; intros t Hp Hd.
  - simpl. rewrite !app_nil_r, Z.add_0_r. destruct t; reflexivity.
  - assert (Np : ~ In (next_id t) (keys (paths t))).
    { intro H. rewrite Forall_forall in Hp. specialize (Hp _ H). lia. }
    assert (Nd : ~ In (next_id t) (keys (disappeared t))).
    { intro H. rewrite Forall_forall in Hd. specialize (Hd _ H). lia. }
    cbn [fold_left]. rewrite IH.
    + unfold seed. cbn [paths disappeared next_id max_disappeared].
      rewrite !dict_set_notin by assumption.
      rewrite <- !app_assoc. cbn [app new_tracks new_counters length].
      f_equal. lia.
    + unfold seed. cbn [paths disappeared next_id max_disappeared].
      rewrite dict_set_notin by assumption. unfold keys. rewrite map_app.
      apply Forall_app. split.
      * eapply Forall_impl; [|exact Hp]. simpl. intros; lia.
      * repeat constructor. simpl. lia.
    + unfold seed. cbn [paths disappeared next_id max_disappeared].
      rewrite dict_set_notin by assumption. unfold keys. rewrite map_app.
      apply Forall_app. split.
      * eapply Forall_impl; [|exact Hd]. simpl. intros; lia.
      * repeat constructor. simpl. lia.
Qed.

Lemma foldM_seed (detections : list Obs) (cols : list nat) :
  Forall (fun c => (c < length detections)%nat) cols ->
  forall t,
  exists ds,
    foldM (fun t col => detection <- py_index detections col ;; Ok (seed t detection))
          cols t = Ok (fold_left seed ds t) /\
    length ds = length cols /\
    forall j col, nth_error cols j = Some col -> nth_error ds j = nth_error detections col.
Proof.
  induction 1 as [|c cols Hc Hcols IH]; intro t; simpl.
  - exists []. repeat split. intros j col Hj. destruct j; discriminate.
  - destruct (py_index_lt detections c Hc) as [d [E1 E2]]. rewrite E1. simpl.
    destruct (IH (seed t d)) as [ds [F1 [F2 F3]]].
    exists (d :: ds). split; [exact F1|]. split; [simpl; congruence|].
    intros j col Hj. destruct j as [|j]; simpl in *.
    + injection Hj as <-. congruence.
    + auto.
Qed.

(** ** The tracker invariant *)

Lemma wf_init : wf init.
Proof.
  constructor; simpl; try discriminate; try constructor; try lia.
Qed.

Lemma wf_fresh_absent (t : PathTracker) (k : Z) :
  wf t -> (next_id t <= k)%Z ->
  dict_find k (paths t) = None /\ dict_find k (disappeared t) = None.
Proof.
  intros W Hk. assert (H : ~ In k (keys (paths t))).
  { intro Hin. assert (F := wf_fresh W). rewrite Forall_forall in F.
    specialize (F k Hin). lia. }
  split; apply dict_find_None; [|rewrite <- (wf_keys W)]; assumption.
Qed.

Lemma wf_seed (t : PathTracker) (d : Obs) : wf t -> wf (seed t d).
Proof.
  intro W. destruct (wf_fresh_absent t (next_id t) W) as [Np Nd]; [lia|].
  apply dict_find_None in Np, Nd.
  constructor; unfold seed; cbn [paths disappeared next_id max_disappeared].
  - rewrite !dict_set_notin by assumption. unfold keys. rewrite !map_app.
    f_equal. apply (wf_keys W).
  - rewrite dict_set_notin by assumption. unfold keys. rewrite map_app. simpl.
    apply NoDup_app; repeat split.
    + apply (wf_nodup W).
    + repeat constructor. simpl. tauto.
    + intros k Hk [<-|[]]. contradiction.
  - rewrite dict_set_notin by assumption. unfold keys. rewrite map_app.
    apply Forall_app. split.
    + eapply Forall_impl; [|exact (wf_fresh W)]. simpl. intros; lia.
    + repeat constructor. simpl. lia.
  - intros k c. destruct (Z.eq_dec (next_id t) k) as [<-|Hne].
    + rewrite dict_find_set_same. intro H. injection H as <-.
      assert (M := wf_max W). lia.
    + rewrite dict_find_set_other by assumption. apply (wf_count W).
  - intros k h. destruct (Z.eq_dec (next_id t) k) as [<-|Hne].
    + rewrite dict_find_set_same. intro H. injection H as <-. discriminate.
    + rewrite dict_find_set_other by assumption. apply (wf_hist W).
  - apply (wf_max W).
Qed.

Lemma wf_seed_fold (ds : list Obs) : forall t, wf t -> wf (fold_left seed ds t).
Proof.
  induction ds as [|d ds IH]; intros t W; simpl; [assumption|].
  apply IH. apply wf_seed. assumption.
Qed.

Lemma matched_cases object_ids detections ms t t' :
  matched_state object_ids detections ms t t' ->
  forall k,
    (dict_find k (paths t') = dict_find k (paths t) /\
     dict_find k (disappeared t') = dict_find k (disappeared t)) \/
    (exists row col h det,
        In (row, col) ms /\ nth_error object_ids row = Some k /\
        dict_find k (paths t) = Some h /\ nth_error detections col = Some det /\
        dict_find k (paths t') = Some (h ++ [det]) /\
        dict_find k (disappeared t') = Some 0%Z).
Proof.
  intros S k.
  destruct (existsb (fun rc => match nth_error object_ids (fst rc) with
                               | Some k' => Z.eqb k' k
                               | None => false
                               end) ms) eqn:E.
  - right. apply existsb_exists in E. destruct E as [[row col] [Hin Hk]].
    simpl in Hk. destruct (nth_error object_ids row) as [k'|] eqn:Hrow; [|discriminate].
    apply Z.eqb_eq in Hk. subst k'.
    destruct (ms_hit S row col k Hin Hrow) as [h [det H]].
    exists row, col, h, det. tauto.
  - left. apply (ms_miss S). intros row Hrow Hin.
    apply in_map_iff in Hin. destruct Hin as [[row' col] [Hfst Hin]].
    simpl in Hfst. subst row'.
    assert (Ht : existsb (fun rc => match nth_error object_ids (fst rc) with
                                    | Some k' => Z.eqb k' k
                                    | None => false
                                    end) ms = true).
    { apply existsb_exists. exists (row, col). split; [assumption|].
      simpl. rewrite Hrow. apply Z.eqb_refl. }
    congruence.
Qed.

Arguments matched_cases {object_ids detections ms t t'} _ k.

Lemma wf_matched object_ids detections ms t t' :
  wf t -> matched_state object_ids detections ms t t' -> wf t'.
Proof.
  intros W S. constructor.
  - rewrite (ms_keys_p S), (ms_keys_d S). apply (wf_keys W).
  - rewrite (ms_keys_p S). apply (wf_nodup W).
  - rewrite (ms_keys_p S), (ms_next S). apply (wf_fresh W).
  - intros k c Hc. rewrite (ms_max S).
    destruct (matched_cases S k) as [[_ E]|[row [col [h [det [_ [_ [_ [_ [_ E]]]]]]]]]].
    + rewrite E in Hc. apply (wf_count W k c Hc).
    + assert (c = 0%Z) by congruence. subst c. assert (M := wf_max W). lia.
  - intros k h Hh.
    destruct (matched_cases S k) as [[E _]|[row [col [h0 [det [_ [_ [_ [_ [E _]]]]]]]]]].
    + rewrite E in Hh. apply (wf_hist W k h Hh).
    + assert (h = h0 ++ [det]) by congruence. subst h. destruct h0; discriminate.
  - rewrite (ms_max S). apply (wf_max W).
Qed.

Lemma wf_aged (ids : list Z) (t t' : PathTracker) :
  wf t -> aged_state ids t t' -> wf t'.
Proof.
  intros W S. destruct (ag_keys S) as [f [Kp Kd]].
  assert (Hcase : forall k,
    (dict_find k (paths t') = dict_find k (paths t) /\
     dict_find k (disappeared t') = dict_find k (disappeared t)) \/
    (dict_find k (paths t') = None /\ dict_find k (disappeared t') = None) \/
    (exists c, dict_find k (disappeared t) = Some c /\
               (c + 1 <= max_disappeared t)%Z /\
               dict_find k (paths t') = dict_find k (paths t) /\
               dict_find k (disappeared t') = Some (c + 1)%Z)).
  { intro k. destruct (in_dec Z.eq_dec k ids) as [Hin|Hout].
    - destruct (dict_find k (disappeared t)) as [c|] eqn:Ec.
      + assert (A := ag_in S k c Hin Ec).
        destruct (max_disappeared t <? c + 1)%Z eqn:Hexp.
        * right. left. assumption.
        * right. right. exists c. apply Z.ltb_ge in Hexp. tauto.
      + right. left. split; apply dict_find_None.
        * rewrite Kp. intro H. apply filter_In in H. destruct H as [H _].
          rewrite (wf_keys W) in H. apply dict_find_None in Ec. contradiction.
        * rewrite Kd. intro H. apply filter_In in H. destruct H as [H _].
          apply dict_find_None in Ec. contradiction.
    - left. apply (ag_out S k Hout). }
  constructor.
  - rewrite Kp, Kd, (wf_keys W). reflexivity.
  - rewrite Kp. apply NoDup_filter. apply (wf_nodup W).
  - rewrite Kp, (ag_next S). apply Forall_forall. intros k Hk.
    apply filter_In in Hk. destruct Hk as [Hk _].
    assert (F := wf_fresh W). rewrite Forall_forall in F. auto.
  - intros k c Hc. rewrite (ag_max S).
    destruct (Hcase k) as [[_ E]|[[_ E]|[c0 [E0 [Hle [_ E]]]]]].
    + rewrite E in Hc. apply (wf_count W k c Hc).
    + congruence.
    + assert (c = (c0 + 1)%Z) by congruence. subst c.
      assert (B := wf_count W k c0 E0). lia.
  - intros k h Hh.
    destruct (Hcase k) as [[E _]|[[E _]|[c0 [_ [_ [E _]]]]]].
    + rewrite E in Hh. apply (wf_hist W k h Hh).
    + congruence.
    + rewrite E in Hh. apply (wf_hist W k h Hh).
  - rewrite (ag_max S). apply (wf_max W).
Qed.

Lemma greedy_partition (distances : list (list float)) rows cols ms rows' cols' :
  greedy distances rows cols ms rows' cols' ->
  NoDup rows -> NoDup cols ->
  NoDup (map fst ms) /\ NoDup (map snd ms) /\ NoDup rows' /\ NoDup cols' /\
  (forall r, In r rows <-> In r (map fst ms) \/ In r rows') /\
  (forall c, In c cols <-> In c (map snd ms) \/ In c cols') /\
  (forall r, In r (map fst ms) -> ~ In r rows') /\
  (forall c, In c (map snd ms) -> ~ In c cols') /\
  (length rows - length rows' = length ms)%nat /\
  (length cols - length cols' = length ms)%nat.
Proof.
  induction 1 as [rows cols _|rows cols i j row col d _ _ _ _ _
                 |rows cols i j row col d ms rows' cols' Hi Hj _ _ _ Hg IH];
    intros Hr Hc; simpl.
  - repeat split; try constructor; try assumption; try tauto; lia.
  - repeat split; try constructor; try assumption; try tauto; lia.
  - destruct (pop_NoDup i rows row Hr Hi) as [Hr1 Hr2].
    destruct (pop_NoDup j cols col Hc Hj) as [Hc1 Hc2].
    destruct (IH Hr1 Hc1) as [I1 [I2 [I3 [I4 [I5 [I6 [I7 [I8 [I9 I10]]]]]]]]].
    destruct (greedy_incl _ _ _ _ _ _ Hg) as [G1 [G2 [G3 G4]]].
    assert (Li := pop_length i rows). assert (Lj := pop_length j cols).
    assert (Hil : (i < length rows)%nat) by (apply nth_error_Some; congruence).
    assert (Hjl : (j < length cols)%nat) by (apply nth_error_Some; congruence).
    assert (L1 : (length rows' <= length (pop i rows))%nat).
    { apply NoDup_incl_length; assumption. }
    assert (L2 : (length cols' <= length (pop j cols))%nat).
    { apply NoDup_incl_length; assumption. }
    repeat split.
    + constructor; [|assumption]. intro H. apply Hr2. auto.
    + constructor; [|assumption]. intro H. apply Hc2. auto.
    + assumption.
    + assumption.
    + intro H. apply (pop_split i rows row Hi) in H. rewrite I5 in H. intuition.
    + intro H. apply (pop_split i rows row Hi). rewrite I5. intuition.
    + intro H. apply (pop_split j cols col Hj) in H. rewrite I6 in H. intuition.
    + intro H. apply (pop_split j cols col Hj). rewrite I6. intuition.
    + intros r [<-|Hin] Hin'; [apply Hr2; auto|]. apply (I7 r); assumption.
    + intros c [<-|Hin] Hin'; [apply Hc2; auto|]. apply (I8 c); assumption.
    + lia.
    + lia.
Qed.

Lemma greedy_close (distances : list (list float)) rows cols ms rows' cols' :
  greedy distances rows cols ms rows' cols' ->
  forall row col, In (row, col) ms ->
    exists d, matrix_get distances row col = Ok d /\ (d <? 100)%float = true.
Proof.
  induction 1 as [rows cols _|rows cols i j row col d _ _ _ _ _
                 |rows cols i j row col d ms rows' cols' _ _ Hd _ Hlt _ IH];
    intros r c Hin; try contradiction.
  destruct Hin as [Heq|Hin]; [|auto]. injection Heq as <- <-. eauto.
Qed.

(** ** The general case of [update] *)

Lemma py_last_Ok {A : Type} (l : list A) :
  l <> [] -> exists a, py_last l = Ok a /\ In a l.
Proof.
  intro H. unfold py_last. destruct (rev l) as [|a r] eqn:E.
  - apply (f_equal (@rev A)) in E. rewrite rev_involutive in E. contradiction.
  - exists a. split; [reflexivity|]. apply in_rev. rewrite E. simpl. auto.
Qed.

Lemma previous_centroids_Ok (t : PathTracker) :
  wf t ->
  exists centroids,
    previous_centroids t = Ok centroids /\
    length centroids = length (paths t) /\
    forall row k h,
      nth_error (keys (paths t)) row = Some k -> dict_find k (paths t) = Some h ->
      exists p, nth_error centroids row = Some p /\ py_last h = Ok p.
Proof.
  intro W. unfold previous_centroids.
  destruct (mapM_total (fun obj_id => h <- dict_get obj_id (paths t) ;; py_last h)
                       (keys (paths t))) as [cs Hcs].
  { intros k Hk. apply dict_find_keys in Hk. unfold dict_get.
    destruct (dict_find k (paths t)) as [h|] eqn:Eh; [|congruence].
    destruct (py_last_Ok h (wf_hist W k h Eh)) as [p [Hp _]]. simpl. eauto. }
  exists cs. split; [assumption|]. split.
  - rewrite (mapM_Ok_length Hcs). unfold keys. apply length_map.
  - intros row k h Hrow Hh.
    destruct (mapM_Ok_nth Hcs row Hrow) as [p [E1 E2]].
    exists p. split; [assumption|]. unfold dict_get in E2. rewrite Hh in E2. exact E2.
Qed.

Lemma distance_matrix_entries (centroids detections : list Obs) distances :
  distance_matrix centroids detections = Ok distances ->
  shape distances (length centroids) (length detections) /\
  forall row col p det,
    nth_error centroids row = Some p -> nth_error detections col = Some det ->
    exists d, matrix_get distances row col = Ok d /\ np_dist p det = Ok d.
Proof.
  intro H. unfold distance_matrix in H. split; [split|].
  - apply (mapM_Ok_length H).
  - apply Forall_forall. intros line Hin.
    apply In_nth_error in Hin. destruct Hin as [i Hi].
    assert (Hlt : (i < length centroids)%nat).
    { rewrite <- (mapM_Ok_length H). apply nth_error_Some. congruence. }
    destruct (nth_error centroids i) as [p|] eqn:Hp;
      [|apply nth_error_None in Hp; lia].
    destruct (mapM_Ok_nth H i Hp) as [line' [E1 E2]].
    assert (line' = line) by congruence. subst line'.
    apply (mapM_Ok_length E2).
  - intros row col p det Hp Hdet.
    destruct (mapM_Ok_nth H row Hp) as [line [E1 E2]].
    destruct (mapM_Ok_nth E2 col Hdet) as [d [E3 E4]].
    exists d. split; [|assumption].
    unfold matrix_get, py_index. rewrite E1. simpl. rewrite E3. reflexivity.
Qed.

Lemma foldM_age_rows (object_ids : list Z) (rows : list nat) :
  Forall (fun r => (r < length object_ids)%nat) rows ->
  exists ids,
    (forall t, foldM (fun t row => obj_id <- py_index object_ids row ;; age t obj_id) rows t
               = foldM age ids t) /\
    (forall k, In k ids <-> exists row, In row rows /\ nth_error object_ids row = Some k) /\
    (NoDup object_ids -> NoDup rows -> NoDup ids).
Proof.
  induction 1 as [|r rows Hr Hrows IH].
  - exists []. split; [reflexivity|]. split; [|constructor].
    intro k. simpl. split; [tauto|]. intros [row [[] _]].
  - destruct IH as [ids [F1 [F2 F3]]].
    destruct (py_index_lt object_ids r Hr) as [k0 [E1 E2]].
    exists (k0 :: ids). split; [|split].
    + intro t. simpl. rewrite E1. simpl. destruct (age t k0); simpl; auto.
    + intro k. simpl. rewrite F2. split.
      * intros [<-|[row [Hin Hk]]]; eauto.
      * intros [row [[<-|Hin] Hk]]; [left; congruence|right; eauto].
    + intros Hnd Hrnd. inversion Hrnd as [|? ? Hnot Hrest]; subst.
      constructor; [|auto]. intro Hin. apply F2 in Hin.
      destruct Hin as [row [Hin Hk]].
      assert (row = r) by exact (nth_error_inj object_ids row r k0 Hnd Hk E2).
      subst row. contradiction.
Qed.

Lemma dict_find_new_tracks (ds : list Obs) :
  forall n j d, nth_error ds j = Some d ->
    dict_find (n + Z.of_nat j)%Z (new_tracks n ds) = Some [d] /\
    dict_find (n + Z.of_nat j)%Z (new_counters n ds) = Some 0%Z.
Proof.
  induction ds as [|d0 ds IH]; intros n j d Hj; [destruct j; discriminate|].
  destruct j as [|j]; simpl in Hj.
  - injection Hj as ->. simpl. rewrite Z.add_0_r, Z.eqb_refl. auto.
  - cbn [new_tracks new_counters dict_find].
    destruct (Z.eqb_spec n (n + Z.of_nat (S j))%Z) as [E|_]; [lia|].
    replace (n + Z.of_nat (S j))%Z with (n + 1 + Z.of_nat j)%Z by lia.
    apply IH. assumption.
Qed.

Arguments distance_matrix_entries {centroids detections distances} _.
Arguments match_loop_spec {distances object_ids detections} fuel {t rows cols} _ _.
Arguments greedy_partition {distances rows cols ms rows' cols'} _ _ _.
Arguments greedy_incl {distances rows cols ms rows' cols'} _.
Arguments greedy_close {distances rows cols ms rows' cols'} _ row col _.
Arguments foldM_seed {detections cols} _ t.
Arguments foldM_age_rows {object_ids rows} _.
Arguments foldM_age {ids} t _ _.

Lemma update_general (t : PathTracker) (detections : list Obs) :
  wf t -> detections <> [] -> paths t <> [] ->
  forall centroids distances,
    previous_centroids t = Ok centroids ->
    distance_matrix centroids detections = Ok distances ->
    exists ms rows' cols' t',
      update t detections = Ok (paths t', t') /\
      general_step t detections distances ms rows' cols' t'.
Proof.
  intros W Hdets Hpaths centroids distances Hcen Hdist.
  assert (C1 : Nat.eqb (length detections) 0 = false).
  { destruct detections; [congruence|reflexivity]. }
  assert (C2 : Nat.eqb (length (paths t)) 0 = false).
  { destruct (paths t); [congruence|reflexivity]. }
  destruct (previous_centroids_Ok t W) as [cs [Hcs [Hlen Hprev]]].
  assert (cs = centroids) by congruence. subst cs.
  destruct (distance_matrix_entries Hdist) as [Hshape Hentry].
  assert (C3 : (0 <? length centroids * length detections)%nat = true).
  { apply Nat.ltb_lt. apply Nat.eqb_neq in C1, C2. nia. }
  set (object_ids := keys (paths t)).
  assert (HR : length object_ids = length centroids).
  { unfold object_ids, keys. rewrite length_map. auto. }
  assert (Hpre : loop_pre distances object_ids detections t
                          (seq 0 (length centroids)) (seq 0 (length detections))).
  { constructor.
    - rewrite HR. exact Hshape.
    - reflexivity.
    - symmetry. apply (wf_keys W).
    - apply (wf_nodup W).
    - apply Forall_forall. intros r Hr. apply in_seq in Hr. lia.
    - apply Forall_forall. intros c Hc. apply in_seq in Hc. lia.
    - apply seq_NoDup. }
  destruct (match_loop_spec (length (seq 0 (length centroids))) Hpre (le_n _))
    as [ms [rows' [cols' [t1 [Hloop [Hgr S1]]]]]].
  destruct (greedy_partition Hgr (seq_NoDup _ _) (seq_NoDup _ _))
    as [I1 [I2 [I3 [I4 [I5 [I6 [I7 [I8 [I9 I10]]]]]]]]].
  destruct (greedy_incl Hgr) as [G1 [G2 [G3 G4]]].
  assert (W1 : wf t1) by (eapply wf_matched; eauto).
  assert (Hcols' : Forall (fun c => (c < length detections)%nat) cols').
  { apply Forall_forall. intros c Hc. apply G4 in Hc. apply in_seq in Hc. lia. }
  destruct (foldM_seed Hcols' t1) as [ds [Hseed [Hdslen Hds]]].
  assert (W2 : wf (fold_left seed ds t1)) by (apply wf_seed_fold; assumption).
  assert (F1d : Forall (fun k => (k < next_id t1)%Z) (keys (disappeared t1))).
  { rewrite <- (wf_keys W1). apply (wf_fresh W1). }
  assert (E2 := seed_fold ds t1 (wf_fresh W1) F1d).
  rewrite (ms_next S1), (ms_max S1) in E2.
  set (t2 := fold_left seed ds t1) in *.
  assert (K2p : forall k v, dict_find k (paths t1) = Some v ->
                            dict_find k (paths t2) = Some v).
  { intros k v Hv. rewrite E2. simpl. rewrite dict_find_app, Hv. reflexivity. }
  assert (K2d : forall k v, dict_find k (disappeared t1) = Some v ->
                            dict_find k (disappeared t2) = Some v).
  { intros k v Hv. rewrite E2. simpl. rewrite dict_find_app, Hv. reflexivity. }
  assert (Hrows' : Forall (fun r => (r < length object_ids)%nat) rows').
  { apply Forall_forall. intros r Hr. apply G3 in Hr. apply in_seq in Hr. lia. }
  destruct (foldM_age_rows Hrows') as [ids [Hages [Hids Hidsnd]]].
  assert (Hold : forall k, In k ids -> In k (keys (paths t))).
  { intros k Hk. apply Hids in Hk. destruct Hk as [row [_ Hk]].
    eapply nth_error_In; eauto. }
  destruct (foldM_age (ids:=ids) t2) as [t' [Hage S3]].
  { apply Hidsnd; [apply (wf_nodup W)|assumption]. }
  { intros k Hk. apply Hold in Hk. rewrite <- (wf_keys W2).
    assert (X : In k (keys (paths t2))); [|tauto].
    rewrite E2. simpl. unfold keys. rewrite map_app. apply in_or_app. left.
    fold (keys (paths t1)). rewrite (ms_keys_p S1). assumption. }
  assert (Hfresh_ids : forall k, (next_id t <= k)%Z -> ~ In k ids).
  { intros k Hk Hin. apply Hold in Hin.
    assert (F := wf_fresh W). rewrite Forall_forall in F. specialize (F k Hin). lia. }
  exists ms, rows', cols', t'. split.
  { unfold update. rewrite C1, C2, Hcen. cbn [bind]. rewrite Hdist. cbn [bind].
    rewrite C3. fold object_ids. rewrite Hloop. cbn [bind]. rewrite Hseed. cbn [bind].
    rewrite Hages, Hage. reflexivity. }
  constructor.
  - intros row col k h det Hk Hh Hdet.
    destruct (Hprev row k h Hk Hh) as [p [Hp Hlast]].
    destruct (Hentry row col p det Hp Hdet) as [d [Hd1 Hd2]].
    exists p, d. auto.
  - rewrite <- Hlen. exact Hgr.
  - eapply wf_aged; eauto.
  - rewrite (ag_next S3), E2. simpl. rewrite Hdslen. reflexivity.
  - rewrite (ag_max S3), E2. reflexivity.
  - intros row col k Hin Hk.
    destruct (ms_hit S1 row col k Hin Hk) as [h [det [A1 [A2 [A3 A4]]]]].
    exists h, det. repeat split; try assumption.
    + assert (Hout : ~ In k ids).
      { intro Hk'. apply Hids in Hk'. destruct Hk' as [row' [Hr' Hk'']].
        assert (row' = row)
          by exact (nth_error_inj object_ids row' row k (wf_nodup W) Hk'' Hk).
        subst row'. apply (I7 row); [|assumption].
        apply in_map_iff. exists (row, col). auto. }
      destruct (ag_out S3 k Hout) as [Q1 _]. rewrite Q1. apply K2p. assumption.
    + assert (Hout : ~ In k ids).
      { intro Hk'. apply Hids in Hk'. destruct Hk' as [row' [Hr' Hk'']].
        assert (row' = row)
          by exact (nth_error_inj object_ids row' row k (wf_nodup W) Hk'' Hk).
        subst row'. apply (I7 row); [|assumption].
        apply in_map_iff. exists (row, col). auto. }
      destruct (ag_out S3 k Hout) as [_ Q2]. rewrite Q2. apply K2d. assumption.
  - intros row k c Hrow Hk Hc.
    destruct (ms_miss S1 k) as [M1 M2].
    { intros row' Hk' Hin.
      assert (row' = row)
        by exact (nth_error_inj object_ids row' row k (wf_nodup W) Hk' Hk).
      subst row'. apply (I7 row); assumption. }
    assert (Hin : In k ids) by (apply Hids; eauto).
    assert (Hc2 : dict_find k (disappeared t2) = Some c).
    { apply K2d. rewrite M2. assumption. }
    assert (A := ag_in S3 k c Hin Hc2).
    assert (Hmax : max_disappeared t2 = max_disappeared t) by (rewrite E2; reflexivity).
    rewrite Hmax in A.
    destruct (max_disappeared t <? c + 1)%Z; [assumption|].
    destruct A as [A1 A2]. split; [|assumption]. rewrite A1.
    assert (Hkin : In k (keys (paths t))) by (eapply nth_error_In; eauto).
    apply dict_find_keys in Hkin.
    destruct (dict_find k (paths t)) as [h|] eqn:Eh; [|congruence].
    apply K2p. assumption.
  - intros j col det Hj Hdet.
    assert (Hdj : nth_error ds j = Some det) by (rewrite (Hds j col Hj); assumption).
    destruct (dict_find_new_tracks ds (next_id t) j det Hdj) as [N1 N2].
    destruct (wf_fresh_absent t1 (next_id t + Z.of_nat j)%Z W1) as [B1 B2].
    { rewrite (ms_next S1). lia. }
    destruct (ag_out S3 (next_id t + Z.of_nat j)%Z) as [Q1 Q2].
    { apply Hfresh_ids. lia. }
    rewrite Q1, Q2, E2. simpl. rewrite !dict_find_app, B1, B2. auto.
  - intros k Hk. destruct (ag_keys S3) as [f [Kp _]].
    rewrite Kp in Hk. apply filter_In in Hk. destruct Hk as [Hk _].
    rewrite E2 in Hk. simpl in Hk. unfold keys in Hk. rewrite map_app in Hk.
    apply in_app_or in Hk. destruct Hk as [Hk|Hk].
    + left. fold (keys (paths t1)) in Hk. rewrite (ms_keys_p S1) in Hk. assumption.
    + right. fold (keys (new_tracks (next_id t) ds)) in Hk.
      rewrite keys_new_tracks in Hk. apply in_map_iff in Hk.
      destruct Hk as [i [<- Hi]]. apply in_seq in Hi.
      rewrite (ag_next S3), E2. simpl. lia.
Qed.

(** ** One call of [update], whatever the branch *)

Lemma update_empty (t : PathTracker) :
  wf t ->
  exists t', update t [] = Ok (paths t', t') /\
             aged_state (keys (disappeared t)) t t' /\ wf t'.
Proof.
  intro W. destruct (foldM_age (ids := keys (disappeared t)) t) as [t' [E S]].
  - rewrite <- (wf_keys W). apply (wf_nodup W).
  - intros k Hk. rewrite (wf_keys W). tauto.
  - exists t'. unfold update. simpl. rewrite E. simpl.
    split; [reflexivity|]. split; [assumption|]. eapply wf_aged; eauto.
Qed.

Lemma update_cold (t : PathTracker) (detections : list Obs) :
  detections <> [] -> paths t = [] ->
  update t detections =
  Ok (paths (fold_left seed detections t), fold_left seed detections t).
Proof.
  intros Hd Hp. unfold update. rewrite Hp.
  destruct detections; [congruence|reflexivity].
Qed.

Lemma aged_track (ids : list Z) (t t' : PathTracker) (detections : list Obs) k h c :
  aged_state ids t t' -> In k ids ->
  dict_find k (paths t) = Some h -> dict_find k (disappeared t) = Some c ->
  track_step t t' detections k h c.
Proof.
  intros S Hin Hh Hc. assert (A := ag_in S k c Hin Hc).
  destruct (max_disappeared t <? c + 1)%Z eqn:E.
  - apply Z.ltb_lt in E. apply track_removed; tauto.
  - apply Z.ltb_ge in E. destruct A as [A1 A2].
    apply track_missed; [lia|congruence|assumption].
Qed.

Lemma summary_empty (t t' : PathTracker) :
  wf t -> aged_state (keys (disappeared t)) t t' -> step_summary t [] t'.
Proof.
  intros W S. destruct (ag_keys S) as [f [Kp Kd]]. constructor.
  - eapply wf_aged; eauto.
  - rewrite (ag_next S). lia.
  - apply (ag_max S).
  - intros k Hk. left. rewrite Kp in Hk. apply filter_In in Hk. tauto.
  - intros k Hk. rewrite (ag_next S) in Hk. lia.
  - intros k h c Hh Hc. eapply aged_track; eauto.
    eapply dict_find_Some_keys; eauto.
Qed.

Lemma wf_empty_paths (t : PathTracker) : wf t -> paths t = [] -> disappeared t = [].
Proof.
  intros W Hp. assert (K := wf_keys W). rewrite Hp in K.
  destruct (disappeared t); [reflexivity|discriminate].
Qed.

Lemma summary_cold (t : PathTracker) (detections : list Obs) :
  wf t -> paths t = [] -> step_summary t detections (fold_left seed detections t).
Proof.
  intros W Hp. assert (Hd := wf_empty_paths t W Hp).
  assert (E := seed_fold detections t). rewrite Hp, Hd in E.
  specialize (E (Forall_nil _) (Forall_nil _)). simpl in E.
  constructor.
  - apply wf_seed_fold. assumption.
  - rewrite E. simpl. lia.
  - rewrite E. reflexivity.
  - intros k Hk. right. rewrite E in Hk |- *. simpl in *.
    rewrite keys_new_tracks in Hk. apply in_map_iff in Hk.
    destruct Hk as [i [<- Hi]]. apply in_seq in Hi. lia.
  - intros k Hk. rewrite E in Hk |- *. simpl in *.
    assert (Hj : (Z.to_nat (k - next_id t) < length detections)%nat) by lia.
    destruct (nth_error detections (Z.to_nat (k - next_id t))) as [det|] eqn:Edet;
      [|apply nth_error_None in Edet; lia].
    destruct (dict_find_new_tracks detections (next_id t) _ det Edet) as [N1 N2].
    replace (next_id t + Z.of_nat (Z.to_nat (k - next_id t)))%Z with k in N1, N2 by lia.
    exists det. split; [eapply nth_error_In; eauto|]. auto.
  - intros k h c Hh. rewrite Hp in Hh. discriminate.
Qed.

Lemma summary_general (t : PathTracker) (detections : list Obs)
    distances ms rows' cols' t' :
  wf t -> general_step t detections distances ms rows' cols' t' ->
  step_summary t detections t'.
Proof.
  intros W G.
  destruct (greedy_partition (gs_greedy G) (seq_NoDup _ _) (seq_NoDup _ _))
    as [I1 [I2 [I3 [I4 [I5 [I6 [I7 [I8 [I9 I10]]]]]]]]].
  destruct (greedy_incl (gs_greedy G)) as [G1 [G2 [G3 G4]]].
  constructor.
  - apply (gs_wf G).
  - rewrite (gs_next G). lia.
  - apply (gs_max G).
  - apply (gs_only G).
  - intros k Hk. rewrite (gs_next G) in Hk.
    assert (Hj : (Z.to_nat (k - next_id t) < length cols')%nat) by lia.
    destruct (nth_error cols' (Z.to_nat (k - next_id t))) as [col|] eqn:Ecol;
      [|apply nth_error_None in Ecol; lia].
    assert (Hc : (col < length detections)%nat).
    { apply nth_error_In in Ecol. apply G4 in Ecol. apply in_seq in Ecol. lia. }
    destruct (nth_error detections col) as [det|] eqn:Edet;
      [|apply nth_error_None in Edet; lia].
    destruct (gs_new G _ col det Ecol Edet) as [N1 N2].
    replace (next_id t + Z.of_nat (Z.to_nat (k - next_id t)))%Z with k in N1, N2 by lia.
    exists det. split; [eapply nth_error_In; eauto|]. auto.
  - intros k h c Hh Hc.
    assert (Hk : In k (keys (paths t))) by (eapply dict_find_Some_keys; eauto).
    apply In_nth_error in Hk. destruct Hk as [row Hrow].
    assert (Hlt : (row < length (paths t))%nat).
    { assert (L : length (keys (paths t)) = length (paths t)) by apply length_map.
      rewrite <- L. apply nth_error_Some. congruence. }
    assert (Hin : In row (seq 0 (length (paths t)))) by (apply in_seq; lia).
    apply I5 in Hin. destruct Hin as [Hin|Hin].
    + apply in_map_iff in Hin. destruct Hin as [[row0 col] [Hfst Hin]].
      simpl in Hfst. subst row0.
      destruct (gs_hit G row col k Hin Hrow) as [h0 [det [A1 [A2 [A3 A4]]]]].
      assert (h0 = h) by congruence. subst h0.
      apply (track_matched _ _ _ _ _ _ det); try assumption.
      eapply nth_error_In; eauto.
    + assert (A := gs_miss G row k c Hin Hrow Hc).
      destruct (max_disappeared t <? c + 1)%Z eqn:E.
      * apply Z.ltb_lt in E. apply track_removed; tauto.
      * apply Z.ltb_ge in E. destruct A as [A1 A2].
        apply track_missed; [lia|congruence|assumption].
Qed.

(** Every successful call is one of the three branches. *)
Lemma update_inv (t : PathTracker) (detections : list Obs) m t' :
  wf t -> update t detections = Ok (m, t') ->
  m = paths t' /\
  ((detections = [] /\ aged_state (keys (disappeared t)) t t') \/
   (detections <> [] /\ paths t = [] /\ t' = fold_left seed detections t) \/
   (detections <> [] /\ paths t <> [] /\
    exists distances ms rows' cols',
      general_step t detections distances ms rows' cols' t')).
Proof.
  intros W H. destruct detections as [|d ds].
  - destruct (update_empty t W) as [t1 [E [S _]]].
    rewrite E in H. injection H as <- <-. auto.
  - destruct (paths t) as [|e p] eqn:Ep.
    + rewrite update_cold in H by (congruence || assumption).
      injection H as <- <-. split; [reflexivity|]. right. left.
      repeat split; congruence.
    + assert (H' := H). unfold update in H'. rewrite Ep in H'.
      cbn [length Nat.eqb] in H'. rewrite <- Ep in H'.
      apply bind_Ok in H'. destruct H' as [cs [Ecs H']].
      apply bind_Ok in H'. destruct H' as [distances [Edist _]].
      assert (Hne : d :: ds <> []) by discriminate.
      assert (Hpne : paths t <> []) by congruence.
      destruct (update_general t (d :: ds) W Hne Hpne cs distances Ecs Edist)
        as [ms [rows' [cols' [t1 [U G]]]]].
      rewrite U in H. injection H as <- <-. split; [reflexivity|].
      right. right. repeat split; try congruence. eauto.
Qed.

Lemma update_summary (t : PathTracker) (detections : list Obs) m t' :
  wf t -> update t detections = Ok (m, t') ->
  m = paths t' /\ step_summary t detections t'.
Proof.
  intros W H. destruct (update_inv t detections m t' W H)
    as [Hm [[-> S]|[[_ [Hp ->]]|[_ [_ [distances [ms [rows' [cols' G]]]]]]]]].
  - split; [assumption|]. apply summary_empty; assumption.
  - split; [assumption|]. apply summary_cold; assumption.
  - split; [assumption|]. eapply summary_general; eauto.
Qed.

(** ** Sequences of calls *)

Lemma run_wf (frames : list (list Obs)) :
  forall t t', wf t -> run t frames = Ok t' ->
    wf t' /\ (next_id t <= next_id t')%Z /\ max_disappeared t' = max_disappeared t.
Proof.
  induction frames as [|dets frames IH]; intros t t' W H; simpl in H.
  - injection H as <-. split; [assumption|]. split; [lia|reflexivity].
  - apply bind_Ok in H. destruct H as [[m t1] [E H]]. simpl in H.
    destruct (update_summary t dets m t1 W E) as [_ S].
    destruct (IH t1 t' (ss_wf S) H) as [W' [N M]].
    split; [assumption|]. split.
    + assert (N1 := ss_next S). lia.
    + rewrite M. apply (ss_max S).
Qed.

Lemma issued_spec (t : PathTracker) (detections : list Obs) m t' :
  wf t -> update t detections = Ok (m, t') ->
  NoDup (issued t t') /\
  forall k, In k (issued t t') <-> (next_id t <= k < next_id t')%Z.
Proof.
  intros W H. destruct (update_summary t detections m t' W H) as [_ S].
  split.
  - apply NoDup_filter. apply (wf_nodup (ss_wf S)).
  - intro k. unfold issued. rewrite filter_In, negb_true_iff.
    assert (F := wf_fresh W). rewrite Forall_forall in F. split.
    + intros [Hin Hnot]. destruct (ss_only S k Hin) as [Hold|Hnew]; [|assumption].
      exfalso. assert (X : existsb (Z.eqb k) (keys (paths t)) = true); [|congruence].
      apply existsb_exists. exists k. split; [assumption|apply Z.eqb_refl].
    + intro Hk. destruct (ss_new S k Hk) as [det [_ [Hp _]]]. split.
      * eapply dict_find_Some_keys; eauto.
      * destruct (existsb (Z.eqb k) (keys (paths t))) eqn:E; [|reflexivity].
        apply existsb_exists in E. destruct E as [k' [Hin Heq]].
        apply Z.eqb_eq in Heq. subst k'. specialize (F k Hin). lia.
Qed.

(** ** Properties of the tracker *)

(** C4.  A call with N detections on a tracker without live tracks creates
    exactly N tracks: their identifiers are the N consecutive integers from
    the next-ID counter on (0..N-1 on a fresh tracker), in the order of the
    detections; each history holds exactly its seeding detection, each
    missed counter is 0, and the counter has advanced by N. *)
Theorem cold_start_tracks (t : PathTracker) (detections : list Obs) :
  wf t -> paths t = [] ->
  exists t',
    update t detections = Ok (paths t', t') /\
    length (paths t') = length detections /\
    length (disappeared t') = length detections /\
    next_id t' = (next_id t + Z.of_nat (length detections))%Z /\
    keys (paths t') =
      map (fun i => (next_id t + Z.of_nat i)%Z) (seq 0 (length detections)) /\
    forall i d, nth_error detections i = Some d ->
      nth_error (paths t') i = Some ((next_id t + Z.of_nat i)%Z, [d]) /\
      nth_error (disappeared t') i = Some ((next_id t + Z.of_nat i)%Z, 0%Z).
Proof.
  intros W Hp. assert (Hd := wf_empty_paths t W Hp).
  assert (E := seed_fold detections t). rewrite Hp, Hd in E.
  specialize (E (Forall_nil _) (Forall_nil _)). simpl in E.
  exists (fold_left seed detections t). split.
  - destruct detections as [|d ds].
    + unfold update. rewrite Hd. simpl. reflexivity.
    + apply update_cold; [discriminate|assumption].
  - rewrite E. simpl.
    assert (L1 : length (new_tracks (next_id t) detections) = length detections).
    { rewrite <- (length_map fst). fold (keys (new_tracks (next_id t) detections)).
      rewrite keys_new_tracks, length_map, length_seq. reflexivity. }
    assert (L2 : length (new_counters (next_id t) detections) = length detections).
    { rewrite <- (length_map fst). fold (keys (new_counters (next_id t) detections)).
      rewrite keys_new_counters, keys_new_tracks, length_map, length_seq. reflexivity. }
    repeat split; try assumption.
    + apply keys_new_tracks.
    + apply (nth_new_tracks detections (next_id t) i d H).
    + apply (nth_new_tracks detections (next_id t) i d H).
Qed.

Lemma cold_start_tracks_witness :
  exists t',
    update init [[1; 2; 0.5; 0]; [30; 40; 0.5; 0]]%float = Ok (paths t', t') /\
    length (paths t') = 2%nat /\
    length (disappeared t') = 2%nat /\
    next_id t' = 2%Z /\
    keys (paths t') = [0; 1]%Z /\
    forall i d, nth_error [[1; 2; 0.5; 0]; [30; 40; 0.5; 0]]%float i = Some d ->
      nth_error (paths t') i = Some (Z.of_nat i, [d]) /\
      nth_error (disappeared t') i = Some (Z.of_nat i, 0%Z).
Proof.
  exact (cold_start_tracks init [[1; 2; 0.5; 0]; [30; 40; 0.5; 0]]%float
           wf_init eq_refl).
Defined.

(** C5.  A call without detections succeeds on every well-formed tracker
    and returns the mapping of the tracker afterwards; every live track's
    missed counter has grown by one, a track whose counter then exceeds
    [max_disappeared] has lost both its history and its counter, every other
    track keeps its history, and no track is created (the next-ID counter
    and every absent identifier stay as they were). *)
Theorem update_no_detections (t : PathTracker) :
  wf t ->
  exists t',
    update t [] = Ok (paths t', t') /\
    next_id t' = next_id t /\
    (forall k h c,
        dict_find k (paths t) = Some h -> dict_find k (disappeared t) = Some c ->
        if (max_disappeared t <? c + 1)%Z
        then dict_find k (paths t') = None /\ dict_find k (disappeared t') = None
        else dict_find k (paths t') = Some h /\
             dict_find k (disappeared t') = Some (c + 1)%Z) /\
    (forall k, dict_find k (paths t) = None ->
               dict_find k (paths t') = None /\ dict_find k (disappeared t') = None).
Proof.
  intro W. destruct (update_empty t W) as [t' [E [S W']]].
  exists t'. split; [assumption|]. split; [apply (ag_next S)|]. split.
  - intros k h c Hh Hc.
    assert (Hin : In k (keys (disappeared t))) by (eapply dict_find_Some_keys; eauto).
    assert (A := ag_in S k c Hin Hc).
    destruct (max_disappeared t <? c + 1)%Z; [assumption|].
    destruct A as [A1 A2]. split; congruence.
  - intros k Hk. destruct (ag_keys S) as [f [Kp Kd]].
    apply dict_find_None in Hk.
    split; apply dict_find_None; [rewrite Kp|rewrite Kd, <- (wf_keys W)];
      intro H; apply filter_In in H; tauto.
Qed.

Lemma wf_run_init (frames : list (list Obs)) (t : PathTracker) :
  run init frames = Ok t -> wf t.
Proof. intro H. apply (run_wf frames init t wf_init H). Qed.

Lemma wf_aged_duck : wf aged_duck.
Proof.
  apply (wf_run_init [[[0; 0; 0.5; 0]%float]; []; []; []; []; []; []; []; []; []; []]).
  vm_compute. reflexivity.
Qed.

Lemma update_no_detections_witness :
  exists t',
    update aged_duck [] = Ok (paths t', t') /\
    next_id t' = 1%Z /\
    (forall k h c,
        dict_find k (paths aged_duck) = Some h ->
        dict_find k (disappeared aged_duck) = Some c ->
        if (10 <? c + 1)%Z
        then dict_find k (paths t') = None /\ dict_find k (disappeared t') = None
        else dict_find k (paths t') = Some h /\
             dict_find k (disappeared t') = Some (c + 1)%Z) /\
    (forall k, dict_find k (paths aged_duck) = None ->
               dict_find k (paths t') = None /\ dict_find k (disappeared t') = None).
Proof.
  exact (update_no_detections aged_duck wf_aged_duck).
Defined.

(** C10.  After every sequence of calls on a new tracker, [paths] and
    [disappeared] have the same keys, in the same order: an identifier has a
    history exactly when it has a missed counter. *)
Theorem paths_disappeared_same_keys (frames : list (list Obs)) (t : PathTracker) :
  run init frames = Ok t ->
  keys (paths t) = keys (disappeared t) /\
  forall k, dict_find k (paths t) = None <-> dict_find k (disappeared t) = None.
Proof.
  intro H. assert (W := wf_run_init frames t H). split; [apply (wf_keys W)|].
  intro k. rewrite !dict_find_None, (wf_keys W). tauto.
Qed.

Lemma paths_disappeared_same_keys_witness :
  run init [[[0; 0; 0.5; 0]%float]; []; []; []; []; []; []; []; []; []; []]
    = Ok aged_duck /\
  keys (paths aged_duck) = keys (disappeared aged_duck) /\
  forall k, dict_find k (paths aged_duck) = None
            <-> dict_find k (disappeared aged_duck) = None.
Proof.
  split; [vm_compute; reflexivity|].
  apply (paths_disappeared_same_keys
           [[[0; 0; 0.5; 0]%float]; []; []; []; []; []; []; []; []; []; []]).
  vm_compute. reflexivity.
Defined.

(** C3.  Over every sequence of calls the next-ID counter never decreases,
    and the identifiers issued on the way, taken over all calls and whether
    or not their tracks were removed since, are pairwise distinct: they are
    exactly the values the counter went through.  Every live identifier is
    below the counter, so no later call can issue an identifier again. *)
Theorem ids_never_reissued (frames : list (list Obs)) :
  forall (t0 t : PathTracker) (log : list Z),
    wf t0 -> run_log t0 frames = Ok (t, log) ->
    (next_id t0 <= next_id t)%Z /\
    NoDup log /\
    (forall k, In k log <-> (next_id t0 <= k < next_id t)%Z) /\
    (forall k, In k (keys (paths t)) -> (k < next_id t)%Z).
Proof.
  induction frames as [|dets frames IH]; intros t0 t log W H; simpl in H.
  - injection H as <- <-. split; [lia|]. split; [constructor|]. split.
    + intro k. simpl. lia.
    + intros k Hk. assert (F := wf_fresh W). rewrite Forall_forall in F. auto.
  - apply bind_Ok in H. destruct H as [[m t1] [E H]]. simpl in H.
    apply bind_Ok in H. destruct H as [[t' log'] [E' H]]. simpl in H.
    injection H as <- <-.
    destruct (update_summary t0 dets m t1 W E) as [_ S].
    destruct (issued_spec t0 dets m t1 W E) as [Hnd Hiss].
    destruct (IH t1 t' log' (ss_wf S) E') as [N [Hnd' [Hlog Hlive]]].
    assert (N0 := ss_next S).
    split; [lia|]. split; [|split; [|assumption]].
    + apply NoDup_app; try assumption.
      intros k Hk Hk'. apply Hiss in Hk. apply Hlog in Hk'. lia.
    + intro k. rewrite in_app_iff, Hiss, Hlog. lia.
Qed.

Lemma ids_never_reissued_witness :
  exists t log,
    run_log init [[[0; 0; 0.5; 0]%float]; []; []; []; []; []; []; []; []; []; []; [];
                  [[0; 0; 0.5; 0]%float; [500; 500; 0.5; 0]%float]] = Ok (t, log) /\
    log = [0; 1; 2]%Z /\ keys (paths t) = [1; 2]%Z /\
    (next_id init <= next_id t)%Z /\
    NoDup log /\
    (forall k, In k log <-> (next_id init <= k < next_id t)%Z) /\
    (forall k, In k (keys (paths t)) -> (k < next_id t)%Z).
Proof.
  eexists. eexists. split; [vm_compute; reflexivity|].
  split; [reflexivity|]. split; [reflexivity|].
  apply (ids_never_reissued
           [[[0; 0; 0.5; 0]%float]; []; []; []; []; []; []; []; []; []; []; [];
            [[0; 0; 0.5; 0]%float; [500; 500; 0.5; 0]%float]] init _ _ wf_init).
  vm_compute. reflexivity.
Defined.

Lemma wf_empty_tracker (t : PathTracker) : empty_tracker t -> wf t.
Proof.
  intros [Hp [Hd Hm]]. constructor; rewrite ?Hp, ?Hd; simpl;
    try discriminate; try constructor; assumption.
Qed.

Lemma absent_step (t : PathTracker) (detections : list Obs) m t' (k : Z) :
  wf t -> update t detections = Ok (m, t') ->
  (k < next_id t)%Z -> dict_find k (paths t) = None ->
  dict_find k (paths t') = None.
Proof.
  intros W H Hk Habs. destruct (update_summary t detections m t' W H) as [_ S].
  apply dict_find_None. intro Hin. apply dict_find_None in Habs.
  destruct (ss_only S k Hin); [contradiction|lia].
Qed.

Lemma absent_run (frames : list (list Obs)) (k : Z) :
  forall t t', wf t -> run t frames = Ok t' ->
    (k < next_id t)%Z -> dict_find k (paths t) = None ->
    dict_find k (paths t') = None.
Proof.
  induction frames as [|dets frames IH]; intros t t' W H Hk Habs; simpl in H.
  - injection H as <-. assumption.
  - apply bind_Ok in H. destruct H as [[m t1] [E H]]. simpl in H.
    destruct (update_summary t dets m t1 W E) as [_ S].
    apply (IH t1 t' (ss_wf S) H).
    + assert (N := ss_next S). lia.
    + eapply absent_step; eauto.
Qed.

Lemma unmatched_track (t t' : PathTracker) (detections : list Obs) k h c :
  dict_find k (paths t) = Some h -> unmatched k t t' ->
  track_step t t' detections k h c ->
  if (max_disappeared t <? c + 1)%Z
  then dict_find k (paths t') = None /\ dict_find k (disappeared t') = None
  else dict_find k (paths t') = Some h /\
       dict_find k (disappeared t') = Some (c + 1)%Z.
Proof.
  intros Hh Hun [det Hdet Hp Hd|Hle Hp Hd|Hlt Hp Hd].
  - exfalso. destruct Hun as [U|U]; [congruence|].
    rewrite Hp, Hh in U. injection U as U.
    apply (f_equal (@length Obs)) in U. rewrite length_app in U. simpl in U. lia.
  - destruct (Z.ltb_spec (max_disappeared t) (c + 1)); [lia|auto].
  - destruct (Z.ltb_spec (max_disappeared t) (c + 1)); [auto|lia].
Qed.

Arguments unmatched_track {t t' detections k h c} _ _ _.

Lemma missed_run_absent (k : Z) (t : PathTracker) (n : nat) (t' : PathTracker) :
  missed_run k t n t' ->
  wf t -> (k < next_id t)%Z ->
  (dict_find k (paths t) = None \/
   exists c, dict_find k (disappeared t) = Some c /\
             (max_disappeared t - c < Z.of_nat n)%Z) ->
  dict_find k (paths t') = None /\ wf t' /\ (k < next_id t')%Z.
Proof.
  induction 1 as [t|t dets m t1 n t' E Hun _ IH]; intros W Hk Hc.
  - destruct Hc as [Habs|[c [Hc Hlt]]]; [auto|].
    assert (B := wf_count W k c Hc). simpl in Hlt. lia.
  - destruct (update_summary t dets m t1 W E) as [_ S].
    assert (N := ss_next S).
    apply IH; [apply (ss_wf S)|lia|].
    destruct Hc as [Habs|[c [Hc Hlt]]].
    + left. eapply absent_step; eauto.
    + assert (Hin : In k (keys (paths t))).
      { rewrite (wf_keys W). eapply dict_find_Some_keys; eauto. }
      apply dict_find_keys in Hin.
      destruct (dict_find k (paths t)) as [h|] eqn:Hh; [|congruence].
      assert (A := unmatched_track Hh Hun (ss_old S k h c Hh Hc)).
      destruct (max_disappeared t <? c + 1)%Z; [left; tauto|].
      right. exists (c + 1)%Z. split; [tauto|]. rewrite (ss_max S). lia.
Qed.

Arguments missed_run_absent {k t n t'} _ _ _ _.

(** C2.  After every sequence of calls on a tracker that started without
    tracks, an identifier is live exactly when it has a missed counter, and
    that counter is between 0 and [max_disappeared] (10 unless configured
    otherwise).  In a call that does not match a live track, its counter
    grows by one; if it then exceeds [max_disappeared], the history and the
    counter are both deleted, otherwise the history is kept.  A live track
    that goes unmatched for more than [max_disappeared] calls in a row is
    absent after them and after every later sequence of calls. *)
Theorem missed_counter_bound (t0 : PathTracker) (frames : list (list Obs))
    (t : PathTracker) :
  empty_tracker t0 -> run t0 frames = Ok t ->
  (forall k, dict_find k (paths t) <> None <->
             exists c, dict_find k (disappeared t) = Some c /\
                       (0 <= c <= max_disappeared t)%Z) /\
  (forall detections m t' k h c,
      update t detections = Ok (m, t') ->
      dict_find k (paths t) = Some h -> dict_find k (disappeared t) = Some c ->
      unmatched k t t' ->
      if (max_disappeared t <? c + 1)%Z
      then dict_find k (paths t') = None /\ dict_find k (disappeared t') = None
      else dict_find k (paths t') = Some h /\
           dict_find k (disappeared t') = Some (c + 1)%Z) /\
  (forall k n t',
      dict_find k (paths t) <> None -> missed_run k t n t' ->
      (max_disappeared t < Z.of_nat n)%Z ->
      forall frames' t'', run t' frames' = Ok t'' ->
        dict_find k (paths t'') = None /\ dict_find k (disappeared t'') = None).
Proof.
  intros H0 Hrun.
  destruct (run_wf frames t0 t (wf_empty_tracker t0 H0) Hrun) as [W _].
  split; [|split].
  - intro k. rewrite dict_find_keys, (wf_keys W), <- dict_find_keys. split.
    + intro Hk. destruct (dict_find k (disappeared t)) as [c|] eqn:Hc; [|congruence].
      exists c. split; [reflexivity|]. apply (wf_count W k c Hc).
    + intros [c [Hc _]]. congruence.
  - intros detections m t' k h c E Hh Hc Hun.
    destruct (update_summary t detections m t' W E) as [_ S].
    apply (unmatched_track Hh Hun (ss_old S k h c Hh Hc)).
  - intros k n t' Hlive Hmiss Hn frames' t'' Hrun'.
    assert (Hin : In k (keys (paths t))) by (apply dict_find_keys; assumption).
    assert (Hk : (k < next_id t)%Z).
    { assert (F := wf_fresh W). rewrite Forall_forall in F. auto. }
    rewrite (wf_keys W) in Hin. apply dict_find_keys in Hin.
    destruct (dict_find k (disappeared t)) as [c|] eqn:Hc; [|congruence].
    assert (B := wf_count W k c Hc).
    destruct (missed_run_absent Hmiss W Hk) as [Habs [W' Hk']].
    { right. exists c. split; [assumption|lia]. }
    assert (Habs' := absent_run frames' k t' t'' W' Hrun' Hk' Habs).
    destruct (run_wf frames' t' t'' W' Hrun') as [W'' _].
    split; [assumption|]. apply dict_find_None. rewrite <- (wf_keys W'').
    apply dict_find_None. assumption.
Qed.

Lemma update_general_inv (t : PathTracker) (detections : list Obs) m t' :
  wf t -> detections <> [] -> paths t <> [] ->
  update t detections = Ok (m, t') ->
  exists distances ms rows' cols',
    general_step t detections distances ms rows' cols' t'.
Proof.
  intros W Hd Hp H.
  destruct (update_inv t detections m t' W H) as [_ [[E _]|[[_ [E _]]|[_ [_ G]]]]];
    [contradiction|contradiction|exact G].
Qed.

(** C1.  In the general case the call computes the distance between the
    last observation of every live track and every detection, and the
    matching it performs is greedy: each committed pair carries a smallest
    remaining distance, strictly below 100, and takes its track and its
    detection out of consideration; matching stops for the frame as soon as
    the smallest remaining distance is not below 100 (or a side is used up).
    A committed pair appends the detection to the track's history and sets
    its missed counter to 0; every detection left unmatched seeds a new
    track, in order, from the next-ID counter on. *)
Theorem greedy_matching (t : PathTracker) (detections : list Obs) m t' :
  wf t -> detections <> [] -> paths t <> [] ->
  update t detections = Ok (m, t') ->
  exists distances ms rows' cols',
    (forall row col k h det,
        nth_error (keys (paths t)) row = Some k -> dict_find k (paths t) = Some h ->
        nth_error detections col = Some det ->
        exists p d, py_last h = Ok p /\ np_dist p det = Ok d /\
                    matrix_get distances row col = Ok d) /\
    greedy distances (seq 0 (length (paths t))) (seq 0 (length detections))
           ms rows' cols' /\
    (forall row col k,
        In (row, col) ms -> nth_error (keys (paths t)) row = Some k ->
        exists h det,
          dict_find k (paths t) = Some h /\ nth_error detections col = Some det /\
          dict_find k (paths t') = Some (h ++ [det]) /\
          dict_find k (disappeared t') = Some 0%Z) /\
    (forall j col det,
        nth_error cols' j = Some col -> nth_error detections col = Some det ->
        dict_find (next_id t + Z.of_nat j)%Z (paths t') = Some [det] /\
        dict_find (next_id t + Z.of_nat j)%Z (disappeared t') = Some 0%Z) /\
    next_id t' = (next_id t + Z.of_nat (length cols'))%Z.
Proof.
  intros W Hd Hp H.
  destruct (update_general_inv t detections m t' W Hd Hp H)
    as [distances [ms [rows' [cols' G]]]].
  exists distances, ms, rows', cols'.
  split; [apply (gs_dist G)|]. split; [apply (gs_greedy G)|].
  split; [apply (gs_hit G)|]. split; [apply (gs_new G)|apply (gs_next G)].
Qed.

(** C7.  Within one call the appends are a one-to-one matching: there is a
    list of (track row, detection column) pairs, no row and no column
    occurring twice, such that each pair appended its detection to its
    track, and every track that is still live afterwards either kept its
    history unchanged and is in no pair, or gained exactly the one detection
    of its pair. *)
Theorem one_to_one_matching (t : PathTracker) (detections : list Obs) m t' :
  wf t -> update t detections = Ok (m, t') ->
  exists ms : list (nat * nat),
    NoDup (map fst ms) /\ NoDup (map snd ms) /\
    (forall row col, In (row, col) ms ->
        exists k h det,
          nth_error (keys (paths t)) row = Some k /\
          dict_find k (paths t) = Some h /\ nth_error detections col = Some det /\
          dict_find k (paths t') = Some (h ++ [det])) /\
    (forall row k h h',
        nth_error (keys (paths t)) row = Some k ->
        dict_find k (paths t) = Some h -> dict_find k (paths t') = Some h' ->
        (h' = h /\ ~ In row (map fst ms)) \/
        (exists col det, In (row, col) ms /\ nth_error detections col = Some det /\
                         h' = h ++ [det])).
Proof.
  intros W H.
  destruct (update_inv t detections m t' W H)
    as [_ [[E S]|[[_ [Hp E]]|[_ [_ [distances [ms [rows' [cols' G]]]]]]]]].
  - exists []. split; [constructor|]. split; [constructor|]. split.
    + intros row col [].
    + intros row k h h' Hk Hh Hh'. left. split; [|simpl; tauto].
      assert (Hin : In k (keys (disappeared t))).
      { rewrite <- (wf_keys W). eapply nth_error_In; eauto. }
      apply dict_find_keys in Hin.
      destruct (dict_find k (disappeared t)) as [c|] eqn:Hc; [|congruence].
      apply dict_find_Some_keys in Hc as Hin'.
      assert (A := ag_in S k c Hin' Hc).
      destruct (max_disappeared t <? c + 1)%Z; destruct A as [A1 A2]; congruence.
  - exists []. split; [constructor|]. split; [constructor|]. split.
    + intros row col [].
    + intros row k h h' Hk. rewrite Hp in Hk. destruct row; discriminate.
  - destruct (greedy_partition (gs_greedy G) (seq_NoDup _ _) (seq_NoDup _ _))
      as [I1 [I2 [I3 [I4 [I5 [I6 [I7 [I8 [I9 I10]]]]]]]]].
    destruct (greedy_incl (gs_greedy G)) as [G1 _].
    exists ms. split; [assumption|]. split; [assumption|]. split.
    + intros row col Hin.
      assert (Hrow : In row (seq 0 (length (paths t)))).
      { apply G1. apply in_map_iff. exists (row, col). auto. }
      apply in_seq in Hrow.
      assert (L : length (keys (paths t)) = length (paths t)) by apply length_map.
      destruct (nth_error (keys (paths t)) row) as [k|] eqn:Hk;
        [|apply nth_error_None in Hk; lia].
      destruct (gs_hit G row col k Hin Hk) as [h [det [A1 [A2 [A3 A4]]]]].
      exists k, h, det. auto.
    + intros row k h h' Hk Hh Hh'.
      assert (L : length (keys (paths t)) = length (paths t)) by apply length_map.
      assert (Hrow : In row (seq 0 (length (paths t)))).
      { apply in_seq. assert (row < length (keys (paths t)))%nat; [|lia].
        apply nth_error_Some. congruence. }
      apply I5 in Hrow. destruct Hrow as [Hin|Hin].
      * right. apply in_map_iff in Hin. destruct Hin as [[row0 col] [Hfst Hin]].
        simpl in Hfst. subst row0.
        destruct (gs_hit G row col k Hin Hk) as [h0 [det [A1 [A2 [A3 A4]]]]].
        exists col, det. repeat split; try assumption. congruence.
      * left. split; [|intro Hin'; apply (I7 row Hin' Hin)].
        assert (Hkd : In k (keys (disappeared t))).
        { rewrite <- (wf_keys W). eapply nth_error_In; eauto. }
        apply dict_find_keys in Hkd.
        destruct (dict_find k (disappeared t)) as [c|] eqn:Hc; [|congruence].
        assert (A := gs_miss G row k c Hin Hk Hc).
        destruct (max_disappeared t <? c + 1)%Z; destruct A as [A1 A2]; congruence.
Qed.

Lemma general_entry (t : PathTracker) (detections : list Obs)
    distances ms rows' cols' t' (row col : nat) :
  wf t -> general_step t detections distances ms rows' cols' t' ->
  In row (seq 0 (length (paths t))) -> In col (seq 0 (length detections)) ->
  exists k h p det d,
    nth_error (keys (paths t)) row = Some k /\ dict_find k (paths t) = Some h /\
    py_last h = Ok p /\ nth_error detections col = Some det /\
    np_dist p det = Ok d /\ matrix_get distances row col = Ok d.
Proof.
  intros W G Hrow Hcol. apply in_seq in Hrow, Hcol.
  assert (L : length (keys (paths t)) = length (paths t)) by apply length_map.
  destruct (nth_error (keys (paths t)) row) as [k|] eqn:Hk;
    [|apply nth_error_None in Hk; lia].
  destruct (nth_error detections col) as [det|] eqn:Hdet;
    [|apply nth_error_None in Hdet; lia].
  assert (Hin : In k (keys (paths t))) by (eapply nth_error_In; eauto).
  apply dict_find_keys in Hin.
  destruct (dict_find k (paths t)) as [h|] eqn:Hh; [|congruence].
  destruct (gs_dist G row col k h det Hk Hh Hdet) as [p [d [A1 [A2 A3]]]].
  exists k, h, p, det, d. repeat split; assumption.
Qed.

Lemma threshold_general (t : PathTracker) (detections : list Obs) m t' :
  wf t -> detections <> [] -> paths t <> [] ->
  update t detections = Ok (m, t') ->
  (forall k h p det d,
      dict_find k (paths t) = Some h -> py_last h = Ok p ->
      np_dist p det = Ok d -> (d <? 100)%float = false ->
      dict_find k (paths t') <> Some (h ++ [det])) /\
  (forall row col k h p det d,
      nth_error (keys (paths t)) row = Some k -> dict_find k (paths t) = Some h ->
      py_last h = Ok p -> nth_error detections col = Some det ->
      np_dist p det = Ok d -> (d <? 100)%float = true ->
      (forall row2 col2 k2 h2 p2 det2 d2,
          (row2, col2) <> (row, col) ->
          nth_error (keys (paths t)) row2 = Some k2 ->
          dict_find k2 (paths t) = Some h2 -> py_last h2 = Ok p2 ->
          nth_error detections col2 = Some det2 -> np_dist p2 det2 = Ok d2 ->
          (d <? d2)%float = true) ->
      dict_find k (paths t') = Some (h ++ [det]) /\
      dict_find k (disappeared t') = Some 0%Z).
Proof.
  intros W Hd Hp H.
  destruct (update_general_inv t detections m t' W Hd Hp H)
    as [distances [ms [rows' [cols' G]]]].
  destruct (greedy_partition (gs_greedy G) (seq_NoDup _ _) (seq_NoDup _ _))
    as [I1 [I2 [I3 [I4 [I5 [I6 [I7 [I8 [I9 I10]]]]]]]]].
  assert (L : length (keys (paths t)) = length (paths t)) by apply length_map.
  split.
  - intros k h p det d Hh Hlast Hdist Hfar Happ.
    assert (Hk : In k (keys (paths t))) by (eapply dict_find_Some_keys; eauto).
    apply In_nth_error in Hk. destruct Hk as [row Hrow].
    assert (Hin : In row (seq 0 (length (paths t)))).
    { apply in_seq. assert (row < length (keys (paths t)))%nat; [|lia].
      apply nth_error_Some. congruence. }
    apply I5 in Hin. destruct Hin as [Hin|Hin].
    + apply in_map_iff in Hin. destruct Hin as [[row0 col] [Hfst Hin]].
      simpl in Hfst. subst row0.
      destruct (gs_hit G row col k Hin Hrow) as [h0 [det0 [A1 [A2 [A3 A4]]]]].
      assert (h0 = h) by congruence. subst h0.
      assert (det0 = det).
      { rewrite A3 in Happ. injection Happ as Happ.
        apply app_inj_tail in Happ. tauto. }
      subst det0.
      destruct (greedy_close (gs_greedy G) row col Hin) as [d1 [B1 B2]].
      destruct (gs_dist G row col k h det Hrow Hh A2) as [p' [d' [C1 [C2 C3]]]].
      assert (p' = p) by congruence. subst p'.
      assert (d' = d) by congruence. subst d'.
      assert (d1 = d) by congruence. subst d1. congruence.
    + assert (Hkd : In k (keys (disappeared t))).
      { rewrite <- (wf_keys W). eapply nth_error_In; eauto. }
      apply dict_find_keys in Hkd.
      destruct (dict_find k (disappeared t)) as [c|] eqn:Hc; [|congruence].
      assert (A := gs_miss G row k c Hin Hrow Hc).
      destruct (max_disappeared t <? c + 1)%Z; destruct A as [A1 A2]; [congruence|].
      rewrite A1, Hh in Happ. injection Happ as Happ.
      apply (f_equal (@length Obs)) in Happ. rewrite length_app in Happ.
      simpl in Happ. lia.
  - intros row col k h p det d Hrow Hh Hlast Hdet Hdist Hnear Hmin.
    destruct (gs_dist G row col k h det Hrow Hh Hdet) as [p' [d' [C1 [C2 C3]]]].
    assert (p' = p) by congruence. subst p'.
    assert (d' = d) by congruence. subst d'.
    assert (Hrin : In row (seq 0 (length (paths t)))).
    { apply in_seq. assert (row < length (keys (paths t)))%nat; [|lia].
      apply nth_error_Some. congruence. }
    assert (Hcin : In col (seq 0 (length detections))).
    { apply in_seq. assert (col < length detections)%nat; [|lia].
      apply nth_error_Some. congruence. }
    assert (Hsel : forall i j row0 col0 d0,
               nth_error (seq 0 (length (paths t))) i = Some row0 ->
               nth_error (seq 0 (length detections)) j = Some col0 ->
               matrix_get distances row0 col0 = Ok d0 ->
               smallest distances (seq 0 (length (paths t)))
                        (seq 0 (length detections)) d0 ->
               (row0, col0) = (row, col)).
    { intros i j row0 col0 d0 Hi Hj Hget Hsm.
      destruct (Nat.eq_dec row0 row) as [Er|Hne];
        [destruct (Nat.eq_dec col0 col) as [Ec|Hne]; [congruence|]|];
        exfalso; apply nth_error_In in Hi, Hj;
        destruct (general_entry _ _ _ _ _ _ _ row0 col0 W G Hi Hj)
          as [k2 [h2 [p2 [det2 [d2 [E1 [E2 [E3 [E4 [E5 E6]]]]]]]]]];
        assert (d2 = d0) by congruence; subst d2;
        assert (X : (d <? d0)%float = true)
          by (apply (Hmin row0 col0 k2 h2 p2 det2 d0); try assumption; congruence);
        rewrite (Hsm row col d Hrin Hcin C3) in X; discriminate. }
    assert (Hin : In (row, col) ms).
    { assert (Hg := gs_greedy G).
      inversion Hg as [rows cols Hex|rows cols i j row0 col0 d0 Hi Hj Hget Hsm Hfar
                      |rows cols i j row0 col0 d0 ms0 rows0 cols0 Hi Hj Hget Hsm Hlt Hrest];
        subst.
      - exfalso. destruct Hex as [Hex|Hex]; rewrite Hex in *; contradiction.
      - exfalso. assert (X := Hsel i j row0 col0 d0 Hi Hj Hget Hsm).
        injection X as -> ->. congruence.
      - assert (X := Hsel i j row0 col0 d0 Hi Hj Hget Hsm).
        injection X as -> ->. left. reflexivity. }
    destruct (gs_hit G row col k Hin Hrow) as [h0 [det0 [A1 [A2 [A3 A4]]]]].
    assert (h0 = h) by congruence. subst h0.
    assert (det0 = det) by congruence. subst det0. auto.
Qed.

Lemma SFleb_ltb_trans (a b c : spec_float) :
  SFleb a b = true -> SFltb b c = true -> SFltb a c = true.
Proof.
  unfold SFltb, SFleb, SFcompare.
  destruct a as [sa|sa| |sa ma ea], b as [sb|sb| |sb mb eb],
           c as [sc|sc| |sc mc ec]; F64.order_cases.
Qed.

Lemma leb_ltb_trans (a b c : float) :
  (a <=? b)%float = true -> (b <? c)%float = true -> (a <? c)%float = true.
Proof. rewrite leb_spec, !ltb_spec. apply SFleb_ltb_trans. Qed.

Lemma SFleb_ltb_leb (a b : spec_float) :
  SFleb a b = true -> SFltb a b = false -> SFleb b a = true.
Proof.
  unfold SFltb, SFleb, SFcompare.
  destruct a as [sa|sa| |sa ma ea], b as [sb|sb| |sb mb eb]; F64.order_cases.
Qed.

Lemma leb_ltb_leb (a b : float) :
  (a <=? b)%float = true -> (a <? b)%float = false -> (b <=? a)%float = true.
Proof. rewrite !leb_spec, ltb_spec. apply SFleb_ltb_leb. Qed.

Lemma selected_tied (distances : list (list float)) (rows cols : list nat)
    (row col row0 col0 : nat) (d d0 : float) :
  In row rows -> In col cols -> matrix_get distances row col = Ok d ->
  (forall r c d', In r rows -> In c cols ->
                  matrix_get distances r c = Ok d' -> (d <=? d')%float = true) ->
  In row0 rows -> In col0 cols -> matrix_get distances row0 col0 = Ok d0 ->
  smallest distances rows cols d0 ->
  (d0 <=? d)%float = true /\ (d <=? d0)%float = true.
Proof.
  intros Hr Hc Hget Hmin Hr0 Hc0 Hget0 Hsm.
  assert (L : (d <=? d0)%float = true) by (apply (Hmin row0 col0); assumption).
  split; [|assumption]. apply leb_ltb_leb; [assumption|].
  apply (Hsm row col d Hr Hc Hget).
Qed.

Lemma match_loop_tied_min distances object_ids detections fuel t rows cols
    i j row col d :
  loop_pre distances object_ids detections t rows cols ->
  nth_error rows i = Some row -> nth_error cols j = Some col ->
  matrix_get distances row col = Ok d -> (d <? 100)%float = true ->
  (forall r c d', In r rows -> In c cols ->
                  matrix_get distances r c = Ok d' -> (d <=? d')%float = true) ->
  exists i0 j0 row0 col0 d0 k det h,
    nth_error rows i0 = Some row0 /\ nth_error cols j0 = Some col0 /\
    matrix_get distances row0 col0 = Ok d0 /\
    (d0 <=? d)%float = true /\ (d <=? d0)%float = true /\
    nth_error object_ids row0 = Some k /\ nth_error detections col0 = Some det /\
    dict_find k (paths t) = Some h /\
    match_loop (S fuel) distances object_ids detections t rows cols =
    match_loop fuel distances object_ids detections
      (set_disappeared (dict_set k 0%Z (disappeared t))
         (set_paths (dict_set k (h ++ [det]) (paths t)) t))
      (pop i0 rows) (pop j0 cols).
Proof.
  intros [Hshape Hids Hsame Hnd Hrows Hcols Hrnd] Hi Hj Hget Hlt Hmin.
  assert (Hrne : rows <> []) by (intro E; rewrite E in Hi; destruct i; discriminate).
  assert (Hcne : cols <> []) by (intro E; rewrite E in Hj; destruct j; discriminate).
  destruct (loop_select distances _ _ rows cols Hshape Hrows Hcols Hrne Hcne) as
    [sub [idx [row0 [col0 [d0 [Hsub [Hidx [Hrow [Hcol [Hget0 Hsm]]]]]]]]]].
  assert (Hrin : In row rows) by (eapply nth_error_In; eauto).
  assert (Hcin : In col cols) by (eapply nth_error_In; eauto).
  assert (Hrin0 : In row0 rows) by (eapply nth_error_In; eauto).
  assert (Hcin0 : In col0 cols) by (eapply nth_error_In; eauto).
  destruct (selected_tied distances rows cols row col row0 col0 d d0
              Hrin Hcin Hget Hmin Hrin0 Hcin0 Hget0 Hsm) as [L0 L1].
  assert (Hlt0 : (d0 <? 100)%float = true) by (eapply leb_ltb_trans; eauto).
  assert (Hrlt : (row0 < length object_ids)%nat).
  { rewrite Forall_forall in Hrows. auto. }
  assert (Hclt : (col0 < length detections)%nat).
  { rewrite Forall_forall in Hcols. auto. }
  destruct (py_index_lt object_ids row0 Hrlt) as [k [Ek Ek']].
  destruct (py_index_lt detections col0 Hclt) as [det [Edet Edet']].
  assert (Hkin : In k (keys (paths t))).
  { rewrite Hids. eapply nth_error_In; eauto. }
  apply dict_find_keys in Hkin.
  destruct (dict_find k (paths t)) as [h|] eqn:Eh; [|congruence].
  exists (idx / length cols)%nat, (idx mod length cols)%nat, row0, col0, d0, k, det, h.
  repeat split; try assumption.
  assert (Hgo : (0 <? length rows)%nat && (0 <? length cols)%nat = true).
  { destruct rows; [congruence|]. destruct cols; [congruence|]. reflexivity. }
  apply py_index_Ok in Hrow, Hcol.
  cbn [match_loop]. rewrite Hgo, Hsub. cbn [bind]. rewrite Hidx. cbn [bind].
  rewrite Hrow. cbn [bind]. rewrite Hcol. cbn [bind]. rewrite Hget0. cbn [bind].
  rewrite Hlt0, Ek. cbn [bind]. rewrite Edet. cbn [bind].
  rewrite (commit_Ok t k det h Eh). cbn [bind]. reflexivity.
Qed.

Lemma greedy_tied (distances : list (list float)) rows cols ms rows' cols' :
  greedy distances rows cols ms rows' cols' ->
  forall row col d,
    In row rows -> In col cols ->
    matrix_get distances row col = Ok d -> (d <? 100)%float = true ->
    (forall r c d', In r rows -> In c cols ->
                    matrix_get distances r c = Ok d' -> (d <=? d')%float = true) ->
    exists r c d',
      In (r, c) ms /\ (r = row \/ c = col) /\ In r rows /\ In c cols /\
      matrix_get distances r c = Ok d' /\
      (d' <=? d)%float = true /\ (d <=? d')%float = true.
Proof.
  induction 1 as [rows cols Hex|rows cols i j row0 col0 d0 Hi Hj Hget0 Hsm Hfar
                 |rows cols i j row0 col0 d0 ms rows' cols' Hi Hj Hget0 Hsm Hlt0 Hg IH];
    intros row col d Hr Hc Hget Hlt Hmin.
  - destruct Hex as [-> | ->]; contradiction.
  - exfalso.
    assert (Hr0 : In row0 rows) by (eapply nth_error_In; eauto).
    assert (Hc0 : In col0 cols) by (eapply nth_error_In; eauto).
    destruct (selected_tied distances rows cols row col row0 col0 d d0
                Hr Hc Hget Hmin Hr0 Hc0 Hget0 Hsm) as [L0 _].
    rewrite (leb_ltb_trans d0 d 100 L0 Hlt) in Hfar. discriminate.
  - assert (Hr0 : In row0 rows) by (eapply nth_error_In; eauto).
    assert (Hc0 : In col0 cols) by (eapply nth_error_In; eauto).
    destruct (selected_tied distances rows cols row col row0 col0 d d0
                Hr Hc Hget Hmin Hr0 Hc0 Hget0 Hsm) as [L0 L1].
    destruct (Nat.eq_dec row0 row) as [Er|Nr].
    { exists row0, col0, d0. simpl. repeat split; auto. }
    destruct (Nat.eq_dec col0 col) as [Ec|Nc].
    { exists row0, col0, d0. simpl. repeat split; auto. }
    assert (Hr' : In row (pop i rows)).
    { apply (pop_split i rows row0 Hi row) in Hr. destruct Hr; [congruence|assumption]. }
    assert (Hc' : In col (pop j cols)).
    { apply (pop_split j cols col0 Hj col) in Hc. destruct Hc; [congruence|assumption]. }
    destruct (IH row col d Hr' Hc' Hget Hlt) as [r [c [d' [A1 [A2 [A3 [A4 [A5 [A6 A7]]]]]]]]].
    { intros r c d' Hr2 Hc2. apply Hmin; eapply pop_In; eauto. }
    exists r, c, d'. simpl. repeat split; auto; eapply pop_In; eauto.
Qed.

Lemma tied_general (t : PathTracker) (detections : list Obs) m t' :
  wf t -> update t detections = Ok (m, t') ->
  forall row col k h p det d,
    nth_error (keys (paths t)) row = Some k -> dict_find k (paths t) = Some h ->
    py_last h = Ok p -> nth_error detections col = Some det ->
    np_dist p det = Ok d -> (d <? 100)%float = true ->
    (forall row2 col2 k2 h2 p2 det2 d2,
        nth_error (keys (paths t)) row2 = Some k2 ->
        dict_find k2 (paths t) = Some h2 -> py_last h2 = Ok p2 ->
        nth_error detections col2 = Some det2 -> np_dist p2 det2 = Ok d2 ->
        (d <=? d2)%float = true) ->
    exists row2 col2 k2 h2 p2 det2 d2,
      (row2 = row \/ col2 = col) /\
      nth_error (keys (paths t)) row2 = Some k2 /\
      dict_find k2 (paths t) = Some h2 /\ py_last h2 = Ok p2 /\
      nth_error detections col2 = Some det2 /\ np_dist p2 det2 = Ok d2 /\
      (d2 <=? d)%float = true /\ (d <=? d2)%float = true /\
      dict_find k2 (paths t') = Some (h2 ++ [det2]) /\
      dict_find k2 (disappeared t') = Some 0%Z.
Proof.
  intros W H row col k h p det d Hrow Hh Hlast Hdet Hdist Hnear Hmin.
  assert (Hd : detections <> []).
  { intro E. rewrite E in Hdet. destruct col; discriminate. }
  assert (Hp : paths t <> []).
  { intro E. rewrite E in Hrow. destruct row; discriminate. }
  destruct (update_general_inv t detections m t' W Hd Hp H)
    as [distances [ms [rows' [cols' G]]]].
  assert (L : length (keys (paths t)) = length (paths t)) by apply length_map.
  destruct (gs_dist G row col k h det Hrow Hh Hdet) as [p' [d' [C1 [C2 C3]]]].
  assert (p' = p) by congruence. subst p'.
  assert (d' = d) by congruence. subst d'.
  assert (Hrin : In row (seq 0 (length (paths t)))).
  { apply in_seq. assert (row < length (keys (paths t)))%nat; [|lia].
    apply nth_error_Some. congruence. }
  assert (Hcin : In col (seq 0 (length detections))).
  { apply in_seq. assert (col < length detections)%nat; [|lia].
    apply nth_error_Some. congruence. }
  destruct (greedy_tied _ _ _ _ _ _ (gs_greedy G) row col d Hrin Hcin C3 Hnear)
    as [r [c [d2 [A1 [A2 [A3 [A4 [A5 [A6 A7]]]]]]]]].
  { intros r c d2 Hr Hc Hget.
    destruct (general_entry _ _ _ _ _ _ _ r c W G Hr Hc)
      as [k2 [h2 [p2 [det2 [d3 [E1 [E2 [E3 [E4 [E5 E6]]]]]]]]]].
    assert (d3 = d2) by congruence. subst d3.
    apply (Hmin r c k2 h2 p2 det2 d2); assumption. }
  destruct (general_entry _ _ _ _ _ _ _ r c W G A3 A4)
    as [k2 [h2 [p2 [det2 [d3 [E1 [E2 [E3 [E4 [E5 E6]]]]]]]]]].
  assert (d3 = d2) by congruence. subst d3.
  destruct (gs_hit G r c k2 A1 E1) as [h0 [det0 [B1 [B2 [B3 B4]]]]].
  assert (h0 = h2) by congruence. subst h0.
  assert (det0 = det2) by congruence. subst det0.
  exists r, c, k2, h2, p2, det2, d2. repeat split; assumption.
Qed.

Lemma match_loop_strict_min distances object_ids detections fuel t rows cols
    i j row col d :
  loop_pre distances object_ids detections t rows cols -> NoDup cols ->
  nth_error rows i = Some row -> nth_error cols j = Some col ->
  matrix_get distances row col = Ok d -> (d <? 100)%float = true ->
  (forall r c d', In r rows -> In c cols -> (r, c) <> (row, col) ->
                  matrix_get distances r c = Ok d' -> (d <? d')%float = true) ->
  exists k det h,
    nth_error object_ids row = Some k /\ nth_error detections col = Some det /\
    dict_find k (paths t) = Some h /\
    match_loop (S fuel) distances object_ids detections t rows cols =
    match_loop fuel distances object_ids detections
      (set_disappeared (dict_set k 0%Z (disappeared t))
         (set_paths (dict_set k (h ++ [det]) (paths t)) t))
      (pop i rows) (pop j cols).
Proof.
  intros [Hshape Hids Hsame Hnd Hrows Hcols Hrnd] Hcnd Hi Hj Hget Hlt Hmin.
  assert (Hrne : rows <> []) by (intro E; rewrite E in Hi; destruct i; discriminate).
  assert (Hcne : cols <> []) by (intro E; rewrite E in Hj; destruct j; discriminate).
  destruct (loop_select distances _ _ rows cols Hshape Hrows Hcols Hrne Hcne) as
    [sub [idx [row0 [col0 [d0 [Hsub [Hidx [Hrow [Hcol [Hget0 Hsm]]]]]]]]]].
  assert (Hrin : In row rows) by (eapply nth_error_In; eauto).
  assert (Hcin : In col cols) by (eapply nth_error_In; eauto).
  assert (Hsame_pair : (row0, col0) = (row, col)).
  { destruct (Nat.eq_dec row0 row) as [Er|Hne];
      [destruct (Nat.eq_dec col0 col) as [Ec|Hne]; [congruence|]|];
      exfalso;
      assert (X : (d <? d0)%float = true)
        by (apply (Hmin row0 col0 d0); try assumption;
            try (eapply nth_error_In; eauto); congruence);
      rewrite (Hsm row col d Hrin Hcin Hget) in X; discriminate. }
  injection Hsame_pair as -> ->.
  assert (d0 = d) by congruence. subst d0.
  assert (Ei : (idx / length cols)%nat = i)
    by exact (nth_error_inj rows _ i row Hrnd Hrow Hi).
  assert (Ej : (idx mod length cols)%nat = j)
    by exact (nth_error_inj cols _ j col Hcnd Hcol Hj).
  assert (Hrlt : (row < length object_ids)%nat).
  { rewrite Forall_forall in Hrows. auto. }
  assert (Hclt : (col < length detections)%nat).
  { rewrite Forall_forall in Hcols. auto. }
  destruct (py_index_lt object_ids row Hrlt) as [k [Ek Ek']].
  destruct (py_index_lt detections col Hclt) as [det [Edet Edet']].
  assert (Hkin : In k (keys (paths t))).
  { rewrite Hids. eapply nth_error_In; eauto. }
  apply dict_find_keys in Hkin.
  destruct (dict_find k (paths t)) as [h|] eqn:Eh; [|congruence].
  exists k, det, h. repeat split; try assumption.
  assert (Hgo : (0 <? length rows)%nat && (0 <? length cols)%nat = true).
  { destruct rows; [congruence|]. destruct cols; [congruence|]. reflexivity. }
  apply py_index_Ok in Hrow, Hcol.
  cbn [match_loop]. rewrite Hgo, Hsub. cbn [bind]. rewrite Hidx. cbn [bind].
  rewrite Hrow. cbn [bind]. rewrite Hcol. cbn [bind]. rewrite Hget. cbn [bind].
  rewrite Hlt, Ek. cbn [bind]. rewrite Edet. cbn [bind].
  rewrite (commit_Ok t k det h Eh). cbn [bind]. rewrite Ei, Ej. reflexivity.
Qed.

Lemma far_never_appended (t : PathTracker) (detections : list Obs) m t'
    k h p det d :
  wf t -> update t detections = Ok (m, t') ->
  dict_find k (paths t) = Some h -> py_last h = Ok p ->
  np_dist p det = Ok d -> (d <? 100)%float = false ->
  dict_find k (paths t') <> Some (h ++ [det]).
Proof.
  intros W H Hh Hlast Hdist Hfar.
  destruct (update_inv t detections m t' W H)
    as [_ [[E S]|[[_ [Hp E]]|[Hd [Hp _]]]]].
  - intro Happ.
    assert (Hkd : In k (keys (disappeared t))).
    { rewrite <- (wf_keys W). eapply dict_find_Some_keys; eauto. }
    apply dict_find_keys in Hkd as Hc.
    destruct (dict_find k (disappeared t)) as [c|] eqn:Ec; [|congruence].
    assert (A := ag_in S k c Hkd Ec).
    destruct (max_disappeared t <? c + 1)%Z; destruct A as [A1 A2]; [congruence|].
    rewrite A1, Hh in Happ. injection Happ as Happ.
    apply (f_equal (@length Obs)) in Happ. rewrite length_app in Happ.
    simpl in Happ. lia.
  - rewrite Hp in Hh. discriminate.
  - destruct (threshold_general t detections m t' W Hd Hp H) as [HA _].
    apply (HA k h p det d); assumption.
Qed.

(** C6.  The threshold test is strict, and among tied pairs only one is
    taken.  In every call, a detection whose distance to the last
    observation of a track is not strictly below 100 (exactly 100 in
    particular) is never appended to that track.  At every iteration of the
    matching loop, a remaining pair whose distance is strictly below 100 and
    strictly below the distance of every other remaining pair is committed
    by that iteration, and the loop goes on without its row and its column;
    over a whole call, such a pair among all pairs ends with the detection
    appended to the track and the missed counter of the track at 0.  When
    the pair is only minimal, no remaining pair being closer, the iteration
    commits a remaining pair at the same distance, which need not be this
    one; over a whole call the track or the detection of a minimal pair
    below 100 is matched, in a pair at the same distance. *)
Theorem threshold_is_strict :
  (forall t detections m t' k h p det d,
      wf t -> update t detections = Ok (m, t') ->
      dict_find k (paths t) = Some h -> py_last h = Ok p ->
      np_dist p det = Ok d -> (d <? 100)%float = false ->
      dict_find k (paths t') <> Some (h ++ [det])) /\
  (forall distances object_ids detections fuel t rows cols i j row col d,
      loop_pre distances object_ids detections t rows cols -> NoDup cols ->
      nth_error rows i = Some row -> nth_error cols j = Some col ->
      matrix_get distances row col = Ok d -> (d <? 100)%float = true ->
      (forall r c d', In r rows -> In c cols -> (r, c) <> (row, col) ->
                      matrix_get distances r c = Ok d' -> (d <? d')%float = true) ->
      exists k det h,
        nth_error object_ids row = Some k /\ nth_error detections col = Some det /\
        dict_find k (paths t) = Some h /\
        match_loop (S fuel) distances object_ids detections t rows cols =
        match_loop fuel distances object_ids detections
          (set_disappeared (dict_set k 0%Z (disappeared t))
             (set_paths (dict_set k (h ++ [det]) (paths t)) t))
          (pop i rows) (pop j cols)) /\
  (forall t detections m t' row col k h p det d,
      wf t -> detections <> [] -> paths t <> [] ->
      update t detections = Ok (m, t') ->
      nth_error (keys (paths t)) row = Some k -> dict_find k (paths t) = Some h ->
      py_last h = Ok p -> nth_error detections col = Some det ->
      np_dist p det = Ok d -> (d <? 100)%float = true ->
      (forall row2 col2 k2 h2 p2 det2 d2,
          (row2, col2) <> (row, col) ->
          nth_error (keys (paths t)) row2 = Some k2 ->
          dict_find k2 (paths t) = Some h2 -> py_last h2 = Ok p2 ->
          nth_error detections col2 = Some det2 -> np_dist p2 det2 = Ok d2 ->
          (d <? d2)%float = true) ->
      dict_find k (paths t') = Some (h ++ [det]) /\
      dict_find k (disappeared t') = Some 0%Z) /\
  (forall distances object_ids detections fuel t rows cols i j row col d,
      loop_pre distances object_ids detections t rows cols ->
      nth_error rows i = Some row -> nth_error cols j = Some col ->
      matrix_get distances row col = Ok d -> (d <? 100)%float = true ->
      (forall r c d', In r rows -> In c cols ->
                      matrix_get distances r c = Ok d' -> (d <=? d')%float = true) ->
      exists i0 j0 row0 col0 d0 k det h,
        nth_error rows i0 = Some row0 /\ nth_error cols j0 = Some col0 /\
        matrix_get distances row0 col0 = Ok d0 /\
        (d0 <=? d)%float = true /\ (d <=? d0)%float = true /\
        nth_error object_ids row0 = Some k /\ nth_error detections col0 = Some det /\
        dict_find k (paths t) = Some h /\
        match_loop (S fuel) distances object_ids detections t rows cols =
        match_loop fuel distances object_ids detections
          (set_disappeared (dict_set k 0%Z (disappeared t))
             (set_paths (dict_set k (h ++ [det]) (paths t)) t))
          (pop i0 rows) (pop j0 cols)) /\
  (forall t detections m t' row col k h p det d,
      wf t -> update t detections = Ok (m, t') ->
      nth_error (keys (paths t)) row = Some k -> dict_find k (paths t) = Some h ->
      py_last h = Ok p -> nth_error detections col = Some det ->
      np_dist p det = Ok d -> (d <? 100)%float = true ->
      (forall row2 col2 k2 h2 p2 det2 d2,
          nth_error (keys (paths t)) row2 = Some k2 ->
          dict_find k2 (paths t) = Some h2 -> py_last h2 = Ok p2 ->
          nth_error detections col2 = Some det2 -> np_dist p2 det2 = Ok d2 ->
          (d <=? d2)%float = true) ->
      exists row2 col2 k2 h2 p2 det2 d2,
        (row2 = row \/ col2 = col) /\
        nth_error (keys (paths t)) row2 = Some k2 /\
        dict_find k2 (paths t) = Some h2 /\ py_last h2 = Ok p2 /\
        nth_error detections col2 = Some det2 /\ np_dist p2 det2 = Ok d2 /\
        (d2 <=? d)%float = true /\ (d <=? d2)%float = true /\
        dict_find k2 (paths t') = Some (h2 ++ [det2]) /\
        dict_find k2 (disappeared t') = Some 0%Z).
Proof.
  split; [|split; [|split; [|split]]].
  - intros t detections m t' k h p det d. apply far_never_appended.
  - intros distances object_ids detections fuel t rows cols i j row col d.
    apply match_loop_strict_min.
  - intros t detections m t' row col k h p det d W Hd Hp H.
    destruct (threshold_general t detections m t' W Hd Hp H) as [_ HB].
    apply HB.
  - intros distances object_ids detections fuel t rows cols i j row col d.
    apply match_loop_tied_min.
  - intros t detections m t' row col k h p det d W H.
    apply (tied_general t detections m t' W H).
Qed.

(** ** When [update] fails *)

Lemma np_dist_positioned (p q : Obs) :
  positioned p -> positioned q -> exists d, np_dist p q = Ok d.
Proof.
  unfold positioned, np_dist, np_sub. intros Hp Hq.
  destruct p as [|x [|y p]]; simpl in Hp; try lia.
  destruct q as [|u [|v q]]; simpl in Hq; try lia.
  simpl. eauto.
Qed.

Lemma np_dist_Raise (p q : Obs) (e : exn) :
  np_dist p q = Raise e ->
  e = ValueError /\
  ((2 <= length p)%nat /\ q = [] \/ p = [] /\ (2 <= length q)%nat).
Proof.
  unfold np_dist, np_sub.
  destruct p as [|x [|y p]]; destruct q as [|u [|v q]]; simpl;
    intro H; try discriminate; injection H as <-; split; auto; simpl.
  - right. split; [reflexivity|lia].
  - left. split; [lia|reflexivity].
Qed.

Lemma mapM_Raise {A B : Type} (f : A -> result B) (l : list A) (e : exn) :
  mapM f l = Raise e -> exists a, In a l /\ f a = Raise e.
Proof.
  induction l as [|a l IH]; simpl; [discriminate|].
  destruct (f a) as [b|e'] eqn:Ea; simpl.
  - destruct (mapM f l) as [bs|e'']; simpl; [discriminate|].
    intro H. injection H as ->. destruct IH as [a' [Hin Ha']]; [reflexivity|].
    exists a'. auto.
  - intro H. injection H as ->. exists a. auto.
Qed.

(** [update] succeeds whenever the distance matrix can be computed. *)
Lemma update_total (t : PathTracker) (detections : list Obs) :
  wf t ->
  (forall k h p, dict_find k (paths t) = Some h -> py_last h = Ok p -> positioned p) ->
  Forall positioned detections ->
  exists t', update t detections = Ok (paths t', t').
Proof.
  intros W Hpos Hdets. destruct detections as [|d ds] eqn:Ed.
  - destruct (update_empty t W) as [t' [E _]]. eauto.
  - rewrite <- Ed in *. assert (Hne : detections <> []) by (subst; discriminate).
    destruct (Nat.eq_dec (length (paths t)) 0) as [Hz|Hnz].
    + apply length_zero_iff_nil in Hz. eexists. apply update_cold; assumption.
    + assert (Hpne : paths t <> []) by (intro X; rewrite X in Hnz; auto).
      destruct (previous_centroids_Ok t W) as [cs [Hcs [Hlen Hprev]]].
      destruct (mapM_total (fun prev => mapM (np_dist prev) detections) cs)
        as [distances Hdist].
      { intros prev Hin. apply mapM_total. intros det Hdet.
        apply np_dist_positioned; [|rewrite Forall_forall in Hdets; auto].
        apply In_nth_error in Hin. destruct Hin as [row Hrow].
        assert (Hlt : (row < length (keys (paths t)))%nat).
        { unfold keys. rewrite length_map, <- Hlen. apply nth_error_Some. congruence. }
        destruct (nth_error (keys (paths t)) row) as [k|] eqn:Hk;
          [|apply nth_error_None in Hk; lia].
        assert (Hin : In k (keys (paths t))) by (eapply nth_error_In; eauto).
        apply dict_find_keys in Hin.
        destruct (dict_find k (paths t)) as [h|] eqn:Hh; [|congruence].
        destruct (Hprev row k h Hk Hh) as [p' [E1 E2]].
        assert (p' = prev) by congruence. subst p'. eapply Hpos; eauto. }
      destruct (update_general t detections W Hne Hpne cs distances Hcs Hdist)
        as [ms [rows' [cols' [t' [U _]]]]].
      eauto.
Qed.

Lemma update_only_ValueError (t : PathTracker) (detections : list Obs) (e : exn) :
  wf t -> update t detections = Raise e -> e = ValueError.
Proof.
  intros W H. destruct detections as [|d ds] eqn:Ed.
  - destruct (update_empty t W) as [t' [E _]]. congruence.
  - rewrite <- Ed in *. assert (Hne : detections <> []) by (subst; discriminate).
    destruct (Nat.eq_dec (length (paths t)) 0) as [Hz|Hnz].
    + apply length_zero_iff_nil in Hz.
      rewrite update_cold in H by assumption. discriminate.
    + assert (Hpne : paths t <> []) by (intro X; rewrite X in Hnz; auto).
      destruct (previous_centroids_Ok t W) as [cs [Hcs _]].
      destruct (distance_matrix cs detections) as [distances|e'] eqn:Hdist.
      * destruct (update_general t detections W Hne Hpne cs distances Hcs Hdist)
          as [ms [rows' [cols' [t' [U _]]]]].
        congruence.
      * assert (C1 : Nat.eqb (length detections) 0 = false).
        { destruct detections; [congruence|reflexivity]. }
        assert (C2 : Nat.eqb (length (paths t)) 0 = false).
        { destruct (paths t); [congruence|reflexivity]. }
        unfold update in H. rewrite C1, C2, Hcs in H. cbn [bind] in H.
        rewrite Hdist in H. cbn [bind] in H. injection H as <-.
        unfold distance_matrix in Hdist.
        apply mapM_Raise in Hdist. destruct Hdist as [prev [_ Hdist]].
        apply mapM_Raise in Hdist. destruct Hdist as [det [_ Hdist]].
        apply np_dist_Raise in Hdist. tauto.
Qed.

(** ** Speed *)

Lemma div_by_zero (x : float) :
  (x / 0 =? 0)%float = false /\
  (is_nan (x / 0) || is_infinity (x / 0))%float = true.
Proof.
  unfold is_nan, is_infinity.
  rewrite !eqb_spec, abs_spec, div_spec.
  change (Prim2SF 0%float) with (S754_zero false).
  change (Prim2SF infinity) with (S754_infinity false).
  destruct (Prim2SF x) as [s|s| |s m e]; try destruct s; split; reflexivity.
Qed.

(** C8, as the code has it.  With fewer than two points [calculate_speed]
    returns 0 whatever the time interval.  With two or more points it
    returns the distance between the last two points divided by the time
    interval, with no test of the interval: for a zero interval the result
    is an infinity or a NaN, never zero. *)
Theorem calculate_speed_cases :
  (forall points time_diff,
      (length points < 2)%nat -> calculate_speed points time_diff = 0%float) /\
  (forall points p1 p2 time_diff,
      calculate_speed (points ++ [p1; p2]) time_diff =
      (np_hypot (fst p2 - fst p1) (snd p2 - snd p1) / time_diff)%float) /\
  (forall points p1 p2,
      (calculate_speed (points ++ [p1; p2]) 0 =? 0)%float = false /\
      (is_nan (calculate_speed (points ++ [p1; p2]) 0)
       || is_infinity (calculate_speed (points ++ [p1; p2]) 0))%bool = true).
Proof.
  assert (H2 : forall points p1 p2 time_diff,
      calculate_speed (points ++ [p1; p2]) time_diff =
      (np_hypot (fst p2 - fst p1) (snd p2 - snd p1) / time_diff)%float).
  { intros points p1 p2 time_diff. unfold calculate_speed.
    assert (L : (length (points ++ [p1; p2]) <? 2)%nat = false).
    { apply Nat.ltb_ge. rewrite length_app. simpl. lia. }
    rewrite L, rev_app_distr. reflexivity. }
  split; [|split].
  - intros points time_diff H. unfold calculate_speed.
    apply Nat.ltb_lt in H. rewrite H. reflexivity.
  - exact H2.
  - intros points p1 p2. rewrite H2. apply div_by_zero.
Qed.

(** C8 as stated fails: two points 5 units apart and a zero time interval
    give an infinite speed, not 0. *)
Lemma calculate_speed_zero_time :
  calculate_speed [(0, 0); (3, 4)]%float 0 = infinity /\
  (calculate_speed [(0, 0); (3, 4)]%float 0 =? 0)%float = false /\
  is_nan (calculate_speed [(1, 1); (1, 1)]%float 0) = true.
Proof. repeat split. Qed.

(** ** Observations without position fields *)

(** C9, as the code has it.  [update] does not check its observations and
    has no invalid-input error.  On a tracker without live tracks every list
    of observations is accepted, and each of them, whatever its length,
    seeds a track.  In the general case the distance is computed by
    broadcasting over the first two fields: an observation with a single
    field is stretched over both coordinates, and the only failure is
    numpy's [ValueError], raised exactly when a position of two fields meets
    an observation without fields. *)
Theorem observations_unchecked :
  (forall t detections,
      wf t -> paths t = [] ->
      exists t', update t detections = Ok (paths t', t') /\
                 forall i d, nth_error detections i = Some d ->
                   dict_find (next_id t + Z.of_nat i)%Z (paths t') = Some [d]) /\
  (forall x y z rest rest',
      np_dist (x :: y :: rest) (z :: rest') =
      match rest' with
      | [] => Ok (np_norm [x - z; y - z]%float)
      | z' :: _ => Ok (np_norm [x - z; y - z']%float)
      end) /\
  (forall p q e,
      np_dist p q = Raise e <->
      e = ValueError /\
      ((2 <= length p)%nat /\ q = [] \/ p = [] /\ (2 <= length q)%nat)) /\
  (forall t detections e,
      wf t -> update t detections = Raise e -> e = ValueError).
Proof.
  split; [|split; [|split]].
  - intros t detections W Hp. assert (Hd := wf_empty_paths t W Hp).
    assert (E := seed_fold detections t). rewrite Hp, Hd in E.
    specialize (E (Forall_nil _) (Forall_nil _)). simpl in E.
    exists (fold_left seed detections t). split.
    + destruct detections as [|d ds].
      * unfold update. rewrite Hd. reflexivity.
      * apply update_cold; [discriminate|assumption].
    + intros i d Hi. rewrite E. simpl.
      apply (dict_find_new_tracks detections (next_id t) i d Hi).
  - intros x y z rest rest'. destruct rest' as [|z' rest']; reflexivity.
  - intros p q e. split; [apply np_dist_Raise|].
    intros [-> [[Hp ->]|[-> Hq]]].
    + destruct p as [|x [|y p]]; simpl in Hp; try lia. reflexivity.
    + destruct q as [|x [|y q]]; simpl in Hq; try lia. reflexivity.
  - intros t detections e. apply update_only_ValueError.
Qed.

Lemma wf_one_duck : wf one_duck.
Proof. apply (wf_run_init [[[0; 0; 0.5; 0]%float]]). reflexivity. Qed.

(** C9 as stated fails: an observation with a single field is accepted on a
    new tracker and seeds track 0; given to a tracker with a live track at
    the origin, it is stretched to the position (7, 7), found 9.9 away, and
    appended to that track. *)
Lemma malformed_observation_accepted :
  update init [[7]%float] =
    Ok ([(0%Z, [[7]%float])],
        {| paths := [(0%Z, [[7]%float])]; disappeared := [(0%Z, 0%Z)];
           next_id := 1; max_disappeared := 10 |}) /\
  update one_duck [[7]%float] =
    Ok ([(0%Z, [[0; 0; 0.5; 0]; [7]]%float)],
        {| paths := [(0%Z, [[0; 0; 0.5; 0]; [7]]%float)];
           disappeared := [(0%Z, 0%Z)];
           next_id := 1; max_disappeared := 10 |}).
Proof. split; vm_compute; reflexivity. Qed.

(** ** The properties on concrete trackers *)

Lemma wf_two_ducks : wf two_ducks.
Proof.
  apply (wf_run_init [[[0; 0; 0.5; 0]%float; [200; 0; 0.5; 0]%float]]). reflexivity.
Qed.

Lemma init_is_empty : empty_tracker init.
Proof. repeat split. simpl. lia. Qed.

Lemma missed_counter_bound_witness :
  run init [[[0; 0; 0.5; 0]%float]] = Ok one_duck /\
  (forall k, dict_find k (paths one_duck) <> None <->
             exists c, dict_find k (disappeared one_duck) = Some c /\
                       (0 <= c <= max_disappeared one_duck)%Z) /\
  (forall detections m t' k h c,
      update one_duck detections = Ok (m, t') ->
      dict_find k (paths one_duck) = Some h ->
      dict_find k (disappeared one_duck) = Some c ->
      unmatched k one_duck t' ->
      if (max_disappeared one_duck <? c + 1)%Z
      then dict_find k (paths t') = None /\ dict_find k (disappeared t') = None
      else dict_find k (paths t') = Some h /\
           dict_find k (disappeared t') = Some (c + 1)%Z) /\
  (forall k n t',
      dict_find k (paths one_duck) <> None -> missed_run k one_duck n t' ->
      (max_disappeared one_duck < Z.of_nat n)%Z ->
      forall frames' t'', run t' frames' = Ok t'' ->
        dict_find k (paths t'') = None /\ dict_find k (disappeared t'') = None).
Proof.
  split; [reflexivity|].
  apply (missed_counter_bound init [[[0; 0; 0.5; 0]%float]] one_duck init_is_empty).
  reflexivity.
Defined.

Lemma update_two_ducks :
  update two_ducks [[3; 4; 0.5; 0]; [500; 500; 0.5; 0]]%float
  = Ok (paths two_ducks_next, two_ducks_next).
Proof. vm_compute. reflexivity. Qed.

Lemma greedy_matching_witness :
  update two_ducks [[3; 4; 0.5; 0]; [500; 500; 0.5; 0]]%float
    = Ok (paths two_ducks_next, two_ducks_next) /\
  exists distances ms rows' cols',
    greedy distances (seq 0 (length (paths two_ducks))) (seq 0 2) ms rows' cols' /\
    (forall row col k,
        In (row, col) ms -> nth_error (keys (paths two_ducks)) row = Some k ->
        exists h det,
          dict_find k (paths two_ducks) = Some h /\
          nth_error [[3; 4; 0.5; 0]; [500; 500; 0.5; 0]]%float col = Some det /\
          dict_find k (paths two_ducks_next) = Some (h ++ [det]) /\
          dict_find k (disappeared two_ducks_next) = Some 0%Z) /\
    next_id two_ducks_next = (next_id two_ducks + Z.of_nat (length cols'))%Z.
Proof.
  split; [exact update_two_ducks|].
  destruct (greedy_matching two_ducks [[3; 4; 0.5; 0]; [500; 500; 0.5; 0]]%float
              (paths two_ducks_next) two_ducks_next wf_two_ducks)
    as [distances [ms [rows' [cols' [_ [Hg [Hhit [_ Hn]]]]]]]];
    [discriminate|discriminate|exact update_two_ducks|].
  exists distances, ms, rows', cols'. split; [exact Hg|]. split; [exact Hhit|exact Hn].
Defined.

Lemma one_to_one_matching_witness :
  update two_ducks [[3; 4; 0.5; 0]; [500; 500; 0.5; 0]]%float
    = Ok (paths two_ducks_next, two_ducks_next) /\
  exists ms : list (nat * nat),
    NoDup (map fst ms) /\ NoDup (map snd ms) /\
    (forall row col, In (row, col) ms ->
        exists k h det,
          nth_error (keys (paths two_ducks)) row = Some k /\
          dict_find k (paths two_ducks) = Some h /\
          nth_error [[3; 4; 0.5; 0]; [500; 500; 0.5; 0]]%float col = Some det /\
          dict_find k (paths two_ducks_next) = Some (h ++ [det])) /\
    (forall row k h h',
        nth_error (keys (paths two_ducks)) row = Some k ->
        dict_find k (paths two_ducks) = Some h ->
        dict_find k (paths two_ducks_next) = Some h' ->
        (h' = h /\ ~ In row (map fst ms)) \/
        (exists col det,
            In (row, col) ms /\
            nth_error [[3; 4; 0.5; 0]; [500; 500; 0.5; 0]]%float col = Some det /\
            h' = h ++ [det])).
Proof.
  split; [exact update_two_ducks|].
  exact (one_to_one_matching two_ducks [[3; 4; 0.5; 0]; [500; 500; 0.5; 0]]%float
           (paths two_ducks_next) two_ducks_next wf_two_ducks update_two_ducks).
Defined.

Lemma update_one_duck_far :
  update one_duck [[100; 0; 0.5; 0]%float] = Ok (paths one_duck_far, one_duck_far).
Proof. vm_compute. reflexivity. Qed.

Lemma update_one_duck_tied :
  update one_duck [[5; 0; 0.5; 0]; [-5; 0; 0.5; 0]]%float
  = Ok (paths one_duck_tied, one_duck_tied).
Proof. vm_compute. reflexivity. Qed.

Lemma one_duck_tied_minimal (row2 col2 : nat) (k2 : Z) (h2 : list Obs)
    (p2 det2 : Obs) (d2 : float) :
  nth_error (keys (paths one_duck)) row2 = Some k2 ->
  dict_find k2 (paths one_duck) = Some h2 -> py_last h2 = Ok p2 ->
  nth_error [[5; 0; 0.5; 0]; [-5; 0; 0.5; 0]]%float col2 = Some det2 ->
  np_dist p2 det2 = Ok d2 -> (5 <=? d2)%float = true.
Proof.
  intros Hk Hh Hl Hd Hdist.
  destruct row2 as [|row2]; [|destruct row2; discriminate].
  simpl in Hk. injection Hk as <-. simpl in Hh. injection Hh as <-.
  unfold py_last in Hl. simpl in Hl. injection Hl as <-.
  destruct col2 as [|[|col2]]; simpl in Hd;
    [injection Hd as <-|injection Hd as <-|destruct col2; discriminate];
    vm_compute in Hdist; injection Hdist as <-; reflexivity.
Qed.

Lemma threshold_is_strict_witness :
  update one_duck [[100; 0; 0.5; 0]%float] = Ok (paths one_duck_far, one_duck_far) /\
  dict_find 0%Z (paths one_duck) = Some [[0; 0; 0.5; 0]%float] /\
  np_dist [0; 0; 0.5; 0]%float [100; 0; 0.5; 0]%float = Ok 100%float /\
  (100 <? 100)%float = false /\
  dict_find 0%Z (paths one_duck_far)
    <> Some ([[0; 0; 0.5; 0]%float] ++ [[100; 0; 0.5; 0]%float]) /\
  exists row2 col2 k2 h2 p2 det2 d2,
    (row2 = 0%nat \/ col2 = 1%nat) /\
    nth_error (keys (paths one_duck)) row2 = Some k2 /\
    dict_find k2 (paths one_duck) = Some h2 /\ py_last h2 = Ok p2 /\
    nth_error [[5; 0; 0.5; 0]; [-5; 0; 0.5; 0]]%float col2 = Some det2 /\
    np_dist p2 det2 = Ok d2 /\
    (d2 <=? 5)%float = true /\ (5 <=? d2)%float = true /\
    dict_find k2 (paths one_duck_tied) = Some (h2 ++ [det2]) /\
    dict_find k2 (disappeared one_duck_tied) = Some 0%Z.
Proof.
  split; [exact update_one_duck_far|]. split; [reflexivity|].
  split; [reflexivity|]. split; [reflexivity|]. split.
  - exact (proj1 threshold_is_strict one_duck [[100; 0; 0.5; 0]%float]
             (paths one_duck_far) one_duck_far 0%Z [[0; 0; 0.5; 0]%float]
             [0; 0; 0.5; 0]%float [100; 0; 0.5; 0]%float 100%float
             wf_one_duck update_one_duck_far eq_refl eq_refl eq_refl eq_refl).
  - exact (proj2 (proj2 (proj2 (proj2 threshold_is_strict)))
             one_duck [[5; 0; 0.5; 0]; [-5; 0; 0.5; 0]]%float
             (paths one_duck_tied) one_duck_tied 0%nat 1%nat 0%Z
             [[0; 0; 0.5; 0]%float] [0; 0; 0.5; 0]%float [-5; 0; 0.5; 0]%float
             5%float wf_one_duck update_one_duck_tied
             eq_refl eq_refl eq_refl eq_refl eq_refl eq_refl
             one_duck_tied_minimal).
Defined.

(** Two detections at the same distance from the only track: the second
    one is 5 away from it, below the threshold, and no pair is closer, yet
    it is not appended to the track and seeds track 1. *)
Lemma tied_minimal_pair_unmatched :
  update one_duck [[5; 0; 0.5; 0]; [-5; 0; 0.5; 0]]%float
    = Ok (paths one_duck_tied, one_duck_tied) /\
  np_dist [0; 0; 0.5; 0]%float [-5; 0; 0.5; 0]%float = Ok 5%float /\
  (5 <? 100)%float = true /\
  np_dist [0; 0; 0.5; 0]%float [5; 0; 0.5; 0]%float = Ok 5%float /\
  (5 <? 5)%float = false /\
  dict_find 0%Z (paths one_duck_tied)
    = Some [[0; 0; 0.5; 0]; [5; 0; 0.5; 0]]%float /\
  dict_find 0%Z (paths one_duck_tied)
    <> Some ([[0; 0; 0.5; 0]%float] ++ [[-5; 0; 0.5; 0]%float]) /\
  dict_find 1%Z (paths one_duck_tied) = Some [[-5; 0; 0.5; 0]%float].
Proof.
  split; [vm_compute; reflexivity|]. split; [vm_compute; reflexivity|].
  split; [reflexivity|]. split; [vm_compute; reflexivity|].
  split; [reflexivity|]. split; [reflexivity|].
  split; [|reflexivity]. vm_compute. discriminate.
Qed.

(** Half a pixel inside the threshold the detection is appended. *)
Example just_below_threshold :
  np_dist [0; 0; 0.5; 0]%float [99.5; 0; 0.5; 0]%float = Ok 99.5%float /\
  update one_duck [[99.5; 0; 0.5; 0]%float] =
    Ok ([(0%Z, [[0; 0; 0.5; 0]; [99.5; 0; 0.5; 0]]%float)],
        {| paths := [(0%Z, [[0; 0; 0.5; 0]; [99.5; 0; 0.5; 0]]%float)];
           disappeared := [(0%Z, 0%Z)]; next_id := 1; max_disappeared := 10 |}).
Proof. split; vm_compute; reflexivity. Qed.

(** The scenario of the specification, with [max_disappeared] set to 2. *)
Example scenario :
  let duck := [0; 0; 0.5; 0]%float in
  let moved := [10; 10; 0.5; 0]%float in
  let fresh := {| paths := []; disappeared := []; next_id := 0; max_disappeared := 2 |} in
  run fresh [[duck]; [moved]] =
    Ok {| paths := [(0%Z, [duck; moved])]; disappeared := [(0%Z, 0%Z)];
          next_id := 1; max_disappeared := 2 |} /\
  run fresh [[duck]; [moved]; []; []] =
    Ok {| paths := [(0%Z, [duck; moved])]; disappeared := [(0%Z, 2%Z)];
          next_id := 1; max_disappeared := 2 |} /\
  run fresh [[duck]; [moved]; []; []; []] =
    Ok {| paths := []; disappeared := []; next_id := 1; max_disappeared := 2 |}.
Proof. repeat split; vm_compute; reflexivity. Qed.

(** ** More on the tracker: what a caller can rely on *)

Lemma py_last_In {A : Type} (l : list A) (a : A) : py_last l = Ok a -> In a l.
Proof.
  unfold py_last. destruct (rev l) as [|b r] eqn:E; [discriminate|].
  intro H. injection H as ->. apply in_rev. rewrite E. simpl. auto.
Qed.

Lemma update_positioned (t : PathTracker) (detections : list Obs) :
  wf t -> tracks_positioned t -> Forall positioned detections ->
  exists t', update t detections = Ok (paths t', t') /\
             wf t' /\ tracks_positioned t'.
Proof.
  intros W P Hd.
  destruct (update_total t detections W) as [t' U]; [|assumption|].
  { intros k h p Hh Hp. apply (P k h p Hh). apply py_last_In. assumption. }
  destruct (update_summary t detections (paths t') t' W U) as [_ S].
  exists t'. split; [assumption|]. split; [apply (ss_wf S)|].
  intros k h' o Hh' Ho. rewrite Forall_forall in Hd.
  assert (Hin : In k (keys (paths t'))) by (eapply dict_find_Some_keys; eauto).
  destruct (ss_only S k Hin) as [Hold|Hnew].
  - apply dict_find_keys in Hold as Hf.
    destruct (dict_find k (paths t)) as [h|] eqn:Hh; [|congruence].
    rewrite (wf_keys W) in Hold. apply dict_find_keys in Hold.
    destruct (dict_find k (disappeared t)) as [c|] eqn:Hc; [|congruence].
    destruct (ss_old S k h c Hh Hc) as [det Hdet Hp' _|_ Hp' _|_ Hp' _].
    + assert (h' = h ++ [det]) by congruence. subst h'.
      apply in_app_or in Ho. destruct Ho as [Ho|[<-|[]]]; [eapply P; eauto|auto].
    + assert (h' = h) by congruence. subst h'. eapply P; eauto.
    + congruence.
  - destruct (ss_new S k Hnew) as [det [Hdet [Hp' _]]].
    assert (h' = [det]) by congruence. subst h'.
    destruct Ho as [<-|[]]. auto.
Qed.

(** X1.  Fed with observations that carry their two position fields, the
    tracker never raises: from a well-formed tracker whose stored
    observations are positioned, every sequence of frames of positioned
    observations runs to the end, and leaves such a tracker again. *)
Theorem run_never_raises (frames : list (list Obs)) :
  forall t,
    wf t -> tracks_positioned t -> Forall (Forall positioned) frames ->
    exists t', run t frames = Ok t' /\ wf t' /\ tracks_positioned t'.
Proof.
  induction frames as [|dets frames IH]; intros t W P Hf.
  - exists t. simpl. auto.
  - inversion Hf as [|? ? Hd Hrest]; subst.
    destruct (update_positioned t dets W P Hd) as [t1 [U [W1 P1]]].
    destruct (IH t1 W1 P1 Hrest) as [t' [R H']].
    exists t'. split; [|assumption]. simpl. rewrite U. simpl. assumption.
Qed.

Lemma init_positioned : tracks_positioned init.
Proof. intros k h o H. discriminate. Qed.

Lemma run_never_raises_witness :
  exists t',
    run init [[[0; 0; 0.5; 0]]; []; [[3; 4; 0.5; 0]; [500; 500; 0.5; 0]]]%float = Ok t' /\
    wf t' /\ tracks_positioned t'.
Proof.
  apply (run_never_raises
           [[[0; 0; 0.5; 0]]; []; [[3; 4; 0.5; 0]; [500; 500; 0.5; 0]]]%float
           init wf_init init_positioned).
  repeat constructor; unfold positioned; simpl; lia.
Defined.

(** X2.  Histories are append-only, by at most one detection per frame.
    Over any sequence of calls, a track that is still live has its earlier
    history as a prefix of its history; what was added is, frame by frame
    and in the order of the frames, nothing or one detection of that
    frame. *)
Theorem histories_append_only (frames : list (list Obs)) :
  forall t t' k h h',
    wf t -> run t frames = Ok t' ->
    dict_find k (paths t) = Some h -> dict_find k (paths t') = Some h' ->
    exists picks,
      h' = h ++ picked picks /\ Forall2 pick_of picks frames /\
      (length (picked picks) <= length frames)%nat.
Proof.
  induction frames as [|dets frames IH]; intros t t' k h h' W R Hh Hh'; simpl in R.
  - injection R as <-. exists []. simpl. rewrite app_nil_r.
    split; [congruence|]. split; [constructor|lia].
  - apply bind_Ok in R. destruct R as [[m t1] [U R]]. simpl in R.
    destruct (update_summary t dets m t1 W U) as [_ S].
    assert (Hk : In k (keys (disappeared t))).
    { rewrite <- (wf_keys W). eapply dict_find_Some_keys; eauto. }
    apply dict_find_keys in Hk.
    destruct (dict_find k (disappeared t)) as [c|] eqn:Hc; [|congruence].
    destruct (ss_old S k h c Hh Hc) as [det Hdet Hp _|_ Hp _|_ Hp _].
    + destruct (IH t1 t' k (h ++ [det]) h' (ss_wf S) R Hp Hh')
        as [picks [E [F L]]].
      exists (Some det :: picks). split; [rewrite E, <- app_assoc; reflexivity|].
      split; [constructor; [exact Hdet|assumption]|simpl; lia].
    + destruct (IH t1 t' k h h' (ss_wf S) R Hp Hh') as [picks [E [F L]]].
      exists (None :: picks). split; [assumption|].
      split; [constructor; [exact I|assumption]|simpl; lia].
    + exfalso.
      assert (Hlt : (k < next_id t1)%Z).
      { assert (F := wf_fresh W). rewrite Forall_forall in F.
        assert (In k (keys (paths t))) by (eapply dict_find_Some_keys; eauto).
        assert (N := ss_next S). specialize (F k H). lia. }
      rewrite (absent_run frames k t1 t' (ss_wf S) R Hlt Hp) in Hh'. discriminate.
Qed.

Lemma histories_append_only_witness :
  exists picks,
    [[0; 0; 0.5; 0]; [3; 4; 0.5; 0]]%float = [[0; 0; 0.5; 0]%float] ++ picked picks /\
    Forall2 pick_of picks [[[3; 4; 0.5; 0]; [500; 500; 0.5; 0]]%float] /\
    (length (picked picks) <= 1)%nat.
Proof.
  apply (histories_append_only [[[3; 4; 0.5; 0]; [500; 500; 0.5; 0]]%float]
           two_ducks two_ducks_next 0%Z _ _ wf_two_ducks).
  - vm_compute. reflexivity.
  - reflexivity.
  - reflexivity.
Defined.

(** X3.  A missed counter of 0 marks exactly the tracks that received a
    detection in this call: an old track whose history gained a detection,
    or a track the call created. *)
Theorem counter_zero_iff_seen (t : PathTracker) (detections : list Obs) m t' :
  wf t -> update t detections = Ok (m, t') ->
  forall k,
    dict_find k (disappeared t') = Some 0%Z <->
    exists h det,
      In det detections /\ dict_find k (paths t') = Some (h ++ [det]) /\
      (dict_find k (paths t) = Some h \/
       h = [] /\ dict_find k (paths t) = None).
Proof.
  intros W U k. destruct (update_summary t detections m t' W U) as [_ S].
  assert (W' := ss_wf S).
  assert (Hcase : dict_find k (paths t) = None /\ dict_find k (disappeared t) = None \/
                  exists h c, dict_find k (paths t) = Some h /\
                              dict_find k (disappeared t) = Some c).
  { destruct (dict_find k (paths t)) as [h|] eqn:Hh.
    - right. apply dict_find_Some_keys in Hh as Hin. rewrite (wf_keys W) in Hin.
      apply dict_find_keys in Hin.
      destruct (dict_find k (disappeared t)) as [c|]; [eauto|congruence].
    - left. split; [reflexivity|]. apply dict_find_None.
      rewrite <- (wf_keys W). apply dict_find_None. assumption. }
  assert (Hnew : dict_find k (paths t) = None -> In k (keys (paths t')) ->
                 exists det, In det detections /\
                             dict_find k (paths t') = Some [det] /\
                             dict_find k (disappeared t') = Some 0%Z).
  { intros Habs Hin. apply dict_find_None in Habs.
    destruct (ss_only S k Hin) as [Hold|Hrange]; [contradiction|].
    apply (ss_new S k Hrange). }
  split.
  - intro H0. destruct Hcase as [[Hp Hd]|[h [c [Hh Hc]]]].
    + assert (Hin : In k (keys (paths t'))).
      { rewrite (wf_keys W'). eapply dict_find_Some_keys; eauto. }
      destruct (Hnew Hp Hin) as [det [Hdet [Hp' _]]].
      exists [], det. simpl. auto.
    + destruct (ss_old S k h c Hh Hc) as [det Hdet Hp' _|_ _ Hd'|_ _ Hd'].
      * exists h, det. auto.
      * assert (B := wf_count W k c Hc). assert (c + 1 = 0)%Z by congruence. lia.
      * congruence.
  - intros [h [det [Hdet [Hp' Horigin]]]].
    destruct Horigin as [Hh|[-> Habs]].
    + destruct Hcase as [[Hp _]|[h0 [c [Hh0 Hc]]]]; [congruence|].
      assert (h0 = h) by congruence. subst h0.
      destruct (ss_old S k h c Hh Hc) as [det' _ _ Hd'|_ Hp'' _|_ Hp'' _].
      * assumption.
      * exfalso. rewrite Hp' in Hp''. injection Hp'' as E.
        apply (f_equal (@length Obs)) in E. rewrite length_app in E. simpl in E. lia.
      * congruence.
    + assert (Hin : In k (keys (paths t'))) by (eapply dict_find_Some_keys; eauto).
      destruct (Hnew Habs Hin) as [det' [_ [_ Hd']]]. assumption.
Qed.

Lemma counter_zero_iff_seen_witness :
  dict_find 1%Z (disappeared two_ducks_next) = Some 1%Z /\
  (dict_find 0%Z (disappeared two_ducks_next) = Some 0%Z <->
   exists h det,
     In det [[3; 4; 0.5; 0]; [500; 500; 0.5; 0]]%float /\
     dict_find 0%Z (paths two_ducks_next) = Some (h ++ [det]) /\
     (dict_find 0%Z (paths two_ducks) = Some h \/
      h = [] /\ dict_find 0%Z (paths two_ducks) = None)).
Proof.
  split; [reflexivity|].
  exact (counter_zero_iff_seen two_ducks [[3; 4; 0.5; 0]; [500; 500; 0.5; 0]]%float
           (paths two_ducks_next) two_ducks_next wf_two_ducks update_two_ducks 0%Z).
Defined.

Lemma index_of_nth (x : nat) (l : list nat) :
  In x l -> nth_error l (index_of x l) = Some x.
Proof.
  induction l as [|y l IH]; simpl; [tauto|].
  destruct (Nat.eqb_spec y x) as [->|Hne]; [reflexivity|].
  intros [->|Hin]; [congruence|]. simpl. auto.
Qed.

Lemma find_column (ms : list (nat * nat)) (col : nat) :
  In col (map snd ms) ->
  exists row, find (fun rc => Nat.eqb (snd rc) col) ms = Some (row, col) /\
              In (row, col) ms.
Proof.
  induction ms as [|[r c] ms IH]; simpl; [tauto|].
  destruct (Nat.eqb_spec c col) as [->|Hne].
  - intros _. exists r. auto.
  - intros [E|Hin]; [congruence|]. destruct (IH Hin) as [row [E1 E2]]. eauto.
Qed.

Lemma find_no_column (ms : list (nat * nat)) (col : nat) :
  ~ In col (map snd ms) -> find (fun rc => Nat.eqb (snd rc) col) ms = None.
Proof.
  induction ms as [|[r c] ms IH]; simpl; [reflexivity|].
  intro H. destruct (Nat.eqb_spec c col) as [->|Hne]; [tauto|]. apply IH. tauto.
Qed.

Lemma pair_of_row (ms : list (nat * nat)) (row c1 c2 : nat) :
  NoDup (map fst ms) -> In (row, c1) ms -> In (row, c2) ms -> c1 = c2.
Proof.
  induction ms as [|[r c] ms IH]; simpl; [tauto|].
  intros Hnd H1 H2. inversion Hnd as [|? ? Hr Hrest]; subst.
  assert (Hfst : forall x, In (r, x) ms -> False).
  { intros x Hx. apply Hr. apply in_map_iff. exists (r, x). auto. }
  destruct H1 as [E1|H1], H2 as [E2|H2].
  - congruence.
  - injection E1 as -> ->. exfalso. eauto.
  - injection E2 as -> ->. exfalso. eauto.
  - auto.
Qed.

Lemma owner_cases (t : PathTracker) (detections : list Obs)
    distances ms rows' cols' t' (col : nat) :
  general_step t detections distances ms rows' cols' t' ->
  (col < length detections)%nat ->
  (exists row k,
      In (row, col) ms /\ nth_error (keys (paths t)) row = Some k /\
      owner_of (keys (paths t)) (next_id t) ms cols' col = k) \/
  (exists j,
      nth_error cols' j = Some col /\
      owner_of (keys (paths t)) (next_id t) ms cols' col
      = (next_id t + Z.of_nat j)%Z).
Proof.
  intros G Hcol.
  destruct (greedy_partition (gs_greedy G) (seq_NoDup _ _) (seq_NoDup _ _))
    as [I1 [I2 [I3 [I4 [I5 [I6 [I7 [I8 [I9 I10]]]]]]]]].
  destruct (greedy_incl (gs_greedy G)) as [G1 _].
  assert (Hin : In col (seq 0 (length detections))) by (apply in_seq; lia).
  apply I6 in Hin. unfold owner_of. destruct Hin as [Hin|Hin].
  - left. destruct (find_column ms col Hin) as [row [E Hpair]]. rewrite E. simpl.
    assert (Hrow : In row (seq 0 (length (paths t)))).
    { apply G1. apply in_map_iff. exists (row, col). auto. }
    apply in_seq in Hrow.
    assert (L : length (keys (paths t)) = length (paths t)) by apply length_map.
    destruct (nth_error (keys (paths t)) row) as [k|] eqn:Hk;
      [|apply nth_error_None in Hk; lia].
    exists row, k. repeat split; try assumption.
    apply nth_error_nth. assumption.
  - right. rewrite find_no_column by (intro H; apply (I8 col H Hin)).
    exists (index_of col cols'). split; [apply index_of_nth; assumption|reflexivity].
Qed.

Arguments owner_cases {t detections distances ms rows' cols' t'} col _ _.

(** X4.  No detection is lost or duplicated by a call.  Every detection of
    the frame, by its position in the list, ends as the last observation of
    a live track whose missed counter is 0: either appended to the history
    a track had before the call, or alone in a track the call created.  Two
    different detections never end in the same track. *)
Theorem every_detection_recorded (t : PathTracker) (detections : list Obs) m t' :
  wf t -> update t detections = Ok (m, t') ->
  exists owner : nat -> Z,
    (forall col det,
        nth_error detections col = Some det ->
        exists h,
          dict_find (owner col) (paths t') = Some (h ++ [det]) /\
          dict_find (owner col) (disappeared t') = Some 0%Z /\
          (dict_find (owner col) (paths t) = Some h \/
           h = [] /\ (next_id t <= owner col)%Z)) /\
    (forall c1 c2,
        (c1 < length detections)%nat -> (c2 < length detections)%nat ->
        owner c1 = owner c2 -> c1 = c2).
Proof.
  intros W U.
  destruct (update_inv t detections m t' W U)
    as [_ [[E S]|[[_ [Hp E]]|[_ [_ [distances [ms [rows' [cols' G]]]]]]]]].
  - subst detections. exists (fun _ => 0%Z). split.
    + intros col det H. destruct col; discriminate.
    + simpl. intros; lia.
  - assert (Hd := wf_empty_paths t W Hp).
    assert (F := seed_fold detections t). rewrite Hp, Hd in F.
    specialize (F (Forall_nil _) (Forall_nil _)). simpl in F. rewrite <- E in F.
    exists (fun col => (next_id t + Z.of_nat col)%Z). split.
    + intros col det Hcol. exists []. rewrite F. simpl.
      destruct (dict_find_new_tracks detections (next_id t) col det Hcol) as [N1 N2].
      split; [assumption|]. split; [assumption|]. right. split; [reflexivity|lia].
    + intros; lia.
  - exists (owner_of (keys (paths t)) (next_id t) ms cols').
    destruct (greedy_partition (gs_greedy G) (seq_NoDup _ _) (seq_NoDup _ _))
      as [I1 _].
    split.
    + intros col det Hcol.
      assert (Hlt : (col < length detections)%nat) by (apply nth_error_Some; congruence).
      destruct (owner_cases col G Hlt) as [[row [k [Hin [Hk ->]]]]|[j [Hj ->]]].
      * destruct (gs_hit G row col k Hin Hk) as [h [det' [A1 [A2 [A3 A4]]]]].
        assert (det' = det) by congruence. subst det'.
        exists h. auto.
      * destruct (gs_new G j col det Hj Hcol) as [N1 N2].
        exists []. split; [assumption|]. split; [assumption|].
        right. split; [reflexivity|lia].
    + intros c1 c2 H1 H2 Heq.
      destruct (owner_cases c1 G H1) as [[r1 [k1 [P1 [K1 O1]]]]|[j1 [J1 O1]]];
        destruct (owner_cases c2 G H2) as [[r2 [k2 [P2 [K2 O2]]]]|[j2 [J2 O2]]];
        rewrite O1, O2 in Heq.
      * subst k2.
        assert (r1 = r2)
          by exact (nth_error_inj (keys (paths t)) r1 r2 k1 (wf_nodup W) K1 K2).
        subst r2. apply (pair_of_row ms r1 c1 c2 I1 P1 P2).
      * exfalso. assert (F := wf_fresh W). rewrite Forall_forall in F.
        assert (In k1 (keys (paths t))) by (eapply nth_error_In; eauto).
        specialize (F k1 H). lia.
      * exfalso. assert (F := wf_fresh W). rewrite Forall_forall in F.
        assert (In k2 (keys (paths t))) by (eapply nth_error_In; eauto).
        specialize (F k2 H). lia.
      * assert (j1 = j2) by lia. subst j2. congruence.
Qed.

Lemma every_detection_recorded_witness :
  exists owner : nat -> Z,
    (forall col det,
        nth_error [[3; 4; 0.5; 0]; [500; 500; 0.5; 0]]%float col = Some det ->
        exists h,
          dict_find (owner col) (paths two_ducks_next) = Some (h ++ [det]) /\
          dict_find (owner col) (disappeared two_ducks_next) = Some 0%Z /\
          (dict_find (owner col) (paths two_ducks) = Some h \/
           h = [] /\ (next_id two_ducks <= owner col)%Z)) /\
    (forall c1 c2, (c1 < 2)%nat -> (c2 < 2)%nat -> owner c1 = owner c2 -> c1 = c2).
Proof.
  exact (every_detection_recorded two_ducks
           [[3; 4; 0.5; 0]; [500; 500; 0.5; 0]]%float
           (paths two_ducks_next) two_ducks_next wf_two_ducks update_two_ducks).
Defined.

(** ** What early exit leaves behind *)

Lemma greedy_leaves_far (distances : list (list float)) rows cols ms rows' cols' :
  greedy distances rows cols ms rows' cols' ->
  (forall r c d, In r rows -> In c cols ->
                 matrix_get distances r c = Ok d -> is_nan d = false) ->
  forall r c d, In r rows' -> In c cols' ->
                matrix_get distances r c = Ok d -> (d <? 100)%float = false.
Proof.
  induction 1 as [rows cols Hex|rows cols i j row col d0 Hi Hj Hget Hsm Hfar
                 |rows cols i j row col d0 ms rows' cols' Hi Hj Hget Hsm Hlt Hg IH];
    intros Hnan r c d Hr Hc Hd.
  - destruct Hex as [-> | ->]; contradiction.
  - destruct (d <? 100)%float eqn:E; [|reflexivity]. exfalso.
    assert (N0 : is_nan d0 = false).
    { apply (Hnan row col d0); try assumption; eapply nth_error_In; eauto. }
    assert (N : is_nan d = false) by (apply (F64.ltb_not_nan_l d 100); assumption).
    assert (L : (d0 <=? d)%float = true).
    { destruct (d0 <=? d)%float eqn:L; [reflexivity|].
      specialize (Hsm r c d Hr Hc Hd). rewrite (F64.not_leb_ltb d0 d N0 N L) in Hsm.
      discriminate. }
    rewrite (leb_ltb_trans d0 d 100 L E) in Hfar. discriminate.
  - apply (IH (fun r c d Hr Hc => Hnan r c d (pop_In i rows r Hr) (pop_In j cols c Hc))
              r c d Hr Hc Hd).
Qed.

(** X5.  Stopping at the first smallest distance that is not below 100
    leaves no matchable pair behind.  When no distance of the frame is a
    NaN, a track the call left unmatched and a detection that seeded a new
    track are never strictly less than 100 apart. *)
Theorem early_exit_leaves_no_match (t : PathTracker) (detections : list Obs) m t' :
  wf t -> update t detections = Ok (m, t') ->
  (forall k h p det d,
      dict_find k (paths t) = Some h -> py_last h = Ok p -> In det detections ->
      np_dist p det = Ok d -> is_nan d = false) ->
  forall k h p k' det d,
    dict_find k (paths t) = Some h -> py_last h = Ok p -> unmatched k t t' ->
    (next_id t <= k')%Z -> dict_find k' (paths t') = Some [det] ->
    np_dist p det = Ok d ->
    (d <? 100)%float = false.
Proof.
  intros W U Hnan k h p k' det d Hh Hlast Hun Hk' Hnew Hdist.
  destruct (update_inv t detections m t' W U)
    as [_ [[E S]|[[_ [Hp E]]|[_ [_ [distances [ms [rows' [cols' G]]]]]]]]].
  - exfalso. assert (Hin : In k' (keys (paths t'))) by (eapply dict_find_Some_keys; eauto).
    destruct (ag_keys S) as [f [Kp _]]. rewrite Kp in Hin.
    apply filter_In in Hin. destruct Hin as [Hin _].
    assert (F := wf_fresh W). rewrite Forall_forall in F. specialize (F k' Hin). lia.
  - rewrite Hp in Hh. discriminate.
  - destruct (greedy_partition (gs_greedy G) (seq_NoDup _ _) (seq_NoDup _ _))
      as [I1 [I2 [I3 [I4 [I5 [I6 [I7 [I8 [I9 I10]]]]]]]]].
    destruct (greedy_incl (gs_greedy G)) as [G1 [G2 [G3 G4]]].
    assert (L : length (keys (paths t)) = length (paths t)) by apply length_map.
    (* the row of the unmatched track *)
    assert (Hk : In k (keys (paths t))) by (eapply dict_find_Some_keys; eauto).
    apply In_nth_error in Hk. destruct Hk as [row Hrow].
    assert (Hrin : In row (seq 0 (length (paths t)))).
    { apply in_seq. assert (row < length (keys (paths t)))%nat; [|lia].
      apply nth_error_Some. congruence. }
    assert (Hrow' : In row rows').
    { apply I5 in Hrin. destruct Hrin as [Hin|Hin]; [|assumption]. exfalso.
      apply in_map_iff in Hin. destruct Hin as [[row0 col] [Hfst Hin]].
      simpl in Hfst. subst row0.
      destruct (gs_hit G row col k Hin Hrow) as [h0 [det0 [A1 [A2 [A3 A4]]]]].
      assert (h0 = h) by congruence. subst h0.
      destruct Hun as [Hun|Hun]; [congruence|].
      rewrite A3, Hh in Hun. injection Hun as Hun.
      apply (f_equal (@length Obs)) in Hun. rewrite length_app in Hun.
      simpl in Hun. lia. }
    (* the column of the seeding detection *)
    assert (Hlt : (k' < next_id t')%Z).
    { assert (F := wf_fresh (gs_wf G)). rewrite Forall_forall in F.
      apply F. eapply dict_find_Some_keys; eauto. }
    rewrite (gs_next G) in Hlt.
    assert (Hj : (Z.to_nat (k' - next_id t) < length cols')%nat) by lia.
    destruct (nth_error cols' (Z.to_nat (k' - next_id t))) as [col|] eqn:Ecol;
      [|apply nth_error_None in Ecol; lia].
    assert (Hcol' : In col cols') by (eapply nth_error_In; eauto).
    assert (Hclt : (col < length detections)%nat).
    { apply G4 in Hcol'. apply in_seq in Hcol'. lia. }
    destruct (nth_error detections col) as [det0|] eqn:Edet;
      [|apply nth_error_None in Edet; lia].
    destruct (gs_new G _ col det0 Ecol Edet) as [N1 _].
    replace (next_id t + Z.of_nat (Z.to_nat (k' - next_id t)))%Z with k' in N1 by lia.
    assert (det0 = det) by congruence. subst det0.
    destruct (gs_dist G row col k h det Hrow Hh Edet) as [p' [d' [C1 [C2 C3]]]].
    assert (p' = p) by congruence. subst p'.
    assert (d' = d) by congruence. subst d'.
    apply (greedy_leaves_far _ _ _ _ _ _ (gs_greedy G)) with (r := row) (c := col);
      try assumption.
    intros r c d1 Hr Hc Hd1.
    destruct (general_entry _ _ _ _ _ _ _ r c W G Hr Hc)
      as [k2 [h2 [p2 [det2 [d2 [E1 [E2 [E3 [E4 [E5 E6]]]]]]]]]].
    assert (d2 = d1) by congruence. subst d2.
    apply (Hnan k2 h2 p2 det2 d1); try assumption. eapply nth_error_In; eauto.
Qed.

Lemma two_ducks_no_nan :
  forall k h p det d,
    dict_find k (paths two_ducks) = Some h -> py_last h = Ok p ->
    In det [[3; 4; 0.5; 0]; [500; 500; 0.5; 0]]%float ->
    np_dist p det = Ok d -> is_nan d = false.
Proof.
  intros k h p det d Hh Hp Hdet Hd. unfold two_ducks in Hh.
  cbn [paths dict_find] in Hh.
  destruct (0 =? k)%Z.
  - injection Hh as <-. unfold py_last in Hp. simpl in Hp. injection Hp as <-.
    destruct Hdet as [<-|[<-|[]]]; vm_compute in Hd; injection Hd as <-; reflexivity.
  - destruct (1 =? k)%Z; [|discriminate].
    injection Hh as <-. unfold py_last in Hp. simpl in Hp. injection Hp as <-.
    destruct Hdet as [<-|[<-|[]]]; vm_compute in Hd; injection Hd as <-; reflexivity.
Qed.

Lemma early_exit_leaves_no_match_witness :
  exists d,
    np_dist [200; 0; 0.5; 0]%float [500; 500; 0.5; 0]%float = Ok d /\
    unmatched 1%Z two_ducks two_ducks_next /\
    dict_find 2%Z (paths two_ducks_next) = Some [[500; 500; 0.5; 0]%float] /\
    (d <? 100)%float = false.
Proof.
  eexists. split; [reflexivity|]. split; [right; reflexivity|]. split; [reflexivity|].
  apply (early_exit_leaves_no_match two_ducks
           [[3; 4; 0.5; 0]; [500; 500; 0.5; 0]]%float
           (paths two_ducks_next) two_ducks_next wf_two_ducks update_two_ducks
           two_ducks_no_nan
           1%Z [[200; 0; 0.5; 0]%float] [200; 0; 0.5; 0]%float
           2%Z [500; 500; 0.5; 0]%float).
  - reflexivity.
  - reflexivity.
  - right. reflexivity.
  - simpl. lia.
  - reflexivity.
  - reflexivity.
Defined.

(** ** The detections of a frame *)

Lemma append_boxes (boxes : list Box) :
  forall detections,
    fold_left append_box boxes detections
    = detections ++ map detection_of (filter accepted boxes).
Proof.
  induction boxes as [|box boxes IH]; intro detections; simpl.
  - rewrite app_nil_r. reflexivity.
  - rewrite IH. unfold append_box, accepted at 1 2. unfold detection_of at 2.
    destruct (bcls box =? 0)%Z; simpl; [|reflexivity].
    destruct (AREA_THRESHOLD <? (bx2 box - bx1 box) * (by2 box - by1 box))%float;
      simpl; [|reflexivity].
    rewrite <- app_assoc. reflexivity.
Qed.

Lemma collect_detections_eq (results : list (list Box)) :
  collect_detections results = map detection_of (filter accepted (concat results)).
Proof.
  unfold collect_detections.
  assert (H : forall detections,
             fold_left (fun detections boxes => fold_left append_box boxes detections)
                       results detections
             = detections ++ map detection_of (filter accepted (concat results))).
  { induction results as [|boxes results IH]; intro detections; simpl.
    - rewrite app_nil_r. reflexivity.
    - rewrite IH, append_boxes, filter_app, map_app, app_assoc. reflexivity. }
  apply (H []).
Qed.

(** X6.  The detections handed to the tracker are, in the order of the
    detector's boxes and one for one, the boxes of class 0 whose area
    [(x2 - x1) * (y2 - y1)] is above 500 (a box with a NaN area is dropped);
    each is the tuple of the centre of its box, its confidence and the
    class 0, so it has its four fields. *)
Theorem collect_detections_filter (results : list (list Box)) :
  collect_detections results = map detection_of (filter accepted (concat results)) /\
  (forall o, In o (collect_detections results) <->
     exists boxes box,
       In boxes results /\ In box boxes /\ bcls box = 0%Z /\
       (500 <? (bx2 box - bx1 box) * (by2 box - by1 box))%float = true /\
       o = [((bx1 box + bx2 box) / 2)%float; ((by1 box + by2 box) / 2)%float;
            bconf box; 0%float]) /\
  Forall (fun o => length o = 4%nat) (collect_detections results) /\
  (length (collect_detections results) <= length (concat results))%nat.
Proof.
  rewrite collect_detections_eq. split; [reflexivity|]. split; [|split].
  - intro o. rewrite in_map_iff. split.
    + intros [box [<- Hin]]. apply filter_In in Hin. destruct Hin as [Hin Hacc].
      apply in_concat in Hin. destruct Hin as [boxes [Hb Hin]].
      unfold accepted in Hacc. apply andb_true_iff in Hacc. destruct Hacc as [Hc Ha].
      apply Z.eqb_eq in Hc. exists boxes, box. repeat split; assumption.
    + intros [boxes [box [Hb [Hin [Hc [Ha ->]]]]]]. exists box. split; [reflexivity|].
      apply filter_In. split; [apply in_concat; eauto|].
      unfold accepted. rewrite Hc. simpl. exact Ha.
  - apply Forall_forall. intros o Ho. apply in_map_iff in Ho.
    destruct Ho as [box [<- _]]. reflexivity.
  - rewrite length_map. apply filter_length_le.
Qed.

Lemma collect_detections_positioned (results : list (list Box)) :
  Forall positioned (collect_detections results).
Proof.
  rewrite collect_detections_eq. apply Forall_forall. intros o Ho.
  apply in_map_iff in Ho. destruct Ho as [box [<- _]].
  unfold positioned, detection_of. simpl. lia.
Qed.

(** ** The trajectories the frame loop records *)

Lemma unpack2_positioned (o : Obs) :
  positioned o -> unpack2 o = Ok (nth 0 o 0%float, nth 1 o 0%float).
Proof.
  unfold positioned, unpack2. destruct o as [|a [|b o]]; simpl; try lia. reflexivity.
Qed.

(** *** The conversions of the drawing calls *)

Lemma py_int_finite (x : float) : is_finite x = true -> py_int x = Ok (trunc x).
Proof.
  unfold is_finite, py_int. intro H.
  destruct (is_nan x); simpl in H; [discriminate|].
  destruct (is_infinity x); simpl in H; [discriminate|reflexivity].
Qed.

Lemma py_int_not_finite (x : float) :
  is_finite x = false ->
  exists e, py_int x = Raise e /\ (e = ValueError \/ e = OverflowError).
Proof.
  unfold is_finite, py_int. intro H.
  destruct (is_nan x); simpl in H; [eauto|].
  destruct (is_infinity x); simpl in H; [eauto|discriminate].
Qed.

Lemma bind_skip {A B : Type} (r : result A) (k : result B) (b : B) :
  (_ <- r ;; k) = Ok b -> k = Ok b.
Proof. destruct r; simpl; [auto|discriminate]. Qed.

Lemma bind_py_int_cases {B : Type} (x : float) (k : result B) :
  ((_ <- py_int x ;; k) = k) \/
  exists e, (_ <- py_int x ;; k) = Raise e /\ conversion_error e.
Proof.
  destruct (is_finite x) eqn:F.
  - left. rewrite (py_int_finite x F). reflexivity.
  - right. destruct (py_int_not_finite x F) as [e [E Q]]. exists e. rewrite E. auto.
Qed.

Lemma foldM_pure_inv {A S : Type} (f : S -> A -> result S) (g : S -> A -> S) :
  (forall s a s', f s a = Ok s' -> s' = g s a) ->
  forall l s s', foldM f l s = Ok s' -> s' = fold_left g l s.
Proof.
  intros Hf l. induction l as [|a l IH]; intros s s' H; simpl in H.
  - injection H as <-. reflexivity.
  - apply bind_Ok in H. destruct H as [s1 [E H]].
    apply Hf in E. subst s1. simpl. apply IH. assumption.
Qed.

Lemma foldM_pure {A S : Type} (f : S -> A -> result S) (g : S -> A -> S)
    (P : A -> Prop) :
  (forall s a, P a -> f s a = Ok (g s a)) ->
  forall l s, Forall P l -> foldM f l s = Ok (fold_left g l s).
Proof.
  intros Hf l. induction l as [|a l IH]; intros s H; simpl.
  - reflexivity.
  - inversion H as [|? ? Ha Hl]; subst. rewrite (Hf s a Ha). cbn [bind].
    apply IH. assumption.
Qed.

Lemma foldM_cases {A S : Type} (f : S -> A -> result S) (Q : exn -> Prop) :
  (forall s a, (exists s', f s a = Ok s') \/ exists e, f s a = Raise e /\ Q e) ->
  forall l s, (exists s', foldM f l s = Ok s') \/ exists e, foldM f l s = Raise e /\ Q e.
Proof.
  intros Hf l. induction l as [|a l IH]; intro s; simpl.
  - left. eauto.
  - destruct (Hf s a) as [[s1 E]|[e [E HQ]]]; rewrite E; cbn [bind].
    + apply IH.
    + right. eauto.
Qed.

Lemma foldM_raises {A S : Type} (f : S -> A -> result S) (Q : exn -> Prop) (a0 : A) :
  (forall s a, (exists s', f s a = Ok s') \/ exists e, f s a = Raise e /\ Q e) ->
  (forall s, exists e, f s a0 = Raise e /\ Q e) ->
  forall l s, In a0 l -> exists e, foldM f l s = Raise e /\ Q e.
Proof.
  intros Hf H0 l. induction l as [|a l IH]; intros s Hin; [contradiction|].
  simpl. destruct Hin as [->|Hin].
  - destruct (H0 s) as [e [E HQ]]. rewrite E. cbn [bind]. eauto.
  - destruct (Hf s a) as [[s1 E]|[e [E HQ]]]; rewrite E; cbn [bind]; [auto|eauto].
Qed.

(** *** The loop over the boxes *)

Lemma process_box_inv (detections : list Obs) (box : Box) (ds : list Obs) :
  process_box detections box = Ok ds -> ds = append_box detections box.
Proof.
  unfold process_box, append_box.
  destruct (bcls box =? 0)%Z; [|intro H; injection H as <-; reflexivity].
  destruct (AREA_THRESHOLD <? (bx2 box - bx1 box) * (by2 box - by1 box))%float;
    [|intro H; injection H as <-; reflexivity].
  intro H. do 6 apply bind_skip in H. injection H as <-. reflexivity.
Qed.

Lemma drawable_parts (box : Box) :
  drawable box = true ->
  is_finite (bx1 box) = true /\ is_finite (by1 box) = true /\
  is_finite (bx2 box) = true /\ is_finite (by2 box) = true /\
  is_finite (by1 box - 10)%float = true /\ anchored (detection_of box) = true.
Proof.
  unfold drawable, corners_finite. intro H.
  repeat (apply andb_prop in H; destruct H as [H ?]). auto 10.
Qed.

Lemma process_box_total (detections : list Obs) (box : Box) :
  (accepted box = true -> drawable box = true) ->
  process_box detections box = Ok (append_box detections box).
Proof.
  unfold process_box, append_box, accepted.
  destruct (bcls box =? 0)%Z; [|reflexivity].
  destruct (AREA_THRESHOLD <? (bx2 box - bx1 box) * (by2 box - by1 box))%float;
    [|reflexivity].
  intro H. destruct (drawable_parts box (H eq_refl)) as [F1 [F2 [F3 [F4 [F5 _]]]]].
  rewrite !(py_int_finite _ F1), (py_int_finite _ F2), (py_int_finite _ F3),
    (py_int_finite _ F4), (py_int_finite _ F5).
  reflexivity.
Qed.

Lemma process_box_cases (detections : list Obs) (box : Box) :
  (exists ds, process_box detections box = Ok ds) \/
  exists e, process_box detections box = Raise e /\ conversion_error e.
Proof.
  unfold process_box.
  destruct (bcls box =? 0)%Z; [|eauto].
  destruct (AREA_THRESHOLD <? (bx2 box - bx1 box) * (by2 box - by1 box))%float;
    [|eauto].
  repeat match goal with
         | |- context [bind (py_int ?x) (fun _ => ?k)] =>
             destruct (bind_py_int_cases x k) as [-> | [e [-> HQ]]]; [|right; eauto]
         end.
  eauto.
Qed.

Lemma process_box_raises (detections : list Obs) (box : Box) :
  accepted box = true -> corners_finite box = false ->
  exists e, process_box detections box = Raise e /\ conversion_error e.
Proof.
  unfold process_box, accepted, corners_finite. intros Ha Hc.
  apply andb_prop in Ha. destruct Ha as [-> ->].
  destruct (is_finite (bx1 box)) eqn:F1;
    [rewrite !(py_int_finite _ F1); cbn [bind]
    |destruct (py_int_not_finite _ F1) as [e [-> Q]]; cbn [bind]; eauto].
  destruct (is_finite (by1 box)) eqn:F2;
    [rewrite (py_int_finite _ F2); cbn [bind]
    |destruct (py_int_not_finite _ F2) as [e [-> Q]]; cbn [bind]; eauto].
  destruct (is_finite (bx2 box)) eqn:F3;
    [rewrite (py_int_finite _ F3); cbn [bind]
    |destruct (py_int_not_finite _ F3) as [e [-> Q]]; cbn [bind]; eauto].
  destruct (is_finite (by2 box)) eqn:F4;
    [discriminate
    |destruct (py_int_not_finite _ F4) as [e [-> Q]]; cbn [bind]; eauto].
Qed.

Lemma detect_inv (results : list (list Box)) (ds : list Obs) :
  detect results = Ok ds -> ds = collect_detections results.
Proof.
  unfold detect, collect_detections.
  apply (foldM_pure_inv
           (fun detections boxes => foldM process_box boxes detections)
           (fun detections boxes => fold_left append_box boxes detections)).
  intros s boxes s'. apply foldM_pure_inv. intros s0 a s0'. apply process_box_inv.
Qed.

Lemma detect_total (frame : Frame) :
  frame_drawable frame ->
  detect (results frame) = Ok (collect_detections (results frame)).
Proof.
  unfold frame_drawable, detect, collect_detections.
  apply (foldM_pure
           (fun detections boxes => foldM process_box boxes detections)
           (fun detections boxes => fold_left append_box boxes detections)).
  intros s boxes Hb.
  apply (foldM_pure process_box append_box
           (fun box => accepted box = true -> drawable box = true));
    [|assumption].
  intros s0 box Hbox. apply process_box_total. assumption.
Qed.

Lemma detect_raises (results : list (list Box)) (boxes : list Box) (box : Box) :
  In boxes results -> In box boxes -> accepted box = true ->
  corners_finite box = false ->
  exists e, detect results = Raise e /\ conversion_error e.
Proof.
  intros Hboxes Hbox Ha Hc. unfold detect.
  apply (foldM_raises
           (fun detections boxes => foldM process_box boxes detections)
           conversion_error boxes); [| |assumption].
  - intros s bs. apply foldM_cases. intros s0 b. apply process_box_cases.
  - intro s. apply (foldM_raises process_box conversion_error box); [| |assumption].
    + intros s0 b. apply process_box_cases.
    + intro s0. apply process_box_raises; assumption.
Qed.

Lemma collect_detections_anchored (frame : Frame) :
  frame_drawable frame ->
  Forall (fun o => anchored o = true) (collect_detections (results frame)).
Proof.
  unfold frame_drawable. intro H. rewrite collect_detections_eq.
  apply Forall_forall. intros o Ho.
  apply in_map_iff in Ho. destruct Ho as [box [<- Hbox]].
  apply filter_In in Hbox. destruct Hbox as [Hin Hacc].
  apply in_concat in Hin. destruct Hin as [boxes [Hboxes Hb]].
  rewrite Forall_forall in H. specialize (H boxes Hboxes).
  rewrite Forall_forall in H. apply drawable_parts. apply H; assumption.
Qed.

(** *** What [update] stores *)

Lemma update_stored (P : Obs -> Prop) (t : PathTracker) (detections : list Obs) m t' :
  wf t -> update t detections = Ok (m, t') ->
  (forall k h o, dict_find k (paths t) = Some h -> In o h -> P o) ->
  Forall P detections ->
  forall k h o, dict_find k (paths t') = Some h -> In o h -> P o.
Proof.
  intros W U Hold Hd k h' o Hh' Ho.
  destruct (update_summary t detections m t' W U) as [_ S].
  rewrite Forall_forall in Hd.
  assert (Hin : In k (keys (paths t'))) by (eapply dict_find_Some_keys; eauto).
  destruct (ss_only S k Hin) as [Hk|Hnew].
  - apply dict_find_keys in Hk as Hf.
    destruct (dict_find k (paths t)) as [h|] eqn:Hh; [|congruence].
    rewrite (wf_keys W) in Hk. apply dict_find_keys in Hk.
    destruct (dict_find k (disappeared t)) as [c|] eqn:Hc; [|congruence].
    destruct (ss_old S k h c Hh Hc) as [det Hdet Hp' _|_ Hp' _|_ Hp' _].
    + assert (h' = h ++ [det]) by congruence. subst h'.
      apply in_app_or in Ho. destruct Ho as [Ho|[<-|[]]]; [eapply Hold; eauto|auto].
    + assert (h' = h) by congruence. subst h'. eapply Hold; eauto.
    + congruence.
  - destruct (ss_new S k Hnew) as [det [Hdet [Hp' _]]].
    assert (h' = [det]) by congruence. subst h'.
    destruct Ho as [<-|[]]. auto.
Qed.

(** *** The loop over the tracks *)

Lemma record_track_inv (scale : float) (n : Z) (tr : dict (list Sample))
    (k : Z) (h : list Obs) (tr' : dict (list Sample)) :
  (forall o, In o h -> positioned o) ->
  record_track scale n tr (k, h) = Ok tr' ->
  (forall k', k <> k' -> dict_find k' tr' = dict_find k' tr) /\
  dict_find k tr' =
    if (2 <=? length h)%nat
    then Some (match dict_find k tr with Some l => l | None => [] end
               ++ [last_sample scale n h])
    else dict_find k tr.
Proof.
  intro Hpos. unfold record_track, last_sample.
  destruct (2 <=? length h)%nat eqn:Hlen;
    [|intro H; injection H as <-; auto].
  apply Nat.leb_le in Hlen. rewrite <- length_rev in Hlen.
  assert (Hin : forall o, In o (rev h) -> positioned o).
  { intros o Ho. apply Hpos. apply in_rev. assumption. }
  unfold py_second_last, py_last.
  destruct (rev h) as [|o2 [|o1 r]]; simpl in Hlen; try lia.
  cbn [bind]. rewrite (unpack2_positioned o1) by (apply Hin; simpl; auto).
  cbn [bind]. rewrite (unpack2_positioned o2) by (apply Hin; simpl; auto).
  cbn [bind fst snd].
  destruct (dict_find k tr) as [l|] eqn:Hk.
  - unfold dict_get. rewrite Hk. cbn [bind]. intro H.
    do 6 apply bind_skip in H. injection H as <-. split.
    + intros k' Hne. apply dict_find_set_other. assumption.
    + apply dict_find_set_same.
  - unfold dict_get. rewrite dict_find_set_same. cbn [bind]. intro H.
    do 6 apply bind_skip in H. injection H as <-. split.
    + intros k' Hne. rewrite !dict_find_set_other by assumption. reflexivity.
    + apply dict_find_set_same.
Qed.

Lemma anchored_parts (o : Obs) :
  anchored o = true ->
  is_finite (nth 0 o 0%float) = true /\ is_finite (nth 1 o 0%float) = true /\
  is_finite (nth 1 o 0 - 20)%float = true.
Proof.
  unfold anchored. intro H.
  repeat (apply andb_prop in H; destruct H as [H ?]). auto.
Qed.

Lemma record_track_total (scale : float) (n : Z) (tr : dict (list Sample))
    (k : Z) (h : list Obs) :
  (forall o, In o h -> positioned o) ->
  (forall o, In o h -> anchored o = true) ->
  exists tr', record_track scale n tr (k, h) = Ok tr'.
Proof.
  intros Hpos Hanc. unfold record_track.
  destruct (2 <=? length h)%nat eqn:Hlen; [|eauto].
  apply Nat.leb_le in Hlen. rewrite <- length_rev in Hlen.
  assert (Hin : forall o, In o (rev h) -> positioned o /\ anchored o = true).
  { intros o Ho. apply in_rev in Ho. auto. }
  unfold py_second_last, py_last.
  destruct (rev h) as [|o2 [|o1 r]]; simpl in Hlen; try lia.
  destruct (Hin o1) as [P1 A1]; [simpl; auto|].
  destruct (Hin o2) as [P2 A2]; [simpl; auto|].
  destruct (anchored_parts o1 A1) as [F1 [F2 _]].
  destruct (anchored_parts o2 A2) as [G1 [G2 G3]].
  cbn [bind]. rewrite (unpack2_positioned o1 P1).
  cbn [bind]. rewrite (unpack2_positioned o2 P2).
  cbn [bind fst snd].
  rewrite (py_int_finite _ F1), (py_int_finite _ F2), !(py_int_finite _ G1),
    (py_int_finite _ G2), (py_int_finite _ G3).
  destruct (dict_find k tr) as [l|] eqn:Hk.
  - unfold dict_get. rewrite Hk. cbn [bind]. eauto.
  - unfold dict_get. rewrite dict_find_set_same. cbn [bind]. eauto.
Qed.

Lemma foldM_record_inv (scale : float) (n : Z) (items : dict (list Obs)) :
  forall tr tr',
    NoDup (keys items) ->
    (forall k h o, dict_find k items = Some h -> In o h -> positioned o) ->
    foldM (record_track scale n) items tr = Ok tr' ->
    forall k,
      dict_find k tr' =
      match dict_find k items with
      | Some h =>
          if (2 <=? length h)%nat
          then Some (match dict_find k tr with Some l => l | None => [] end
                     ++ [last_sample scale n h])
          else dict_find k tr
      | None => dict_find k tr
      end.
Proof.
  induction items as [|[k0 h0] items IH]; intros tr tr' Hnd Hpos H.
  - simpl in H. injection H as <-. intro k. reflexivity.
  - simpl in Hnd. inversion Hnd as [|? ? Hk0 Hrest]; subst.
    cbn [foldM] in H. apply bind_Ok in H. destruct H as [tr1 [E1 E']].
    destruct (record_track_inv scale n tr k0 h0 tr1) as [O1 S1]; [|assumption|].
    { intros o Ho. apply (Hpos k0 h0 o); [|assumption]. simpl.
      rewrite Z.eqb_refl. reflexivity. }
    assert (F' := IH tr1 tr' Hrest).
    intro k. rewrite F'; [| |assumption].
    + cbn [dict_find]. destruct (Z.eqb_spec k0 k) as [->|Hne].
      * apply dict_find_None in Hk0. rewrite Hk0. assumption.
      * rewrite (O1 k Hne). reflexivity.
    + intros k1 h o Hh Ho. apply (Hpos k1 h o); [|assumption]. simpl.
      destruct (Z.eqb_spec k0 k1) as [->|Hne]; [|assumption].
      exfalso. apply Hk0. eapply dict_find_Some_keys; eauto.
Qed.

Lemma foldM_record_total (scale : float) (n : Z) (items : dict (list Obs)) :
  forall tr,
    NoDup (keys items) ->
    (forall k h o, dict_find k items = Some h -> In o h ->
                   positioned o /\ anchored o = true) ->
    exists tr', foldM (record_track scale n) items tr = Ok tr'.
Proof.
  induction items as [|[k0 h0] items IH]; intros tr Hnd Hpos.
  - exists tr. reflexivity.
  - simpl in Hnd. inversion Hnd as [|? ? Hk0 Hrest]; subst.
    assert (H0 : forall o, In o h0 -> positioned o /\ anchored o = true).
    { intros o Ho. apply (Hpos k0 h0 o); [|assumption]. simpl.
      rewrite Z.eqb_refl. reflexivity. }
    destruct (record_track_total scale n tr k0 h0) as [tr1 E1];
      [intros o Ho; apply H0; assumption|intros o Ho; apply H0; assumption|].
    destruct (IH tr1 Hrest) as [tr' E'].
    { intros k h o Hh Ho. apply (Hpos k h o); [|assumption]. simpl.
      destruct (Z.eqb_spec k0 k) as [->|Hne]; [|assumption].
      exfalso. apply Hk0. eapply dict_find_Some_keys; eauto. }
    exists tr'. cbn [foldM]. rewrite E1. cbn [bind]. assumption.
Qed.

Lemma increasing_frames_snoc (traj : list Sample) (x y : float) (n : Z) :
  increasing_frames traj ->
  Forall (fun a => (sample_frame a <= n)%Z) traj ->
  increasing_frames (traj ++ [(x, y, (n + 1)%Z)]).
Proof.
  intros Hinc Hb i j a b Hij Hi Hj.
  assert (Hjl : (j < length (traj ++ [(x, y, (n + 1)%Z)]))%nat).
  { apply nth_error_Some. congruence. }
  rewrite length_app in Hjl. simpl in Hjl.
  rewrite nth_error_app1 in Hi by lia.
  destruct (Nat.eq_dec j (length traj)) as [->|Hne].
  - rewrite nth_error_app2, Nat.sub_diag in Hj by lia. injection Hj as <-.
    rewrite Forall_forall in Hb.
    assert (sample_frame a <= n)%Z by (apply Hb; eapply nth_error_In; eauto).
    unfold sample_frame in *. simpl. lia.
  - rewrite nth_error_app1 in Hj by lia. apply (Hinc i j a b Hij Hi Hj).
Qed.

Lemma last_sample_frame (scale : float) (n : Z) (h : list Obs) :
  last_sample scale n h = (fst (fst (last_sample scale n h)),
                           snd (fst (last_sample scale n h)), n).
Proof.
  unfold last_sample. destruct (rev h); reflexivity.
Qed.

(** *** One turn of the frame loop *)

Lemma frame_step_ok (s : Session) (frame : Frame) (s' : Session) :
  session_ok s -> frame_step s frame = Ok s' ->
  session_ok s' /\
  frame_count s' = (frame_count s + 1)%Z /\
  pixel_per_cm s' = match pixel_per_cm s with
                    | None => calibration frame
                    | Some x => Some x
                    end /\
  (exists m, update (tracker s) (collect_detections (results frame))
             = Ok (m, tracker s')) /\
  (forall k,
      dict_find k (trajectories_cm s') =
      match pixel_per_cm s' with
      | Some scale =>
          if negb (scale =? 0)%float then
            match dict_find k (paths (tracker s')) with
            | Some h =>
                if (2 <=? length h)%nat
                then Some (match dict_find k (trajectories_cm s) with
                           | Some l => l
                           | None => []
                           end ++ [last_sample scale (frame_count s') h])
                else dict_find k (trajectories_cm s)
            | None => dict_find k (trajectories_cm s)
            end
          else dict_find k (trajectories_cm s)
      | None => dict_find k (trajectories_cm s)
      end).
Proof.
  intros [W P C T] H.
  destruct (update_positioned (tracker s) (collect_detections (results frame)) W P
              (collect_detections_positioned (results frame)))
    as [t' [U [W' P']]].
  assert (Hold : forall k traj,
             dict_find k (trajectories_cm s) = Some traj ->
             increasing_frames traj /\
             Forall (fun a => (1 <= sample_frame a <= frame_count s + 1)%Z) traj).
  { intros k traj Hk. destruct (T k traj Hk) as [I B]. split; [assumption|].
    eapply Forall_impl; [|exact B]. simpl. intros; lia. }
  unfold frame_step in H. apply bind_Ok in H. destruct H as [ds [Hd H]].
  apply detect_inv in Hd. subst ds. rewrite U in H. cbn [bind fst snd] in H.
  set (ppc := match pixel_per_cm s with None => calibration frame | Some x => Some x end)
    in *.
  destruct ppc as [scale|] eqn:Eppc; cbn [truthy] in H.
  - destruct (negb (scale =? 0)%float) eqn:Etr.
    + apply bind_Ok in H. destruct H as [tr' [E H]]. injection H as <-.
      assert (F := foldM_record_inv scale (frame_count s + 1)%Z (paths t')
                     (trajectories_cm s) tr' (wf_nodup W') P' E).
      cbn [tracker trajectories_cm frame_count pixel_per_cm]. rewrite Etr.
      split; [|split; [reflexivity|split; [reflexivity|split; [eauto|exact F]]]].
      constructor; cbn [tracker trajectories_cm frame_count pixel_per_cm];
        try assumption; [lia|].
      intros k traj Hk. rewrite F in Hk.
      destruct (dict_find k (paths t')) as [h|]; [|apply Hold with k; assumption].
      destruct (2 <=? length h)%nat; [|apply Hold with k; assumption].
      injection Hk as <-. rewrite last_sample_frame.
      destruct (dict_find k (trajectories_cm s)) as [l|] eqn:Hl.
      * destruct (T k l Hl) as [I B]. split.
        -- apply increasing_frames_snoc; [assumption|].
           eapply Forall_impl; [|exact B]. simpl. intros; lia.
        -- apply Forall_app. split.
           ++ eapply Forall_impl; [|exact B]. simpl. intros; lia.
           ++ repeat constructor; unfold sample_frame; simpl; lia.
      * split.
        -- apply increasing_frames_snoc; [|constructor].
           intros i j a b _ Hi. destruct i; discriminate.
        -- repeat constructor; unfold sample_frame; simpl; lia.
    + cbn [bind] in H. injection H as <-.
      cbn [tracker trajectories_cm frame_count pixel_per_cm]. rewrite Etr.
      split; [|split; [reflexivity|split; [reflexivity|split; [eauto|reflexivity]]]].
      constructor; cbn [tracker trajectories_cm frame_count pixel_per_cm];
        try assumption; lia.
  - cbn [bind] in H. injection H as <-.
    cbn [tracker trajectories_cm frame_count pixel_per_cm].
    split; [|split; [reflexivity|split; [reflexivity|split; [eauto|reflexivity]]]].
    constructor; cbn [tracker trajectories_cm frame_count pixel_per_cm];
      try assumption; lia.
Qed.

Lemma frame_step_total (s : Session) (frame : Frame) :
  session_ok s -> tracks_anchored (tracker s) -> frame_drawable frame ->
  exists s', frame_step s frame = Ok s' /\ tracks_anchored (tracker s').
Proof.
  intros [W P C T] A D.
  destruct (update_positioned (tracker s) (collect_detections (results frame)) W P
              (collect_detections_positioned (results frame)))
    as [t' [U [W' P']]].
  assert (A' : tracks_anchored t').
  { exact (update_stored (fun o => anchored o = true) (tracker s) _ _ t' W U A
             (collect_detections_anchored frame D)). }
  unfold frame_step. rewrite (detect_total frame D). cbn [bind].
  rewrite U. cbn [bind fst snd].
  destruct (truthy _) eqn:Etr.
  - destruct (match pixel_per_cm s with
              | Some x => Some x
              | None => calibration frame
              end) as [scale|].
    + destruct (foldM_record_total scale (frame_count s + 1)%Z (paths t')
                  (trajectories_cm s) (wf_nodup W')) as [tr' E].
      { intros k h o Hh Ho. split; [eapply P'; eauto|eapply A'; eauto]. }
      rewrite E. cbn [bind]. eexists. split; [reflexivity|exact A'].
    + cbn [bind]. eexists. split; [reflexivity|exact A'].
  - cbn [bind]. eexists. split; [reflexivity|exact A'].
Qed.

Lemma session_ok_start : session_ok start.
Proof.
  constructor; simpl.
  - exact wf_init.
  - exact init_positioned.
  - lia.
  - intros k traj H. discriminate.
Qed.

Lemma tracks_anchored_start : tracks_anchored (tracker start).
Proof. intros k h o H. discriminate. Qed.

Lemma foldM_frame_step (frames : list Frame) :
  forall s s',
    session_ok s -> foldM frame_step frames s = Ok s' ->
    session_ok s' /\
    frame_count s' = (frame_count s + Z.of_nat (length frames))%Z.
Proof.
  induction frames as [|frame frames IH]; intros s s' Hs H.
  - simpl in H. injection H as <-. split; [assumption|simpl; lia].
  - cbn [foldM] in H. apply bind_Ok in H. destruct H as [s1 [E1 E']].
    destruct (frame_step_ok s frame s1 Hs E1) as [H1 [C1 _]].
    destruct (IH s1 s' H1 E') as [H' C'].
    split; [assumption|]. rewrite C', C1. cbn [length]. lia.
Qed.

Lemma foldM_frame_step_total (frames : list Frame) :
  forall s,
    session_ok s -> tracks_anchored (tracker s) -> Forall frame_drawable frames ->
    exists s', foldM frame_step frames s = Ok s'.
Proof.
  induction frames as [|frame frames IH]; intros s Hs A D.
  - exists s. reflexivity.
  - inversion D as [|? ? D1 D2]; subst.
    destruct (frame_step_total s frame Hs A D1) as [s1 [E1 A1]].
    destruct (frame_step_ok s frame s1 Hs E1) as [H1 _].
    destruct (IH s1 H1 A1 D2) as [s' E'].
    exists s'. cbn [foldM]. rewrite E1. exact E'.
Qed.

(** X7.  The frame loop raises nothing as long as every number it converts
    for a drawing call is finite.  On frames whose boxes were read from the
    detector and whose scale step returned, when every box of class 0 with
    an area above 500 has finite corners, a finite label anchor [y1 - 10],
    a finite centre and a finite [cy - 20], the loop runs through all the
    frames, whatever scale the calibration gives.  After the frames, the frame
    counter is their number, the tracker is well formed, and in every
    recorded trajectory the frame numbers grow strictly and lie between 1
    and the frame counter. *)
Theorem session_trajectories (frames : list Frame) :
  Forall frame_drawable frames ->
  exists s,
    run_session frames = Ok s /\
    frame_count s = Z.of_nat (length frames) /\
    wf (tracker s) /\ tracks_positioned (tracker s) /\
    forall k traj,
      dict_find k (trajectories_cm s) = Some traj ->
      increasing_frames traj /\
      Forall (fun a => (1 <= sample_frame a <= Z.of_nat (length frames))%Z) traj.
Proof.
  intro D.
  destruct (foldM_frame_step_total frames start session_ok_start
              tracks_anchored_start D) as [s E].
  destruct (foldM_frame_step frames start s session_ok_start E) as [H C].
  exists s. split; [exact E|]. simpl in C. split; [exact C|].
  split; [apply (so_wf H)|]. split; [apply (so_pos H)|].
  intros k traj Hk. rewrite <- C. apply (so_traj H k traj Hk).
Qed.

Lemma frames_abc_drawable : Forall frame_drawable [frame_a; frame_b; frame_c].
Proof.
  repeat constructor; intros _; vm_compute; reflexivity.
Qed.

Lemma session_trajectories_witness :
  Forall frame_drawable [frame_a; frame_b; frame_c] /\
  exists s,
    run_session [frame_a; frame_b; frame_c] = Ok s /\
    frame_count s = Z.of_nat (length [frame_a; frame_b; frame_c]) /\
    wf (tracker s) /\ tracks_positioned (tracker s) /\
    forall k traj,
      dict_find k (trajectories_cm s) = Some traj ->
      increasing_frames traj /\
      Forall (fun a => (1 <= sample_frame a
                        <= Z.of_nat (length [frame_a; frame_b; frame_c]))%Z) traj.
Proof.
  split; [exact frames_abc_drawable|].
  exact (session_trajectories [frame_a; frame_b; frame_c] frames_abc_drawable).
Defined.

(** X12.  A box that passes the two tests with a corner that is a NaN or an
    infinity stops the frame loop: the conversion of the corner for the
    rectangle raises [ValueError] or [OverflowError] before the tracker is
    called, whatever the state of the loop and the other boxes. *)
Theorem undrawable_box_raises (s : Session) (frame : Frame)
    (boxes : list Box) (box : Box) :
  In boxes (results frame) -> In box boxes ->
  accepted box = true -> corners_finite box = false ->
  exists e,
    detect (results frame) = Raise e /\ frame_step s frame = Raise e /\
    (e = ValueError \/ e = OverflowError).
Proof.
  intros Hboxes Hbox Ha Hc.
  destruct (detect_raises (results frame) boxes box Hboxes Hbox Ha Hc) as [e [E Q]].
  exists e. split; [exact E|]. split; [|exact Q].
  unfold frame_step. rewrite E. reflexivity.
Qed.

Lemma undrawable_box_raises_witness :
  accepted stray_box = true /\ corners_finite stray_box = false /\
  frame_step start stray_frame = Raise OverflowError /\
  exists e,
    detect (results stray_frame) = Raise e /\ frame_step start stray_frame = Raise e /\
    (e = ValueError \/ e = OverflowError).
Proof.
  split; [vm_compute; reflexivity|]. split; [vm_compute; reflexivity|].
  split; [vm_compute; reflexivity|].
  apply (undrawable_box_raises start stray_frame [stray_box] stray_box).
  - simpl. auto.
  - simpl. auto.
  - vm_compute. reflexivity.
  - vm_compute. reflexivity.
Defined.

Lemma frame_step_samples (s : Session) (frame : Frame) (s' : Session)
    (scale : float) :
  session_ok s -> frame_step s frame = Ok s' ->
  pixel_per_cm s' = Some scale -> (scale =? 0)%float = false ->
  session_ok s' /\ frame_count s' = (frame_count s + 1)%Z /\
  forall k,
    dict_find k (trajectories_cm s') =
    match dict_find k (paths (tracker s')) with
    | Some h =>
        if (2 <=? length h)%nat
        then Some (match dict_find k (trajectories_cm s) with
                   | Some l => l
                   | None => []
                   end ++ [last_sample scale (frame_count s') h])
        else dict_find k (trajectories_cm s)
    | None => dict_find k (trajectories_cm s)
    end.
Proof.
  intros Hs E Hp Hz.
  destruct (frame_step_ok s frame s' Hs E) as [H1 [C1 [_ [_ F1]]]].
  split; [assumption|]. split; [assumption|].
  intro k. rewrite (F1 k), Hp, Hz. reflexivity.
Qed.

(** X8.  Once the scale is known and not zero, a frame appends exactly one
    sample to the trajectory of every live track with at least two
    observations: the position of its last observation divided by the
    scale, with the number of the frame.  It does so whether or not the
    track was matched in the frame, and it changes no other trajectory. *)
Theorem one_sample_per_frame (s : Session) (frame : Frame) (s' : Session)
    (scale : float) :
  session_ok s -> frame_step s frame = Ok s' ->
  pixel_per_cm s' = Some scale -> (scale =? 0)%float = false ->
  (forall k h o,
      dict_find k (paths (tracker s')) = Some h -> (2 <= length h)%nat ->
      py_last h = Ok o ->
      dict_find k (trajectories_cm s') =
      Some (match dict_find k (trajectories_cm s) with Some l => l | None => [] end
            ++ [((nth 0 o 0 / scale)%float, (nth 1 o 0 / scale)%float,
                 (frame_count s + 1)%Z)])) /\
  (forall k h,
      dict_find k (paths (tracker s')) = Some h -> (length h < 2)%nat ->
      dict_find k (trajectories_cm s') = dict_find k (trajectories_cm s)) /\
  (forall k,
      dict_find k (paths (tracker s')) = None ->
      dict_find k (trajectories_cm s') = dict_find k (trajectories_cm s)).
Proof.
  intros Hs E Hp Hz.
  destruct (frame_step_samples s frame s' scale Hs E Hp Hz) as [_ [C F]].
  split; [|split].
  - intros k h o Hh Hlen Hlast. rewrite (F k), Hh.
    apply Nat.leb_le in Hlen. rewrite Hlen, C. unfold last_sample.
    unfold py_last in Hlast. destruct (rev h); [discriminate|].
    injection Hlast as ->. reflexivity.
  - intros k h Hh Hlen. rewrite (F k), Hh.
    apply Nat.leb_gt in Hlen. rewrite Hlen. reflexivity.
  - intros k Hk. rewrite (F k), Hk. reflexivity.
Qed.

(** X9.  A track that misses a frame is sampled all the same.  If, with a
    known scale, a live track of at least two observations has the same
    history after the next frame, its trajectory ends with two samples at
    the same position, numbered by the two frames. *)
Theorem coasting_track_repeats_sample (s : Session) (f1 f2 : Frame)
    (s1 s2 : Session) (scale : float) (k : Z) (h : list Obs) :
  session_ok s ->
  frame_step s f1 = Ok s1 -> frame_step s1 f2 = Ok s2 ->
  pixel_per_cm s1 = Some scale -> (scale =? 0)%float = false ->
  dict_find k (paths (tracker s1)) = Some h -> (2 <= length h)%nat ->
  dict_find k (paths (tracker s2)) = Some h ->
  exists old x y,
    dict_find k (trajectories_cm s2)
    = Some (old ++ [(x, y, frame_count s1); (x, y, (frame_count s1 + 1)%Z)]).
Proof.
  intros Hs E1 E2 Hp Hz Hh1 Hlen Hh2.
  destruct (frame_step_samples s f1 s1 scale Hs E1 Hp Hz) as [Hs1 [C1 F1]].
  assert (Hp2 : pixel_per_cm s2 = Some scale).
  { destruct (frame_step_ok s1 f2 s2 Hs1 E2) as [_ [_ [P2 _]]].
    rewrite P2, Hp. reflexivity. }
  destruct (frame_step_samples s1 f2 s2 scale Hs1 E2 Hp2 Hz) as [_ [C2 F2]].
  apply Nat.leb_le in Hlen.
  specialize (F1 k). rewrite Hh1, Hlen in F1.
  specialize (F2 k). rewrite Hh2, Hlen, F1, C2 in F2.
  exists (match dict_find k (trajectories_cm s) with Some l => l | None => [] end).
  exists (fst (fst (last_sample scale 0%Z h))), (snd (fst (last_sample scale 0%Z h))).
  rewrite F2, <- app_assoc. unfold last_sample. destruct (rev h); reflexivity.
Qed.

Lemma session_ok_run (frames : list Frame) (s : Session) :
  run_session frames = Ok s ->
  session_ok s /\ frame_count s = Z.of_nat (length frames).
Proof.
  intro H. unfold run_session in H.
  exact (foldM_frame_step frames start s session_ok_start H).
Qed.

Lemma run_session_a : run_session [frame_a] = Ok session_a.
Proof. vm_compute. reflexivity. Qed.

Lemma step_session_b : frame_step session_a frame_b = Ok session_b.
Proof. vm_compute. reflexivity. Qed.

Lemma step_session_c : frame_step session_b frame_c = Ok session_c.
Proof. vm_compute. reflexivity. Qed.

Lemma one_sample_per_frame_witness :
  frame_step session_a frame_b = Ok session_b /\
  (forall k h o,
      dict_find k (paths (tracker session_b)) = Some h -> (2 <= length h)%nat ->
      py_last h = Ok o ->
      dict_find k (trajectories_cm session_b) =
      Some (match dict_find k (trajectories_cm session_a) with
            | Some l => l
            | None => []
            end
            ++ [((nth 0 o 0 / 2)%float, (nth 1 o 0 / 2)%float,
                 (frame_count session_a + 1)%Z)])) /\
  (forall k h,
      dict_find k (paths (tracker session_b)) = Some h -> (length h < 2)%nat ->
      dict_find k (trajectories_cm session_b) = dict_find k (trajectories_cm session_a)) /\
  (forall k,
      dict_find k (paths (tracker session_b)) = None ->
      dict_find k (trajectories_cm session_b) = dict_find k (trajectories_cm session_a)).
Proof.
  split; [exact step_session_b|].
  exact (one_sample_per_frame session_a frame_b session_b 2%float
           (proj1 (session_ok_run [frame_a] session_a run_session_a))
           step_session_b eq_refl eq_refl).
Defined.

Lemma coasting_track_repeats_sample_witness :
  frame_step session_b frame_c = Ok session_c /\
  dict_find 0%Z (paths (tracker session_c))
    = dict_find 0%Z (paths (tracker session_b)) /\
  dict_find 0%Z (trajectories_cm session_c)
    = Some [(27%float, 27%float, 2%Z); (27%float, 27%float, 3%Z)] /\
  exists old x y,
    dict_find 0%Z (trajectories_cm session_c)
    = Some (old ++ [(x, y, frame_count session_b);
                    (x, y, (frame_count session_b + 1)%Z)]).
Proof.
  split; [exact step_session_c|]. split; [reflexivity|]. split; [reflexivity|].
  exact (coasting_track_repeats_sample session_a frame_b frame_c session_b session_c
           2%float 0%Z [[50; 50; 0.5; 0]; [54; 54; 0.5; 0]]%float
           (proj1 (session_ok_run [frame_a] session_a run_session_a))
           step_session_b step_session_c eq_refl eq_refl eq_refl
           (le_n 2) eq_refl).
Defined.

(** ** The speeds plotted at the end *)

Lemma speed_step_plain (fps : float) (traj : list Sample) (N : Z)
    (speeds times : list float) (i : nat) :
  (fps =? 0)%float = false ->
  (forall n, (0 <= n <= N)%Z -> convertible n = true) ->
  Forall (fun a => (0 <= sample_frame a <= N)%Z) traj ->
  (1 <= i < length traj)%nat ->
  exists speeds' times',
    speed_step fps traj (Some (speeds, times)) i = Some (speeds', times') /\
    ((speeds' = speeds /\ times' = times) \/
     (speeds' = speeds ++ [speed_at fps traj i] /\
      times' = times ++ [time_at fps traj i])) /\
    ((forall a b, nth_error traj (i - 1) = Some a -> nth_error traj i = Some b ->
                  (sample_frame a < sample_frame b)%Z) ->
     speeds' = speeds ++ [speed_at fps traj i] /\
     times' = times ++ [time_at fps traj i]).
Proof.
  intros Hfps Hconv Hrange Hi. unfold speed_step, speed_at, time_at, py_int_div_float.
  rewrite Hfps.
  destruct (nth_error traj i) as [[[xi yi] fi]|] eqn:Ei;
    [|apply nth_error_None in Ei; lia].
  destruct (nth_error traj (i - 1)) as [[[xp yp] fp]|] eqn:Ep;
    [|apply nth_error_None in Ep; lia].
  rewrite Forall_forall in Hrange.
  pose proof (Hrange _ (nth_error_In _ _ Ei)) as Ri.
  pose proof (Hrange _ (nth_error_In _ _ Ep)) as Rp.
  unfold sample_frame in Ri, Rp. simpl in Ri, Rp.
  destruct (0 <? fi - fp)%Z eqn:Hdf.
  - apply Z.ltb_lt in Hdf.
    rewrite (Hconv (fi - fp)%Z) by lia. rewrite (Hconv fi) by lia.
    eexists. eexists. split; [reflexivity|]. split; [right; auto|auto].
  - eexists. eexists. split; [reflexivity|]. split; [left; auto|].
    intro H. specialize (H _ _ eq_refl eq_refl). unfold sample_frame in H.
    simpl in H. apply Z.ltb_ge in Hdf. lia.
Qed.

Lemma speed_fold (fps : float) (traj : list Sample) (N : Z) (idxs : list nat) :
  (fps =? 0)%float = false ->
  (forall n, (0 <= n <= N)%Z -> convertible n = true) ->
  Forall (fun a => (0 <= sample_frame a <= N)%Z) traj ->
  Forall (fun i => (1 <= i < length traj)%nat) idxs ->
  forall speeds times,
    length speeds = length times ->
    exists speeds' times',
      fold_left (speed_step fps traj) idxs (Some (speeds, times))
      = Some (speeds', times') /\
      length speeds' = length times' /\
      (length speeds' <= length speeds + length idxs)%nat /\
      ((forall i a b, In i idxs ->
           nth_error traj (i - 1) = Some a -> nth_error traj i = Some b ->
           (sample_frame a < sample_frame b)%Z) ->
       speeds' = speeds ++ map (speed_at fps traj) idxs /\
       times' = times ++ map (time_at fps traj) idxs).
Proof.
  intros Hfps Hconv Hrange Hidx.
  induction Hidx as [|i idxs Hi Hrest IH]; intros speeds times Hlen.
  - exists speeds, times. simpl. rewrite !app_nil_r. split; [reflexivity|].
    split; [assumption|]. split; [lia|auto].
  - destruct (speed_step_plain fps traj N speeds times i Hfps Hconv Hrange Hi)
      as [s1 [t1 [E1 [Hcase Hinc]]]].
    assert (L1 : length s1 = length t1 /\ (length s1 <= length speeds + 1)%nat).
    { destruct Hcase as [[-> ->]|[-> ->]]; rewrite ?length_app; simpl; lia. }
    destruct (IH s1 t1 (proj1 L1)) as [s2 [t2 [E2 [L2 [B2 Hinc2]]]]].
    exists s2, t2. cbn [fold_left]. rewrite E1. split; [exact E2|].
    split; [assumption|]. split; [simpl; lia|].
    intro Hfr. destruct Hinc as [-> ->].
    { intros a b. apply (Hfr i a b). simpl. auto. }
    destruct Hinc2 as [-> ->].
    { intros j a b Hj. apply (Hfr j a b). simpl. auto. }
    simpl. rewrite <- !app_assoc. auto.
Qed.

Lemma speed_series_total (fps : float) (traj : list Sample) (N : Z) :
  (fps =? 0)%float = false ->
  (forall n, (0 <= n <= N)%Z -> convertible n = true) ->
  Forall (fun a => (0 <= sample_frame a <= N)%Z) traj ->
  exists speeds times,
    speed_series fps traj = Some (speeds, times) /\
    length speeds = length times /\
    (length speeds <= length traj - 1)%nat /\
    (increasing_frames traj -> (3 <= length traj)%nat ->
     speeds = map (speed_at fps traj) (seq 1 (length traj - 1)) /\
     times = map (time_at fps traj) (seq 1 (length traj - 1))).
Proof.
  intros Hfps Hconv Hrange. unfold speed_series.
  destruct (length traj <? 3)%nat eqn:Hlen.
  - exists [], []. split; [reflexivity|]. split; [reflexivity|]. split; [simpl; lia|].
    intros _ H. apply Nat.ltb_lt in Hlen. lia.
  - destruct (speed_fold fps traj N (seq 1 (length traj - 1)) Hfps Hconv Hrange) with
      (speeds := @nil float) (times := @nil float)
      as [speeds [times [E [L [B Hinc]]]]]; [|reflexivity|].
    { apply Forall_forall. intros i Hi. apply in_seq in Hi. lia. }
    exists speeds, times. split; [exact E|]. split; [exact L|].
    split; [rewrite length_seq in B; simpl in B; lia|].
    intros Hfr _. apply Hinc. intros i a b Hi Ha Hb. apply in_seq in Hi.
    apply (Hfr (i - 1)%nat i a b); [lia|assumption|assumption].
Qed.

Lemma convertible_upto_4 (n : Z) : (0 <= n <= 4)%Z -> convertible n = true.
Proof.
  intro H.
  assert (E : n = 0%Z \/ n = 1%Z \/ n = 2%Z \/ n = 3%Z \/ n = 4%Z) by lia.
  destruct E as [->|[->|[->|[->| ->]]]]; reflexivity.
Qed.

(** X10.  The speed plot of a trajectory.  With a frame rate that is not
    zero and frame numbers that convert to floats, the computation raises
    nothing and yields as many times as speeds, at most one per pair of
    consecutive samples; nothing is plotted for fewer than three samples.
    When the frame numbers of the trajectory grow strictly, the test
    [df > 0] skips nothing: every consecutive pair gives its speed, the
    distance over the elapsed frames divided by the frame rate, at the time
    of its second sample. *)
Theorem speed_series_complete (fps : float) (traj : list Sample) (N : Z) :
  (fps =? 0)%float = false ->
  (forall n, (0 <= n <= N)%Z -> convertible n = true) ->
  Forall (fun a => (0 <= sample_frame a <= N)%Z) traj ->
  exists speeds times,
    speed_series fps traj = Some (speeds, times) /\
    length speeds = length times /\
    (length speeds <= length traj - 1)%nat /\
    ((length traj < 3)%nat -> speeds = []) /\
    (increasing_frames traj -> (3 <= length traj)%nat ->
     length speeds = (length traj - 1)%nat /\
     forall i xp yp fp xi yi fi,
       nth_error traj i = Some (xp, yp, fp) ->
       nth_error traj (S i) = Some (xi, yi, fi) ->
       nth_error speeds i
         = Some (np_hypot (xi - xp) (yi - yp) / (Z2F (fi - fp) / fps))%float /\
       nth_error times i = Some (Z2F fi / fps)%float).
Proof.
  intros Hfps Hconv Hrange.
  destruct (speed_series_total fps traj N Hfps Hconv Hrange)
    as [speeds [times [E [L [B Hinc]]]]].
  exists speeds, times. split; [exact E|]. split; [exact L|]. split; [exact B|].
  split.
  - intro Hshort. unfold speed_series in E. apply Nat.ltb_lt in Hshort.
    rewrite Hshort in E. congruence.
  - intros Hfr Hlen. destruct (Hinc Hfr Hlen) as [-> ->]. split.
    + rewrite length_map, length_seq. reflexivity.
    + intros i xp yp fp xi yi fi Hp Hi.
      assert (Hlt : (S i < length traj)%nat) by (apply nth_error_Some; congruence).
      rewrite !nth_error_map, nth_error_seq.
      assert (Hb : (i <? length traj - 1)%nat = true) by (apply Nat.ltb_lt; lia).
      rewrite Hb. cbn [option_map]. unfold speed_at, time_at.
      replace (1 + i)%nat with (S i) by lia.
      replace (S i - 1)%nat with i by lia. rewrite Hi, Hp. auto.
Qed.

Lemma speed_series_complete_witness :
  exists speeds times,
    speed_series 30 [(0, 0, 1%Z); (3, 4, 2%Z); (3, 4, 4%Z)]%float = Some (speeds, times) /\
    length speeds = length times /\
    (length speeds <= 3 - 1)%nat /\
    speeds = [150; 0]%float.
Proof.
  destruct (speed_series_complete 30 [(0, 0, 1%Z); (3, 4, 2%Z); (3, 4, 4%Z)]%float 4%Z
              eq_refl convertible_upto_4)
    as [speeds [times [E [L [B _]]]]].
  { repeat constructor; simpl; lia. }
  exists speeds, times. split; [exact E|]. split; [exact L|]. split; [exact B|].
  vm_compute in E. injection E as <- _. reflexivity.
Defined.

(** X11.  For the trajectories the frame loop records, the test [df > 0]
    of the speed plot never skips a sample: when the frame rate is not zero
    and the frame numbers of the video convert to floats, a recorded
    trajectory of at least three samples gives exactly one speed per pair
    of consecutive samples. *)
Theorem recorded_trajectories_fully_plotted (frames : list Frame) (s : Session)
    (fps : float) (k : Z) (traj : list Sample) :
  run_session frames = Ok s -> (fps =? 0)%float = false ->
  (forall n, (0 <= n <= Z.of_nat (length frames))%Z -> convertible n = true) ->
  dict_find k (trajectories_cm s) = Some traj -> (3 <= length traj)%nat ->
  exists speeds times,
    speed_series fps traj = Some (speeds, times) /\
    length speeds = (length traj - 1)%nat /\
    length times = (length traj - 1)%nat.
Proof.
  intros Hrun Hfps Hconv Hk Hlen.
  destruct (session_ok_run frames s Hrun) as [Hok Hcount].
  destruct (so_traj Hok k traj Hk) as [Hinc Hrange].
  assert (Hrange' : Forall (fun a => (0 <= sample_frame a
                                      <= Z.of_nat (length frames))%Z) traj).
  { eapply Forall_impl; [|exact Hrange]. simpl. intros a Ha. lia. }
  destruct (speed_series_total fps traj _ Hfps Hconv Hrange')
    as [speeds [times [E [L [_ H]]]]].
  destruct (H Hinc Hlen) as [-> ->].
  eexists. eexists. split; [exact E|].
  rewrite !length_map, length_seq. auto.
Qed.

Lemma run_session_d : run_session [frame_a; frame_b; frame_c; frame_c] = Ok session_d.
Proof. vm_compute. reflexivity. Qed.

Lemma recorded_trajectories_fully_plotted_witness :
  run_session [frame_a; frame_b; frame_c; frame_c] = Ok session_d /\
  exists speeds times,
    speed_series 30 [(27, 27, 2%Z); (27, 27, 3%Z); (27, 27, 4%Z)]%float
    = Some (speeds, times) /\
    length speeds = 2%nat /\ length times = 2%nat.
Proof.
  split; [exact run_session_d|].
  exact (recorded_trajectories_fully_plotted
           [frame_a; frame_b; frame_c; frame_c] session_d 30%float 0%Z
           [(27, 27, 2%Z); (27, 27, 3%Z); (27, 27, 4%Z)]%float
           run_session_d eq_refl convertible_upto_4 eq_refl (le_n 3)).
Defined.
